(** * ReboltDB: type lattice, term construction, SCRAM handshake and query
      dispatch, embedded from the Go sources.

    Layout: the definitions come first, one [Module] per Go package
    ([types], [json], [ql2], [query], [server], [main]); the theorems
    follow. *)

From stdpp Require Import gmap strings list fin_maps relations pretty.
From Stdlib Require Import ZArith NArith Floats.SpecFloat Ascii.

#[local] Set Warnings "-register-all,-clear-no-such-hyp".
#[local] Open Scope Z_scope.

(* ===================================================================== *)
(** ** Package [types] (query/types) *)
(* ===================================================================== *)

Module types.

(** [type TypeFlag int64].  Every constant below fits in 22 bits, so no
    wrap-around of the 64-bit representation is ever involved. *)
Definition TypeFlag : Type := Z.

(** One line of the [const ( ... )] block: [1 << iota]. *)
Definition bit (iota : Z) : TypeFlag := Z.shiftl 1 iota.

(** The constant block.  [iota] counts the lines of the block; a line
    without an expression repeats the expression of the line above. *)
Definition Datum : TypeFlag := bit 0.
Definition Sequence : TypeFlag := bit 1.
Definition Database : TypeFlag := bit 2.
Definition Function : TypeFlag := bit 3.
Definition Ordering : TypeFlag := bit 4.
Definition Null : TypeFlag := Z.lor Datum (bit 5).
Definition MinVal : TypeFlag := Z.lor Datum (bit 6).
Definition MaxVal : TypeFlag := Z.lor Datum (bit 7).
Definition Bool : TypeFlag := Z.lor Datum (bit 8).
Definition Number : TypeFlag := Z.lor Datum (bit 9).
Definition String : TypeFlag := Z.lor Datum (bit 10).
Definition Object : TypeFlag := Z.lor Datum (bit 11).
Definition Time : TypeFlag := Z.lor Datum (bit 12).
Definition Binary : TypeFlag := Z.lor Datum (bit 13).
Definition Geometry : TypeFlag := Z.lor Datum (bit 14).
Definition Selection : TypeFlag := Z.lor Object (bit 15).
Definition Array : TypeFlag := Z.lor (Z.lor Datum Sequence) (bit 16).
Definition SelectionArray : TypeFlag := Z.lor Array (bit 17).
Definition Stream : TypeFlag := Z.lor Sequence (bit 18).
Definition SelectionStream : TypeFlag := Z.lor Stream (bit 19).
Definition TableSlice : TypeFlag := Z.lor SelectionStream (bit 20).
Definition Table : TypeFlag := Z.lor SelectionStream (bit 21).

(** The entries of the map literal [allFlags], in source order. *)
Definition allFlags_entries : list (TypeFlag * string) :=
  [ (Datum, "DATUM"); (Sequence, "SEQUENCE"); (Database, "DATABASE");
    (Function, "FUNCTION"); (Ordering, "ORDERING"); (Null, "NULL");
    (MinVal, "MINVAL"); (MaxVal, "MAXVAL"); (Bool, "BOOL");
    (Number, "NUMBER"); (String, "STRING"); (Object, "OBJECT");
    (Time, "PTYPE<TIME>"); (Binary, "PTYPE<BINARY>");
    (Geometry, "PTYPE<GEOMETRY>"); (Selection, "SELECTION<OBJECT>");
    (Array, "ARRAY"); (SelectionArray, "SELECTION<ARRAY>");
    (Stream, "STREAM"); (SelectionStream, "SELECTION<STREAM>");
    (TableSlice, "TABLE_SLICE"); (Table, "TABLE") ].

(** [var allFlags = map[TypeFlag]string{...}] *)
Definition allFlags : gmap TypeFlag string := list_to_map allFlags_entries.

(** [func (t TypeFlag) String() string]: a missing key reads as the
    empty string. *)
Definition TypeFlag_String (t : TypeFlag) : string :=
  default "" (allFlags !! t).

(** [func (t TypeFlag) IsSubTypeOf(other TypeFlag) bool] *)
Definition IsSubTypeOf (t other : TypeFlag) : bool :=
  Z.land t other =? other.

(** The tags of the enumeration: the keys the test ranges over with
    [for first := range allFlags]. *)
Definition tags : list TypeFlag := allFlags_entries.*1.

(** The table [expectations] of [TestTypeFlagIsSubTypeOf]: the pairs the
    repository's own test expects to be positive; a pair that is not a
    key of the table is expected to be negative. *)
Definition expectations : list (TypeFlag * TypeFlag) :=
  [ (Datum, Datum); (Sequence, Sequence); (Database, Database);
    (Function, Function); (Ordering, Ordering);
    (Null, Datum); (Null, Null);
    (MinVal, Datum); (MinVal, MinVal);
    (MaxVal, Datum); (MaxVal, MaxVal);
    (Bool, Datum); (Bool, Bool);
    (Number, Datum); (Number, Number);
    (String, Datum); (String, String);
    (Object, Datum); (Object, Object);
    (Time, Datum); (Time, Time);
    (Binary, Datum); (Binary, Binary);
    (Geometry, Datum); (Geometry, Geometry);
    (Selection, Datum); (Selection, Object); (Selection, Selection);
    (Array, Datum); (Array, Sequence); (Array, Array);
    (SelectionArray, Datum); (SelectionArray, Sequence);
    (SelectionArray, Array); (SelectionArray, SelectionArray);
    (Stream, Sequence); (Stream, Stream);
    (SelectionStream, Sequence); (SelectionStream, Stream);
    (SelectionStream, SelectionStream);
    (TableSlice, Sequence); (TableSlice, Stream);
    (TableSlice, SelectionStream); (TableSlice, TableSlice);
    (Table, Sequence); (Table, Stream); (Table, SelectionStream);
    (Table, Table) ].

(** The sparse relation the specification lists in its data model,
    without the reflexive pairs: "t is directly below u". *)
Definition below_entries : list (TypeFlag * TypeFlag) :=
  [ (Null, Datum); (MinVal, Datum); (MaxVal, Datum); (Bool, Datum);
    (Number, Datum); (String, Datum); (Object, Datum); (Time, Datum);
    (Binary, Datum); (Geometry, Datum);
    (Selection, Object); (Selection, Datum);
    (Array, Datum); (Array, Sequence);
    (SelectionArray, Array);
    (Stream, Sequence);
    (SelectionStream, Stream);
    (TableSlice, SelectionStream); (Table, SelectionStream) ].

Definition below (t u : TypeFlag) : Prop := (t, u) ∈ below_entries.

(** The pairs of tags on which [IsSubTypeOf] answers [true], and those
    on which it answers [false]. *)
Definition positive_pairs : list (TypeFlag * TypeFlag) :=
  filter (λ p, IsSubTypeOf p.1 p.2 = true) (cprod tags tags).
Definition negative_pairs : list (TypeFlag * TypeFlag) :=
  filter (λ p, IsSubTypeOf p.1 p.2 = false) (cprod tags tags).

(** A bounded search along [below_entries]: [reachb n t u] holds when
    [u] is reached from [t] in at most [n] steps. *)
Fixpoint reachb (n : nat) (t u : TypeFlag) : bool :=
  bool_decide (t = u) ||
  match n with
  | O => false
  | S n' =>
      existsb (λ p, bool_decide (p.1 = t) && reachb n' p.2 u) below_entries
  end.

End types.

(* ===================================================================== *)
(** ** Results of Go calls *)
(* ===================================================================== *)

(** A Go function returning [(T, error)]: either the value or the error. *)
Inductive result (E A : Type) : Type :=
| Ok (a : A)
| Err (e : E).
Arguments Ok {E A} a.
Arguments Err {E A} e.

(** The run-time panics the embedded code can raise. *)
Inductive runtime_panic : Type :=
| nil_dereference
| slice_bounds_out_of_range (high : Z)
| index_out_of_range (index : Z).

(** A Go call that may panic instead of returning. *)
Inductive exec (A : Type) : Type :=
| Returns (a : A)
| Panics (p : runtime_panic).
Arguments Returns {A} a.
Arguments Panics {A} p.

(* ===================================================================== *)
(** ** Package [json] *)
(* ===================================================================== *)

Module json.

(** The kinds of value of the JSON library ([jsonparser.ValueType]), as
    far as [Value.ValueType] returns them. *)
Inductive ValueType : Type :=
| VT_String | VT_Number | VT_Object | VT_Array | VT_Boolean | VT_Null.

(** [type Value interface], with its six implementations [Null], [Bool],
    [Number] (a float64, here its IEEE-754 value), [String], [Array] and
    [Object] (a [map[string]Value]). *)
Inductive Value : Type :=
| Null
| Bool (b : bool)
| Number (n : spec_float)
| String (s : string)
| Array (a : list Value)
| Object (o : gmap string Value).

Definition ValueType_of (v : Value) : ValueType :=
  match v with
  | Null => VT_Null
  | Bool _ => VT_Boolean
  | Number _ => VT_Number
  | String _ => VT_String
  | Array _ => VT_Array
  | Object _ => VT_Object
  end.

Definition IsNull (v : Value) : bool :=
  match v with Null => true | _ => false end.
Definition IsBool (v : Value) : bool :=
  match v with Bool _ => true | _ => false end.
Definition IsNumber (v : Value) : bool :=
  match v with Number _ => true | _ => false end.
Definition IsString (v : Value) : bool :=
  match v with String _ => true | _ => false end.
Definition IsArray (v : Value) : bool :=
  match v with Array _ => true | _ => false end.
Definition IsObject (v : Value) : bool :=
  match v with Object _ => true | _ => false end.

(** The conversion [int64(f)] of a float64: truncation toward zero.  For
    a value outside the int64 range, an infinity or a NaN, Go leaves the
    result to the implementation; [int64_indefinite] is the answer of
    the amd64 conversion instruction. *)
Definition int64_indefinite : Z := - 2 ^ 63.

Definition int64_of_float64 (f : spec_float) : Z :=
  match f with
  | S754_zero _ => 0
  | S754_finite s m e =>
      let mag := Z.shiftl (Z.pos m) e in
      let z := if s then - mag else mag in
      if (- 2 ^ 63 <=? z) && (z <? 2 ^ 63) then z else int64_indefinite
  | S754_infinity _ | S754_nan => int64_indefinite
  end.

(** The typed accessors return the zero value of their type unless the
    value is of that type. *)
Definition AsBool (v : Value) : bool :=
  match v with Bool b => b | _ => false end.
Definition AsInt64 (v : Value) : Z :=
  match v with Number n => int64_of_float64 n | _ => 0 end.
Definition AsString (v : Value) : string :=
  match v with String s => s | _ => "" end.
Definition AsArray (v : Value) : list Value :=
  match v with Array a => a | _ => [] end.
Definition AsObject (v : Value) : gmap string Value :=
  match v with Object o => o | _ => ∅ end.

(** The float64 holding the integer [z] (exact for |z| < 2^53). *)
Definition number_of_Z (z : Z) : Value :=
  Number match z with
         | 0 => S754_zero false
         | Z.pos p => S754_finite false p 0
         | Z.neg p => S754_finite true p 0
         end.

(** Number of constructors of a value; the measure for inductions over
    values, whose children sit in lists and in maps. *)
Fixpoint Value_size (v : Value) : nat :=
  match v with
  | Array a => S (foldr (λ x acc, Value_size x + acc)%nat 0%nat a)
  | Object o => S (map_fold (λ _ x acc, Value_size x + acc)%nat 0%nat o)
  | _ => 1%nat
  end.

(** *** Parsing *)

(** The kind the JSON library gives a value ([jsonparser.ValueType]):
    one of the six kinds above, or [NotExist] or [Unknown]. *)
Inductive DataType : Type :=
| Known (vt : ValueType)
| NotExist
| Unknown.

(** What the JSON library makes of the bytes of a value: the bytes, the
    kind, and for an array or an object what [ArrayEach] or
    [ObjectEach] hands to its callback, one element after the other
    (for an object with the bytes of the key), and the error the
    iteration ends with when the bytes are malformed.  The iteration
    stops at the first error its callback returns, and returns it. *)
Inductive document : Type :=
  Doc (data : string) (dataType : DataType)
      (each : list (string * document)) (each_err : option string).

(** The errors of [Parse]: a [*ParseError] with its field and cause,
    the two [fmt.Errorf], and an error of the library as it is. *)
Inductive error : Type :=
| ParseError (field : string) (err : error)
    (* "unable to parse JSON at field %s: %s" *)
| ErrGet (err : string)
    (* "unable to parse JSON: %s" *)
| ErrUnhandled (dataType : DataType)
    (* "unable to handle type %s" *)
| ErrLibrary (err : string).

(** [func parseError(field string, err error) error] *)
Definition parseError (field : string) (err : error) : error :=
  ParseError field err.

(** [if _, ok := err.( *ParseError); !ok { err = parseError(field, err) }] *)
Definition asParseError (field : string) (err : error) : error :=
  match err with
  | ParseError _ _ => err
  | _ => parseError field err
  end.

Definition quote : string :=
  String.String (Ascii.ascii_of_nat 34) EmptyString.

Section Parse.

(** [json.ParseString], [json.ParseBoolean] and [json.ParseFloat] of the
    library. *)
Variable ParseString : string → result string string.
Variable ParseBoolean : string → result string bool.
Variable ParseFloat : string → result string spec_float.

(** The callback of [ArrayEach], run over the elements: [arrayVal] is
    the array built so far, whose length names the element at hand. *)
Definition arrayEach (parse : document → string → result error Value)
    (field : string) (each_err : option string)
  : list (string * document) → list Value → result error (list Value) :=
  fix loop each arrayVal :=
    match each with
    | [] =>
        match each_err with
        | Some err => Err (ErrLibrary err)
        | None => Ok arrayVal
        end
    | (_, data) :: each' =>
        match
          parse data (field +:+ "[" +:+ pretty (length arrayVal) +:+ "]")
        with
        | Err err => Err err
        | Ok val => loop each' (arrayVal ++ [val])
        end
    end.

(** The callback of [ObjectEach], run over the entries. *)
Definition objectEach (parse : document → string → result error Value)
    (field : string) (each_err : option string)
  : list (string * document) → gmap string Value →
    result error (gmap string Value) :=
  fix loop each objectVal :=
    match each with
    | [] =>
        match each_err with
        | Some err => Err (ErrLibrary err)
        | None => Ok objectVal
        end
    | (key, data) :: each' =>
        match
          parse data (field +:+ "[" +:+ quote +:+ key +:+ quote +:+ "]")
        with
        | Err err => Err err
        | Ok val => loop each' (<[key := val]> objectVal)
        end
    end.

(** [func parse(data []byte, dataType json.ValueType, field string)
    (Value, error)] *)
Fixpoint parse (doc : document) (field : string) {struct doc}
  : result error Value :=
  match doc with
  | Doc data dataType each each_err =>
      match dataType with
      | Known VT_String =>
          match ParseString data with
          | Err err => Err (parseError field (ErrLibrary err))
          | Ok strVal => Ok (String strVal)
          end
      | Known VT_Boolean =>
          match ParseBoolean data with
          | Err err => Err (parseError field (ErrLibrary err))
          | Ok boolVal => Ok (Bool boolVal)
          end
      | Known VT_Number =>
          match ParseFloat data with
          | Err err => Err (parseError field (ErrLibrary err))
          | Ok numberVal => Ok (Number numberVal)
          end
      | Known VT_Null => Ok Null
      | Known VT_Array =>
          match arrayEach parse field each_err each [] with
          | Err err => Err (asParseError field err)
          | Ok arrayVal => Ok (Array arrayVal)
          end
      | Known VT_Object =>
          match objectEach parse field each_err each ∅ with
          | Err err => Err (asParseError field err)
          | Ok objectVal => Ok (Object objectVal)
          end
      | _ => Err (ErrUnhandled dataType)
      end
  end.

(** [json.Get(data)] of the library, with what it makes of the value
    found. *)
Variable json_Get : string → result string document.

(** [func Parse(data []byte) (Value, error)] *)
Definition Parse (data : string) : result error Value :=
  match json_Get data with
  | Err err => Err (ErrGet err)
  | Ok doc => parse doc "."
  end.

End Parse.

(** The kind of a document, and what its iteration hands out. *)
Definition dataType_of (doc : document) : DataType :=
  match doc with Doc _ dataType _ _ => dataType end.
Definition each_of (doc : document) : list (string * document) :=
  match doc with Doc _ _ each _ => each end.
Definition each_err_of (doc : document) : option string :=
  match doc with Doc _ _ _ each_err => each_err end.

(** Number of nodes of a document; the measure for inductions over
    documents. *)
Fixpoint document_size (doc : document) : nat :=
  match doc with
  | Doc _ _ each _ =>
      S (foldr (λ kd acc, document_size kd.2 + acc)%nat 0%nat each)
  end.

(** The field of the element with index [i] of the array at [field],
    and of the entry with key [key] of the object at [field]. *)
Definition index_field (field : string) (i : nat) : string :=
  field +:+ "[" +:+ pretty i +:+ "]".
Definition key_field (field key : string) : string :=
  field +:+ "[" +:+ quote +:+ key +:+ quote +:+ "]".

(** The object [objectVal] after [objectVal[key] = val] for the entries
    [entries], in their order. *)
Definition inserted (objectVal : gmap string Value)
    (entries : list (string * Value)) : gmap string Value :=
  foldl (λ acc kv, <[kv.1 := kv.2]> acc) objectVal entries.

(** [err] is no [*ParseError]. *)
Definition plain_error (err : error) : Prop :=
  match err with ParseError _ _ => False | _ => True end.

(** The errors [parse] returns for a field: the error of a kind it does
    not handle, or a [*ParseError] whose field begins with the field
    given and whose cause is no [*ParseError]. *)
Definition error_of_field (field : string) (err : error) : Prop :=
  match err with
  | ParseError field' cause =>
      (∃ path, field' = field +:+ path) ∧ plain_error cause
  | ErrUnhandled _ => True
  | _ => False
  end.

End json.

(* ===================================================================== *)
(** ** Package [values]: numbers *)
(* ===================================================================== *)

Module values.

(** [type top struct{}], [type datum struct{ top }] and
    [type Number struct { datum; val float64 }]; the float64 is its
    IEEE-754 value, as in [json.Number]. *)
Inductive top : Type := mkTop.

Record datum : Type := mkDatum { datum_top : top }.

Record Number : Type := mkNumber { Number_datum : datum; val : spec_float }.

(** [Number{}], the zero value. *)
Definition zero : Number := mkNumber (mkDatum mkTop) (S754_zero false).

(** [math.Trunc(x)]: the integer part of [x]; the zeros, the infinities
    and NaN are returned as they are. *)
Definition Trunc (x : spec_float) : spec_float :=
  match x with
  | S754_finite s m e =>
      if 0 <=? e then x
      else match Z.shiftr (Z.pos m) (- e) with
           | Z.pos q => S754_finite s q 0
           | _ => S754_zero s
           end
  | _ => x
  end.

(** [x == y] on float64: NaN is equal to nothing, the two zeros are
    equal, and otherwise two numbers are equal when their values are. *)
Definition float64_eq (x y : spec_float) : bool :=
  match x, y with
  | S754_zero _, S754_zero _ => true
  | S754_infinity s1, S754_infinity s2 => Bool.eqb s1 s2
  | S754_finite s1 m1 e1, S754_finite s2 m2 e2 =>
      let e := Z.min e1 e2 in
      Bool.eqb s1 s2 && (Z.pos m1 * 2 ^ (e1 - e) =? Z.pos m2 * 2 ^ (e2 - e))
  | _, _ => false
  end.

(** [func (n Number) IsInteger() bool] *)
Definition IsInteger (n : Number) : bool :=
  float64_eq (val n) (Trunc (val n)).

(** [func (n Number) Int64() int64] *)
Definition Int64 (n : Number) : Z := json.int64_of_float64 (val n).

(** [func (n Number) Float64() float64] *)
Definition Float64 (n : Number) : spec_float := val n.

(** The value [m · 2^e] of a finite float is an integer. *)
Definition integral (m : positive) (e : Z) : Prop :=
  0 ≤ e ∨ (2 ^ (- e) | Z.pos m).

End values.

(* ===================================================================== *)
(** ** Package [ql2] (the protocol constants) *)
(* ===================================================================== *)

Module ql2.

(** [type Term_TermType int32] *)
Definition Term_TermType : Type := Z.

(** Modelled from the spec: the operator codes [ql2.Term_*] come from
    the protocol library the repository imports, which is not part of
    its sources; the specification fixes them as numerically identical
    to the [Term.TermType] enumeration of RethinkDB's ql2 protocol. *)
Definition Term_DATUM : Term_TermType := 1.
Definition Term_MAKE_ARRAY : Term_TermType := 2.
Definition Term_MAKE_OBJ : Term_TermType := 3.
Definition Term_VAR : Term_TermType := 10.
Definition Term_JAVASCRIPT : Term_TermType := 11.
Definition Term_UUID : Term_TermType := 169.
Definition Term_HTTP : Term_TermType := 153.
Definition Term_ERROR : Term_TermType := 12.
Definition Term_IMPLICIT_VAR : Term_TermType := 13.
Definition Term_DB : Term_TermType := 14.
Definition Term_TABLE : Term_TermType := 15.
Definition Term_GET : Term_TermType := 16.
Definition Term_GET_ALL : Term_TermType := 78.
Definition Term_EQ : Term_TermType := 17.
Definition Term_NE : Term_TermType := 18.
Definition Term_LT : Term_TermType := 19.
Definition Term_LE : Term_TermType := 20.
Definition Term_GT : Term_TermType := 21.
Definition Term_GE : Term_TermType := 22.
Definition Term_NOT : Term_TermType := 23.
Definition Term_ADD : Term_TermType := 24.
Definition Term_SUB : Term_TermType := 25.
Definition Term_MUL : Term_TermType := 26.
Definition Term_DIV : Term_TermType := 27.
Definition Term_MOD : Term_TermType := 28.
Definition Term_FLOOR : Term_TermType := 183.
Definition Term_CEIL : Term_TermType := 184.
Definition Term_ROUND : Term_TermType := 185.
Definition Term_APPEND : Term_TermType := 29.
Definition Term_PREPEND : Term_TermType := 80.
Definition Term_DIFFERENCE : Term_TermType := 95.
Definition Term_SET_INSERT : Term_TermType := 88.
Definition Term_SET_INTERSECTION : Term_TermType := 89.
Definition Term_SET_UNION : Term_TermType := 90.
Definition Term_SET_DIFFERENCE : Term_TermType := 91.
Definition Term_SLICE : Term_TermType := 30.
Definition Term_SKIP : Term_TermType := 70.
Definition Term_LIMIT : Term_TermType := 71.
Definition Term_OFFSETS_OF : Term_TermType := 87.
Definition Term_CONTAINS : Term_TermType := 93.
Definition Term_GET_FIELD : Term_TermType := 31.
Definition Term_KEYS : Term_TermType := 94.
Definition Term_VALUES : Term_TermType := 186.
Definition Term_OBJECT : Term_TermType := 143.
Definition Term_HAS_FIELDS : Term_TermType := 32.
Definition Term_WITH_FIELDS : Term_TermType := 96.
Definition Term_PLUCK : Term_TermType := 33.
Definition Term_WITHOUT : Term_TermType := 34.
Definition Term_MERGE : Term_TermType := 35.
Definition Term_BETWEEN_DEPRECATED : Term_TermType := 36.
Definition Term_BETWEEN : Term_TermType := 182.
Definition Term_REDUCE : Term_TermType := 37.
Definition Term_MAP : Term_TermType := 38.
Definition Term_FOLD : Term_TermType := 187.
Definition Term_FILTER : Term_TermType := 39.
Definition Term_CONCAT_MAP : Term_TermType := 40.
Definition Term_ORDER_BY : Term_TermType := 41.
Definition Term_DISTINCT : Term_TermType := 42.
Definition Term_COUNT : Term_TermType := 43.
Definition Term_IS_EMPTY : Term_TermType := 86.
Definition Term_UNION : Term_TermType := 44.
Definition Term_NTH : Term_TermType := 45.
Definition Term_BRACKET : Term_TermType := 170.
Definition Term_INNER_JOIN : Term_TermType := 48.
Definition Term_OUTER_JOIN : Term_TermType := 49.
Definition Term_EQ_JOIN : Term_TermType := 50.
Definition Term_ZIP : Term_TermType := 72.
Definition Term_RANGE : Term_TermType := 173.
Definition Term_INSERT_AT : Term_TermType := 82.
Definition Term_DELETE_AT : Term_TermType := 83.
Definition Term_CHANGE_AT : Term_TermType := 84.
Definition Term_SPLICE_AT : Term_TermType := 85.
Definition Term_COERCE_TO : Term_TermType := 51.
Definition Term_TYPE_OF : Term_TermType := 52.
Definition Term_UPDATE : Term_TermType := 53.
Definition Term_DELETE : Term_TermType := 54.
Definition Term_REPLACE : Term_TermType := 55.
Definition Term_INSERT : Term_TermType := 56.
Definition Term_DB_CREATE : Term_TermType := 57.
Definition Term_DB_DROP : Term_TermType := 58.
Definition Term_DB_LIST : Term_TermType := 59.
Definition Term_TABLE_CREATE : Term_TermType := 60.
Definition Term_TABLE_DROP : Term_TermType := 61.
Definition Term_TABLE_LIST : Term_TermType := 62.
Definition Term_CONFIG : Term_TermType := 174.
Definition Term_STATUS : Term_TermType := 175.
Definition Term_WAIT : Term_TermType := 177.
Definition Term_RECONFIGURE : Term_TermType := 176.
Definition Term_REBALANCE : Term_TermType := 179.
Definition Term_SYNC : Term_TermType := 138.
Definition Term_GRANT : Term_TermType := 188.
Definition Term_INDEX_CREATE : Term_TermType := 75.
Definition Term_INDEX_DROP : Term_TermType := 76.
Definition Term_INDEX_LIST : Term_TermType := 77.
Definition Term_INDEX_STATUS : Term_TermType := 139.
Definition Term_INDEX_WAIT : Term_TermType := 140.
Definition Term_INDEX_RENAME : Term_TermType := 156.
Definition Term_SET_WRITE_HOOK : Term_TermType := 189.
Definition Term_GET_WRITE_HOOK : Term_TermType := 190.
Definition Term_FUNCALL : Term_TermType := 64.
Definition Term_BRANCH : Term_TermType := 65.
Definition Term_OR : Term_TermType := 66.
Definition Term_AND : Term_TermType := 67.
Definition Term_FOR_EACH : Term_TermType := 68.
Definition Term_FUNC : Term_TermType := 69.
Definition Term_ASC : Term_TermType := 73.
Definition Term_DESC : Term_TermType := 74.
Definition Term_INFO : Term_TermType := 79.
Definition Term_MATCH : Term_TermType := 97.
Definition Term_UPCASE : Term_TermType := 141.
Definition Term_DOWNCASE : Term_TermType := 142.
Definition Term_SAMPLE : Term_TermType := 81.
Definition Term_DEFAULT : Term_TermType := 92.
Definition Term_JSON : Term_TermType := 98.
Definition Term_TO_JSON_STRING : Term_TermType := 172.
Definition Term_ISO8601 : Term_TermType := 99.
Definition Term_TO_ISO8601 : Term_TermType := 100.
Definition Term_EPOCH_TIME : Term_TermType := 101.
Definition Term_TO_EPOCH_TIME : Term_TermType := 102.
Definition Term_NOW : Term_TermType := 103.
Definition Term_IN_TIMEZONE : Term_TermType := 104.
Definition Term_DURING : Term_TermType := 105.
Definition Term_DATE : Term_TermType := 106.
Definition Term_TIME_OF_DAY : Term_TermType := 126.
Definition Term_TIMEZONE : Term_TermType := 127.
Definition Term_YEAR : Term_TermType := 128.
Definition Term_MONTH : Term_TermType := 129.
Definition Term_DAY : Term_TermType := 130.
Definition Term_DAY_OF_WEEK : Term_TermType := 131.
Definition Term_DAY_OF_YEAR : Term_TermType := 132.
Definition Term_HOURS : Term_TermType := 133.
Definition Term_MINUTES : Term_TermType := 134.
Definition Term_SECONDS : Term_TermType := 135.
Definition Term_TIME : Term_TermType := 136.
Definition Term_MONDAY : Term_TermType := 107.
Definition Term_TUESDAY : Term_TermType := 108.
Definition Term_WEDNESDAY : Term_TermType := 109.
Definition Term_THURSDAY : Term_TermType := 110.
Definition Term_FRIDAY : Term_TermType := 111.
Definition Term_SATURDAY : Term_TermType := 112.
Definition Term_SUNDAY : Term_TermType := 113.
Definition Term_JANUARY : Term_TermType := 114.
Definition Term_FEBRUARY : Term_TermType := 115.
Definition Term_MARCH : Term_TermType := 116.
Definition Term_APRIL : Term_TermType := 117.
Definition Term_MAY : Term_TermType := 118.
Definition Term_JUNE : Term_TermType := 119.
Definition Term_JULY : Term_TermType := 120.
Definition Term_AUGUST : Term_TermType := 121.
Definition Term_SEPTEMBER : Term_TermType := 122.
Definition Term_OCTOBER : Term_TermType := 123.
Definition Term_NOVEMBER : Term_TermType := 124.
Definition Term_DECEMBER : Term_TermType := 125.
Definition Term_LITERAL : Term_TermType := 137.
Definition Term_GROUP : Term_TermType := 144.
Definition Term_SUM : Term_TermType := 145.
Definition Term_AVG : Term_TermType := 146.
Definition Term_MIN : Term_TermType := 147.
Definition Term_MAX : Term_TermType := 148.
Definition Term_SPLIT : Term_TermType := 149.
Definition Term_UNGROUP : Term_TermType := 150.
Definition Term_RANDOM : Term_TermType := 151.
Definition Term_CHANGES : Term_TermType := 152.
Definition Term_ARGS : Term_TermType := 154.
Definition Term_BINARY : Term_TermType := 155.
Definition Term_GEOJSON : Term_TermType := 157.
Definition Term_TO_GEOJSON : Term_TermType := 158.
Definition Term_POINT : Term_TermType := 159.
Definition Term_LINE : Term_TermType := 160.
Definition Term_POLYGON : Term_TermType := 161.
Definition Term_DISTANCE : Term_TermType := 162.
Definition Term_INTERSECTS : Term_TermType := 163.
Definition Term_INCLUDES : Term_TermType := 164.
Definition Term_CIRCLE : Term_TermType := 165.
Definition Term_GET_INTERSECTING : Term_TermType := 166.
Definition Term_FILL : Term_TermType := 167.
Definition Term_GET_NEAREST : Term_TermType := 168.
Definition Term_POLYGON_SUB : Term_TermType := 171.
Definition Term_MINVAL : Term_TermType := 180.
Definition Term_MAXVAL : Term_TermType := 181.
Definition Term_BIT_AND : Term_TermType := 191.
Definition Term_BIT_OR : Term_TermType := 192.
Definition Term_BIT_XOR : Term_TermType := 193.
Definition Term_BIT_NOT : Term_TermType := 194.
Definition Term_BIT_SAL : Term_TermType := 195.
Definition Term_BIT_SAR : Term_TermType := 196.

(** Modelled from the spec: [ql2.Term_TermType_name], the table of the
    operators' names in the same library. *)
Definition Term_TermType_name_entries : list (Term_TermType * string) :=
  [
    (Term_DATUM, "DATUM"); (Term_MAKE_ARRAY, "MAKE_ARRAY");
    (Term_MAKE_OBJ, "MAKE_OBJ"); (Term_VAR, "VAR");
    (Term_JAVASCRIPT, "JAVASCRIPT"); (Term_UUID, "UUID");
    (Term_HTTP, "HTTP"); (Term_ERROR, "ERROR");
    (Term_IMPLICIT_VAR, "IMPLICIT_VAR"); (Term_DB, "DB");
    (Term_TABLE, "TABLE"); (Term_GET, "GET"); (Term_GET_ALL, "GET_ALL");
    (Term_EQ, "EQ"); (Term_NE, "NE"); (Term_LT, "LT"); (Term_LE, "LE");
    (Term_GT, "GT"); (Term_GE, "GE"); (Term_NOT, "NOT");
    (Term_ADD, "ADD"); (Term_SUB, "SUB"); (Term_MUL, "MUL");
    (Term_DIV, "DIV"); (Term_MOD, "MOD"); (Term_FLOOR, "FLOOR");
    (Term_CEIL, "CEIL"); (Term_ROUND, "ROUND"); (Term_APPEND, "APPEND");
    (Term_PREPEND, "PREPEND"); (Term_DIFFERENCE, "DIFFERENCE");
    (Term_SET_INSERT, "SET_INSERT");
    (Term_SET_INTERSECTION, "SET_INTERSECTION");
    (Term_SET_UNION, "SET_UNION");
    (Term_SET_DIFFERENCE, "SET_DIFFERENCE"); (Term_SLICE, "SLICE");
    (Term_SKIP, "SKIP"); (Term_LIMIT, "LIMIT");
    (Term_OFFSETS_OF, "OFFSETS_OF"); (Term_CONTAINS, "CONTAINS");
    (Term_GET_FIELD, "GET_FIELD"); (Term_KEYS, "KEYS");
    (Term_VALUES, "VALUES"); (Term_OBJECT, "OBJECT");
    (Term_HAS_FIELDS, "HAS_FIELDS"); (Term_WITH_FIELDS, "WITH_FIELDS");
    (Term_PLUCK, "PLUCK"); (Term_WITHOUT, "WITHOUT");
    (Term_MERGE, "MERGE");
    (Term_BETWEEN_DEPRECATED, "BETWEEN_DEPRECATED");
    (Term_BETWEEN, "BETWEEN"); (Term_REDUCE, "REDUCE"); (Term_MAP, "MAP");
    (Term_FOLD, "FOLD"); (Term_FILTER, "FILTER");
    (Term_CONCAT_MAP, "CONCAT_MAP"); (Term_ORDER_BY, "ORDER_BY");
    (Term_DISTINCT, "DISTINCT"); (Term_COUNT, "COUNT");
    (Term_IS_EMPTY, "IS_EMPTY"); (Term_UNION, "UNION"); (Term_NTH, "NTH");
    (Term_BRACKET, "BRACKET"); (Term_INNER_JOIN, "INNER_JOIN");
    (Term_OUTER_JOIN, "OUTER_JOIN"); (Term_EQ_JOIN, "EQ_JOIN");
    (Term_ZIP, "ZIP"); (Term_RANGE, "RANGE");
    (Term_INSERT_AT, "INSERT_AT"); (Term_DELETE_AT, "DELETE_AT");
    (Term_CHANGE_AT, "CHANGE_AT"); (Term_SPLICE_AT, "SPLICE_AT");
    (Term_COERCE_TO, "COERCE_TO"); (Term_TYPE_OF, "TYPE_OF");
    (Term_UPDATE, "UPDATE"); (Term_DELETE, "DELETE");
    (Term_REPLACE, "REPLACE"); (Term_INSERT, "INSERT");
    (Term_DB_CREATE, "DB_CREATE"); (Term_DB_DROP, "DB_DROP");
    (Term_DB_LIST, "DB_LIST"); (Term_TABLE_CREATE, "TABLE_CREATE");
    (Term_TABLE_DROP, "TABLE_DROP"); (Term_TABLE_LIST, "TABLE_LIST");
    (Term_CONFIG, "CONFIG"); (Term_STATUS, "STATUS"); (Term_WAIT, "WAIT");
    (Term_RECONFIGURE, "RECONFIGURE"); (Term_REBALANCE, "REBALANCE");
    (Term_SYNC, "SYNC"); (Term_GRANT, "GRANT");
    (Term_INDEX_CREATE, "INDEX_CREATE"); (Term_INDEX_DROP, "INDEX_DROP");
    (Term_INDEX_LIST, "INDEX_LIST"); (Term_INDEX_STATUS, "INDEX_STATUS");
    (Term_INDEX_WAIT, "INDEX_WAIT"); (Term_INDEX_RENAME, "INDEX_RENAME");
    (Term_SET_WRITE_HOOK, "SET_WRITE_HOOK");
    (Term_GET_WRITE_HOOK, "GET_WRITE_HOOK"); (Term_FUNCALL, "FUNCALL");
    (Term_BRANCH, "BRANCH"); (Term_OR, "OR"); (Term_AND, "AND");
    (Term_FOR_EACH, "FOR_EACH"); (Term_FUNC, "FUNC"); (Term_ASC, "ASC");
    (Term_DESC, "DESC"); (Term_INFO, "INFO"); (Term_MATCH, "MATCH");
    (Term_UPCASE, "UPCASE"); (Term_DOWNCASE, "DOWNCASE");
    (Term_SAMPLE, "SAMPLE"); (Term_DEFAULT, "DEFAULT");
    (Term_JSON, "JSON"); (Term_TO_JSON_STRING, "TO_JSON_STRING");
    (Term_ISO8601, "ISO8601"); (Term_TO_ISO8601, "TO_ISO8601");
    (Term_EPOCH_TIME, "EPOCH_TIME");
    (Term_TO_EPOCH_TIME, "TO_EPOCH_TIME"); (Term_NOW, "NOW");
    (Term_IN_TIMEZONE, "IN_TIMEZONE"); (Term_DURING, "DURING");
    (Term_DATE, "DATE"); (Term_TIME_OF_DAY, "TIME_OF_DAY");
    (Term_TIMEZONE, "TIMEZONE"); (Term_YEAR, "YEAR");
    (Term_MONTH, "MONTH"); (Term_DAY, "DAY");
    (Term_DAY_OF_WEEK, "DAY_OF_WEEK"); (Term_DAY_OF_YEAR, "DAY_OF_YEAR");
    (Term_HOURS, "HOURS"); (Term_MINUTES, "MINUTES");
    (Term_SECONDS, "SECONDS"); (Term_TIME, "TIME");
    (Term_MONDAY, "MONDAY"); (Term_TUESDAY, "TUESDAY");
    (Term_WEDNESDAY, "WEDNESDAY"); (Term_THURSDAY, "THURSDAY");
    (Term_FRIDAY, "FRIDAY"); (Term_SATURDAY, "SATURDAY");
    (Term_SUNDAY, "SUNDAY"); (Term_JANUARY, "JANUARY");
    (Term_FEBRUARY, "FEBRUARY"); (Term_MARCH, "MARCH");
    (Term_APRIL, "APRIL"); (Term_MAY, "MAY"); (Term_JUNE, "JUNE");
    (Term_JULY, "JULY"); (Term_AUGUST, "AUGUST");
    (Term_SEPTEMBER, "SEPTEMBER"); (Term_OCTOBER, "OCTOBER");
    (Term_NOVEMBER, "NOVEMBER"); (Term_DECEMBER, "DECEMBER");
    (Term_LITERAL, "LITERAL"); (Term_GROUP, "GROUP"); (Term_SUM, "SUM");
    (Term_AVG, "AVG"); (Term_MIN, "MIN"); (Term_MAX, "MAX");
    (Term_SPLIT, "SPLIT"); (Term_UNGROUP, "UNGROUP");
    (Term_RANDOM, "RANDOM"); (Term_CHANGES, "CHANGES");
    (Term_ARGS, "ARGS"); (Term_BINARY, "BINARY");
    (Term_GEOJSON, "GEOJSON"); (Term_TO_GEOJSON, "TO_GEOJSON");
    (Term_POINT, "POINT"); (Term_LINE, "LINE"); (Term_POLYGON, "POLYGON");
    (Term_DISTANCE, "DISTANCE"); (Term_INTERSECTS, "INTERSECTS");
    (Term_INCLUDES, "INCLUDES"); (Term_CIRCLE, "CIRCLE");
    (Term_GET_INTERSECTING, "GET_INTERSECTING"); (Term_FILL, "FILL");
    (Term_GET_NEAREST, "GET_NEAREST"); (Term_POLYGON_SUB, "POLYGON_SUB");
    (Term_MINVAL, "MINVAL"); (Term_MAXVAL, "MAXVAL");
    (Term_BIT_AND, "BIT_AND"); (Term_BIT_OR, "BIT_OR");
    (Term_BIT_XOR, "BIT_XOR"); (Term_BIT_NOT, "BIT_NOT");
    (Term_BIT_SAL, "BIT_SAL"); (Term_BIT_SAR, "BIT_SAR")
  ].

Definition Term_TermType_name : gmap Term_TermType string :=
  list_to_map Term_TermType_name_entries.

(** [type Query_QueryType int32], and its constants. *)
Definition Query_QueryType : Type := Z.
Definition Query_START : Query_QueryType := 1.
Definition Query_CONTINUE : Query_QueryType := 2.
Definition Query_STOP : Query_QueryType := 3.
Definition Query_NOREPLY_WAIT : Query_QueryType := 4.
Definition Query_SERVER_INFO : Query_QueryType := 5.

Definition Query_QueryType_name : gmap Query_QueryType string :=
  list_to_map
    [ (Query_START, "START"); (Query_CONTINUE, "CONTINUE");
      (Query_STOP, "STOP"); (Query_NOREPLY_WAIT, "NOREPLY_WAIT");
      (Query_SERVER_INFO, "SERVER_INFO") ].

(** The conversion of an int64 to the 32-bit enumeration types keeps
    the low 32 bits, read as a signed number. *)
Definition int32_of_int64 (z : Z) : Z :=
  (z + 2 ^ 31) mod 2 ^ 32 - 2 ^ 31.

End ql2.

(* ===================================================================== *)
(** ** Package [query] *)
(* ===================================================================== *)

Module query.

(** [type Term struct].  [Args] and [OptArgs] are [None] for the nil
    slice and the nil map; [Datum] is [None] for the nil interface
    ("This is nil unless Type is DATUM"). *)
Inductive Term : Type :=
  mkTerm {
    Type_ : ql2.Term_TermType;
    Args : option (list Term);
    OptArgs : option (gmap string Term);
    Datum : option json.Value
  }.

(** [len(t.Args)] and the entries of [t.OptArgs]: a nil slice has length
    0 and a nil map has no entries. *)
Definition args_of (t : Term) : list Term := default [] (Args t).
Definition optArgs_of (t : Term) : gmap string Term :=
  default ∅ (OptArgs t).

(** The errors [MakeTermTree] builds with [fmt.Errorf], one constructor
    per call site, holding the arguments of the format. *)
Inductive error : Type :=
| ErrEntries (n : nat)
    (* "expected 1 to 3 entries in term array, but got %d" *)
| ErrTermType (vt : json.ValueType)
    (* "expected term type to be number, but got %s" *)
| ErrArgsType (vt : json.ValueType)
    (* "expected term args to by type array, but got %s" *)
| ErrOptArgsType (vt : json.ValueType)
    (* "expected term args to by type object, but got %s" *)
| ErrArg (termType : ql2.Term_TermType) (i : nat) (err : error)
    (* "%s arg[%d] -> %s" *)
| ErrOptArg (termType : ql2.Term_TermType) (key : string) (err : error)
    (* "%s optArg[%q] -> %s" *)
| ErrObj (key : string) (err : error).
    (* "obj[%q] -> %s" *)

(** The text of an error, as [fmt.Errorf] formats it. *)
Section ErrorText.

(** [%q] on a string is [strconv.Quote], from the Go library. *)
Variable strconv_Quote : string → string.

(** [%s] on a [jsonparser.ValueType]. *)
Definition ValueType_String (vt : json.ValueType) : string :=
  match vt with
  | json.VT_String => "string"
  | json.VT_Number => "number"
  | json.VT_Object => "object"
  | json.VT_Array => "array"
  | json.VT_Boolean => "boolean"
  | json.VT_Null => "null"
  end.

(** [ql2.Term_TermType_name[int32(termType)]]: a code that is not in
    the table reads as the empty string. *)
Definition termName (termType : ql2.Term_TermType) : string :=
  default "" (ql2.Term_TermType_name !! termType).

Fixpoint Error (e : error) : string :=
  match e with
  | ErrEntries n =>
      "expected 1 to 3 entries in term array, but got " +:+ pretty n
  | ErrTermType vt =>
      "expected term type to be number, but got " +:+ ValueType_String vt
  | ErrArgsType vt =>
      "expected term args to by type array, but got "
      +:+ ValueType_String vt
  | ErrOptArgsType vt =>
      "expected term args to by type object, but got "
      +:+ ValueType_String vt
  | ErrArg termType i err =>
      termName termType +:+ " arg[" +:+ pretty i +:+ "] -> " +:+ Error err
  | ErrOptArg termType key err =>
      termName termType +:+ " optArg[" +:+ strconv_Quote key
      +:+ "] -> " +:+ Error err
  | ErrObj key err =>
      "obj[" +:+ strconv_Quote key +:+ "] -> " +:+ Error err
  end.

End ErrorText.

Section MakeTermTree.

(** Go does not fix the order in which [range] visits a map.  [range m]
    is the order of one run over [m]: some listing of its entries. *)
Variable range :
  gmap string (result error Term) → list (string * result error Term).

(** The loop over [argVals]:
    [termArgs[i], err = MakeTermTree(argVal)], leaving at the first
    error with the index of the argument. *)
Definition argsLoop (MakeTermTree : json.Value → result error Term)
    (termType : ql2.Term_TermType) :
    nat → list json.Value → result error (list Term) :=
  fix loop (i : nat) (argVals : list json.Value) :=
    match argVals with
    | [] => Ok []
    | argVal :: rest =>
        match MakeTermTree argVal with
        | Err err => Err (ErrArg termType i err)
        | Ok t =>
            match loop (S i) rest with
            | Err e => Err e
            | Ok ts => Ok (t :: ts)
            end
        end
    end.

(** The loop over the entries of an object, in the order of [range]:
    [termOptArgs[key], err = MakeTermTree(val)], leaving at the first
    error with the key of the entry.  [MakeTermTree] has no effect, so
    the loop is run over the entries already translated; [context]
    is the [fmt.Errorf] of the loop at hand. *)
Fixpoint optArgsLoop (context : string → error → error)
    (entries : list (string * result error Term))
    (termOptArgs : gmap string Term) : result error (gmap string Term) :=
  match entries with
  | [] => Ok termOptArgs
  | (key, r) :: rest =>
      match r with
      | Err err => Err (context key err)
      | Ok t => optArgsLoop context rest (<[key := t]> termOptArgs)
      end
  end.

(** The body of [makeObjectTerm], over the translated entries. *)
Definition makeObjectTerm_body
    (translated : gmap string (result error Term)) : result error Term :=
  match optArgsLoop ErrObj (range translated) ∅ with
  | Err e => Err e
  | Ok termOptArgs =>
      Ok {| Type_ := ql2.Term_MAKE_OBJ; Args := None;
            OptArgs := Some termOptArgs; Datum := None |}
  end.

(** [func MakeTermTree(value json.Value) ( *Term, error)] *)
Fixpoint MakeTermTree (value : json.Value) : result error Term :=
  match value with
  | json.Object object =>
      (* An object must be recursively evaluated as a MAKE_OBJECT term. *)
      makeObjectTerm_body (MakeTermTree <$> object)
  | json.Array termArray =>
      match termArray with
      | [] => Err (ErrEntries (length termArray))
      | _ :: _ :: _ :: _ :: _ => Err (ErrEntries (length termArray))
      | termArray0 :: rest =>
          if negb (json.IsNumber termArray0)
          then Err (ErrTermType (json.ValueType_of termArray0))
          else
            let termType :=
              ql2.int32_of_int64 (json.AsInt64 termArray0) in
            (* if len(termArray) > 1 *)
            let termArgs : result error (option (list Term)) :=
              match rest with
              | [] => Ok None
              | json.Array argVals :: _ =>
                  match argsLoop MakeTermTree termType 0 argVals with
                  | Err e => Err e
                  | Ok ts => Ok (Some ts)
                  end
              | termArray1 :: _ =>
                  Err (ErrArgsType (json.ValueType_of termArray1))
              end in
            match termArgs with
            | Err e => Err e
            | Ok termArgs =>
                (* if len(termArray) > 2 *)
                let termOptArgs
                  : result error (option (gmap string Term)) :=
                  match rest with
                  | _ :: json.Object optArgVals :: _ =>
                      match optArgsLoop (ErrOptArg termType)
                              (range (MakeTermTree <$> optArgVals)) ∅ with
                      | Err e => Err e
                      | Ok m => Ok (Some m)
                      end
                  | _ :: termArray2 :: _ =>
                      Err (ErrOptArgsType (json.ValueType_of termArray2))
                  | _ => Ok None
                  end in
                match termOptArgs with
                | Err e => Err e
                | Ok termOptArgs =>
                    Ok {| Type_ := termType; Args := termArgs;
                          OptArgs := termOptArgs; Datum := None |}
                end
            end
      end
  | _ =>
      (* Any other type is just a datum. *)
      Ok {| Type_ := ql2.Term_DATUM; Args := None; OptArgs := None;
            Datum := Some value |}
  end.

(** [func makeObjectTerm(object json.Object) ( *Term, error)] *)
Definition makeObjectTerm (object : gmap string json.Value)
  : result error Term :=
  makeObjectTerm_body (MakeTermTree <$> object).

End MakeTermTree.

(** [func (t *Term) IsDatum() bool] *)
Definition IsDatum (t : Term) : bool := Type_ t =? ql2.Term_DATUM.

(** [func valueType(val json.Value) types.TypeFlag].  The final
    [return 0] of the source is not reached: the six cases cover the
    six implementations of [json.Value]. *)
Definition valueType (val : json.Value) : types.TypeFlag :=
  if json.IsNull val then types.Null
  else if json.IsBool val then types.Bool
  else if json.IsNumber val then types.Number
  else if json.IsString val then types.String
  else if json.IsObject val then types.Object
  else if json.IsArray val then types.Array
  else 0.

(** The entries of the map literal [returnTypeMap], in source order. *)
Definition returnTypeMap_entries
  : list (ql2.Term_TermType * types.TypeFlag) :=
  [
    (ql2.Term_MAKE_ARRAY, types.Array); (ql2.Term_MAKE_OBJ, types.Object);
    (ql2.Term_VAR, types.Datum); (ql2.Term_JAVASCRIPT, 0);
    (ql2.Term_UUID, types.String); (ql2.Term_HTTP, 0);
    (ql2.Term_ERROR, 0); (ql2.Term_IMPLICIT_VAR, types.Datum);
    (ql2.Term_DB, types.Database); (ql2.Term_TABLE, types.Table);
    (ql2.Term_GET, types.Selection);
    (ql2.Term_GET_ALL, types.SelectionStream); (ql2.Term_EQ, types.Bool);
    (ql2.Term_NE, types.Bool); (ql2.Term_LT, types.Bool);
    (ql2.Term_LE, types.Bool); (ql2.Term_GT, types.Bool);
    (ql2.Term_GE, types.Bool); (ql2.Term_NOT, types.Bool);
    (ql2.Term_ADD, Z.lor (Z.lor types.Number types.String) types.Time);
    (ql2.Term_SUB, Z.lor types.Number types.Time);
    (ql2.Term_MUL, Z.lor types.Number types.Array);
    (ql2.Term_DIV, types.Number); (ql2.Term_MOD, types.Number);
    (ql2.Term_FLOOR, types.Number); (ql2.Term_CEIL, types.Number);
    (ql2.Term_ROUND, types.Number); (ql2.Term_APPEND, types.Array);
    (ql2.Term_PREPEND, types.Array); (ql2.Term_DIFFERENCE, types.Array);
    (ql2.Term_SET_INSERT, types.Array);
    (ql2.Term_SET_INTERSECTION, types.Array);
    (ql2.Term_SET_UNION, types.Array);
    (ql2.Term_SET_DIFFERENCE, types.Array);
    (ql2.Term_SLICE,
     Z.lor (Z.lor (Z.lor (Z.lor types.String types.Binary) types.Array)
              types.Stream)
       types.SelectionStream);
    (ql2.Term_SKIP, Z.lor types.Stream types.Array);
    (ql2.Term_LIMIT, Z.lor types.Stream types.Array);
    (ql2.Term_OFFSETS_OF, types.Array); (ql2.Term_CONTAINS, types.Bool);
    (ql2.Term_GET_FIELD, 0); (ql2.Term_KEYS, 0); (ql2.Term_VALUES, 0);
    (ql2.Term_OBJECT, 0); (ql2.Term_HAS_FIELDS, 0);
    (ql2.Term_WITH_FIELDS, 0); (ql2.Term_PLUCK, 0); (ql2.Term_WITHOUT, 0);
    (ql2.Term_MERGE, 0); (ql2.Term_BETWEEN, 0); (ql2.Term_REDUCE, 0);
    (ql2.Term_MAP, 0); (ql2.Term_FOLD, 0); (ql2.Term_FILTER, 0);
    (ql2.Term_CONCAT_MAP, 0); (ql2.Term_ORDER_BY, 0);
    (ql2.Term_DISTINCT, 0); (ql2.Term_COUNT, 0); (ql2.Term_IS_EMPTY, 0);
    (ql2.Term_UNION, 0); (ql2.Term_NTH, 0); (ql2.Term_BRACKET, 0);
    (ql2.Term_INNER_JOIN, 0); (ql2.Term_OUTER_JOIN, 0);
    (ql2.Term_EQ_JOIN, 0); (ql2.Term_ZIP, 0); (ql2.Term_RANGE, 0);
    (ql2.Term_INSERT_AT, 0); (ql2.Term_DELETE_AT, 0);
    (ql2.Term_CHANGE_AT, 0); (ql2.Term_SPLICE_AT, 0);
    (ql2.Term_COERCE_TO, 0); (ql2.Term_TYPE_OF, 0); (ql2.Term_UPDATE, 0);
    (ql2.Term_DELETE, 0); (ql2.Term_REPLACE, 0); (ql2.Term_INSERT, 0);
    (ql2.Term_DB_CREATE, 0); (ql2.Term_DB_DROP, 0); (ql2.Term_DB_LIST, 0);
    (ql2.Term_TABLE_CREATE, 0); (ql2.Term_TABLE_DROP, 0);
    (ql2.Term_TABLE_LIST, 0); (ql2.Term_CONFIG, 0); (ql2.Term_STATUS, 0);
    (ql2.Term_WAIT, 0); (ql2.Term_RECONFIGURE, 0);
    (ql2.Term_REBALANCE, 0); (ql2.Term_SYNC, 0); (ql2.Term_GRANT, 0);
    (ql2.Term_INDEX_CREATE, 0); (ql2.Term_INDEX_DROP, 0);
    (ql2.Term_INDEX_STATUS, 0); (ql2.Term_INDEX_WAIT, 0);
    (ql2.Term_INDEX_RENAME, 0); (ql2.Term_SET_WRITE_HOOK, 0);
    (ql2.Term_GET_WRITE_HOOK, 0); (ql2.Term_FUNCALL, 0);
    (ql2.Term_BRANCH, 0); (ql2.Term_OR, 0); (ql2.Term_AND, 0);
    (ql2.Term_FOR_EACH, 0); (ql2.Term_FUNC, 0); (ql2.Term_ASC, 0);
    (ql2.Term_DESC, 0); (ql2.Term_INFO, 0); (ql2.Term_MATCH, 0);
    (ql2.Term_UPCASE, 0); (ql2.Term_DOWNCASE, 0); (ql2.Term_SAMPLE, 0);
    (ql2.Term_DEFAULT, 0); (ql2.Term_JSON, 0); (ql2.Term_ISO8601, 0);
    (ql2.Term_TO_ISO8601, 0); (ql2.Term_EPOCH_TIME, 0);
    (ql2.Term_TO_EPOCH_TIME, 0); (ql2.Term_NOW, 0);
    (ql2.Term_IN_TIMEZONE, 0); (ql2.Term_DURING, 0); (ql2.Term_DATE, 0);
    (ql2.Term_TIME_OF_DAY, 0); (ql2.Term_TIMEZONE, 0); (ql2.Term_YEAR, 0);
    (ql2.Term_MONTH, 0); (ql2.Term_DAY, 0); (ql2.Term_DAY_OF_WEEK, 0);
    (ql2.Term_DAY_OF_YEAR, 0); (ql2.Term_HOURS, 0); (ql2.Term_MINUTES, 0);
    (ql2.Term_SECONDS, 0); (ql2.Term_TIME, 0); (ql2.Term_MONDAY, 0);
    (ql2.Term_TUESDAY, 0); (ql2.Term_WEDNESDAY, 0);
    (ql2.Term_THURSDAY, 0); (ql2.Term_FRIDAY, 0); (ql2.Term_SATURDAY, 0);
    (ql2.Term_SUNDAY, 0); (ql2.Term_JANUARY, 0); (ql2.Term_FEBRUARY, 0);
    (ql2.Term_MARCH, 0); (ql2.Term_APRIL, 0); (ql2.Term_MAY, 0);
    (ql2.Term_JUNE, 0); (ql2.Term_JULY, 0); (ql2.Term_AUGUST, 0);
    (ql2.Term_SEPTEMBER, 0); (ql2.Term_OCTOBER, 0);
    (ql2.Term_NOVEMBER, 0); (ql2.Term_DECEMBER, 0); (ql2.Term_LITERAL, 0);
    (ql2.Term_GROUP, 0); (ql2.Term_SUM, 0); (ql2.Term_AVG, 0);
    (ql2.Term_MIN, 0); (ql2.Term_MAX, 0); (ql2.Term_SPLIT, 0);
    (ql2.Term_UNGROUP, 0); (ql2.Term_RANDOM, 0); (ql2.Term_CHANGES, 0);
    (ql2.Term_ARGS, 0); (ql2.Term_BINARY, 0); (ql2.Term_GEOJSON, 0);
    (ql2.Term_TO_GEOJSON, 0); (ql2.Term_POINT, 0); (ql2.Term_LINE, 0);
    (ql2.Term_POLYGON, 0); (ql2.Term_DISTANCE, 0);
    (ql2.Term_INTERSECTS, 0); (ql2.Term_INCLUDES, 0);
    (ql2.Term_CIRCLE, 0); (ql2.Term_GET_INTERSECTING, 0);
    (ql2.Term_FILL, 0); (ql2.Term_GET_NEAREST, 0);
    (ql2.Term_POLYGON_SUB, 0); (ql2.Term_TO_JSON_STRING, 0);
    (ql2.Term_MINVAL, 0); (ql2.Term_MAXVAL, 0); (ql2.Term_BIT_AND, 0);
    (ql2.Term_BIT_OR, 0); (ql2.Term_BIT_XOR, 0); (ql2.Term_BIT_NOT, 0);
    (ql2.Term_BIT_SAL, 0); (ql2.Term_BIT_SAR, 0)
  ].

(** [var returnTypeMap = map[ql2.Term_TermType]types.TypeFlag{...}] *)
Definition returnTypeMap : gmap ql2.Term_TermType types.TypeFlag :=
  list_to_map returnTypeMap_entries.

(** [func (t *Term) returnType() types.TypeFlag].  On a DATUM term
    whose [Datum] is nil, [valueType] calls a method on the nil
    interface, which panics.  A key that is not in [returnTypeMap] reads
    as 0. *)
Definition returnType (t : Term) : exec types.TypeFlag :=
  if IsDatum t then
    match Datum t with
    | Some val => Returns (valueType val)
    | None => Panics nil_dereference
    end
  else Returns (default 0 (returnTypeMap !! Type_ t)).

(** *** The invariant of the data model *)

(** One node: a DATUM node has no positional arguments, no named
    options and an embedded value; any other node has no embedded
    value; a MAKE_OBJ node has no positional arguments. *)
Definition node_invariant (t : Term) : Prop :=
  (Type_ t = ql2.Term_DATUM →
     args_of t = [] ∧ optArgs_of t = ∅ ∧ is_Some (Datum t))
  ∧ (Type_ t ≠ ql2.Term_DATUM → Datum t = None)
  ∧ (Type_ t = ql2.Term_MAKE_OBJ → args_of t = []).

(** The part of it that every constructed node has: an embedded value
    is only found on a DATUM node without arguments and options. *)
Definition node_embedding (t : Term) : Prop :=
  (Type_ t ≠ ql2.Term_DATUM → Datum t = None)
  ∧ (is_Some (Datum t) →
       Type_ t = ql2.Term_DATUM ∧ args_of t = [] ∧ optArgs_of t = ∅).

(** [P] holds at every node of a term tree. *)
Inductive Forall_nodes (P : Term → Prop) : Term → Prop :=
| Forall_nodes_intro (t : Term) :
    P t →
    Forall (Forall_nodes P) (args_of t) →
    map_Forall (λ _, Forall_nodes P) (optArgs_of t) →
    Forall_nodes P t.

(** The operator code a term array takes from its element 0. *)
Definition termType_of (termArray0 : json.Value) : ql2.Term_TermType :=
  ql2.int32_of_int64 (json.AsInt64 termArray0).

(** No term array of the value, at any depth [MakeTermTree] descends
    to, carries the code of DATUM or of MAKE_OBJ in its element 0. *)
Inductive operators_plain : json.Value → Prop :=
| plain_Null : operators_plain json.Null
| plain_Bool b : operators_plain (json.Bool b)
| plain_Number n : operators_plain (json.Number n)
| plain_String s : operators_plain (json.String s)
| plain_Object o :
    map_Forall (λ _, operators_plain) o → operators_plain (json.Object o)
| plain_Array termArray :
    (∀ termArray0, termArray !! 0%nat = Some termArray0 →
       termType_of termArray0 ≠ ql2.Term_DATUM
       ∧ termType_of termArray0 ≠ ql2.Term_MAKE_OBJ) →
    (∀ argVals, termArray !! 1%nat = Some (json.Array argVals) →
       Forall operators_plain argVals) →
    (∀ optArgVals, termArray !! 2%nat = Some (json.Object optArgVals) →
       map_Forall (λ _, operators_plain) optArgVals) →
    operators_plain (json.Array termArray).

(** The type of a JSON value in the words of the specification:
    null→Null, bool→Bool, number→Number, string→String, object→Object,
    array→Array. *)
Definition spec_value_type (val : json.Value) : types.TypeFlag :=
  match val with
  | json.Null => types.Null
  | json.Bool _ => types.Bool
  | json.Number _ => types.Number
  | json.String _ => types.String
  | json.Object _ => types.Object
  | json.Array _ => types.Array
  end.

(** *** Concrete instances, for running the model *)

(** One admissible iteration order: the listing of the map library. *)
Definition range_listed
    (m : gmap string (result error Term))
  : list (string * result error Term) := map_to_list m.

(** [strconv.Quote] on a string of printable ASCII characters other
    than the double quote and the backslash: the string between double
    quotes. *)
Definition Quote_plain (s : string) : string :=
  String (Ascii.ascii_of_nat 34) (s +:+ String (Ascii.ascii_of_nat 34) "").

(** The term array [[15,[[14,["db"]],"users"]]] of the table-lookup
    scenario, as the JSON parser delivers it. *)
Definition table_lookup : json.Value :=
  json.Array
    [ json.number_of_Z 15;
      json.Array
        [ json.Array [ json.number_of_Z 14;
                       json.Array [ json.String "db" ] ];
          json.String "users" ] ].

(** The DATUM term [MakeTermTree] builds for a value that is neither an
    array nor an object. *)
Definition datumTerm (value : json.Value) : Term :=
  {| Type_ := ql2.Term_DATUM; Args := None; OptArgs := None;
     Datum := Some value |}.

(** *** Printing a term *)

(** Two pieces written to the [strings.Builder] one after the other; a
    panic while the first is produced leaves the second unwritten. *)
Definition exec_app (x y : exec string) : exec string :=
  match x with
  | Panics p => Panics p
  | Returns s =>
      match y with
      | Panics p => Panics p
      | Returns s' => Returns (s +:+ s')
      end
  end.

(** [strings.Repeat(s, count)] for a count that is not negative. *)
Fixpoint Repeat (s : string) (count : nat) : string :=
  match count with
  | O => EmptyString
  | S count' => s +:+ Repeat s count'
  end.

Definition newline : string := String (Ascii.ascii_of_nat 10) "".

Section Format.

(** The order in which [range] visits [t.OptArgs], given on the map of
    what its entries print. *)
Variable range : gmap string (exec string) → list (string * exec string).

(** [%q] on a string is [strconv.Quote]; [%v] on a [json.Value] that is
    neither null nor a string is left to [fmt]. *)
Variable strconv_Quote : string → string.
Variable fmt_v : json.Value → string.

(** The body of [formatArgs] below the test [t.Args == nil], over what
    the arguments print at the level they are given. *)
Definition formatArgs_body (args : list (exec string)) (i : nat)
  : exec string :=
  let indent := Repeat " " (2 * i) in
  let multiArg := (1 <? length args)%nat in
  exec_app (Returns " [")
    (exec_app
       (foldr
          (λ arg rest,
             exec_app
               (Returns (if multiArg then newline +:+ indent +:+ "  "
                         else ""))
               (exec_app arg rest))
          (Returns "") args)
       (Returns ((if multiArg then newline +:+ indent else "") +:+ "]"))).

(** The body of [formatOptArgs] below the test [t.OptArgs == nil]. *)
Definition formatOptArgs_body (optArgs : gmap string (exec string))
    (i : nat) : exec string :=
  let indent := Repeat " " (2 * i) in
  let multiArg := (1 <? size optArgs)%nat in
  exec_app (Returns " {")
    (exec_app
       (foldr
          (λ '(key, arg) rest,
             exec_app
               (Returns ((if multiArg then newline +:+ indent +:+ "  "
                          else "") +:+ strconv_Quote key +:+ ": "))
               (exec_app arg rest))
          (Returns "") (range optArgs))
       (Returns ((if multiArg then newline +:+ indent else "") +:+ "}"))).

(** [func (t *Term) format(b *strings.Builder, i int)]: what the call
    appends to the builder.  On a DATUM term whose [Datum] is nil,
    [t.Datum.IsNull()] is a call on the nil interface, which panics.
    [i] starts at 0 and is only ever incremented. *)
Fixpoint format (t : Term) (i : nat) {struct t} : exec string :=
  if IsDatum t then
    match Datum t with
    | None => Panics nil_dereference
    | Some d =>
        if json.IsNull d then Returns "null"
        else if json.IsString d
        then Returns (strconv_Quote (json.AsString d))
        else Returns (fmt_v d)
    end
  else
    (* Start with term name. *)
    exec_app (Returns ("(" +:+ termName (Type_ t)))
      (exec_app
         match Args t with
         | None => Returns ""
         | Some args =>
             let i' := if (1 <? length args)%nat then S i else i in
             formatArgs_body (map (λ arg, format arg i') args) i
         end
         (exec_app
            match OptArgs t with
            | None => Returns ""
            | Some optArgs =>
                let i' := if (1 <? size optArgs)%nat then S i else i in
                formatOptArgs_body ((λ arg, format arg i') <$> optArgs) i
            end
            (Returns ")"))).

(** [func (t *Term) formatArgs(b *strings.Builder, i int)] *)
Definition formatArgs (t : Term) (i : nat) : exec string :=
  match Args t with
  | None => Returns ""
  | Some args =>
      let i' := if (1 <? length args)%nat then S i else i in
      formatArgs_body (map (λ arg, format arg i') args) i
  end.

(** [func (t *Term) formatOptArgs(b *strings.Builder, i int)] *)
Definition formatOptArgs (t : Term) (i : nat) : exec string :=
  match OptArgs t with
  | None => Returns ""
  | Some optArgs =>
      let i' := if (1 <? size optArgs)%nat then S i else i in
      formatOptArgs_body ((λ arg, format arg i') <$> optArgs) i
  end.

(** [func (t *Term) String() string] *)
Definition String_ (t : Term) : exec string := format t 0.

End Format.

(** A second admissible iteration order: the listing of the map library
    read backwards. *)
Definition range_reversed
    (m : gmap string (result error Term))
  : list (string * result error Term) := reverse (map_to_list m).

(** The JSON values [MakeTermTree] translates: a value that is neither
    an array nor an object; an object whose entries are such values; an
    array of a number alone, of a number and an array of such values,
    or of a number, such an array and an object of such values. *)
Inductive term_shape : json.Value → Prop :=
| shape_Null : term_shape json.Null
| shape_Bool b : term_shape (json.Bool b)
| shape_Number n : term_shape (json.Number n)
| shape_String s : term_shape (json.String s)
| shape_Object o :
    map_Forall (λ _, term_shape) o → term_shape (json.Object o)
| shape_Array0 n : term_shape (json.Array [json.Number n])
| shape_Array1 n argVals :
    Forall term_shape argVals →
    term_shape (json.Array [json.Number n; json.Array argVals])
| shape_Array2 n argVals optArgVals :
    Forall term_shape argVals →
    map_Forall (λ _, term_shape) optArgVals →
    term_shape
      (json.Array [json.Number n; json.Array argVals;
                   json.Object optArgVals]).

(** The object with two entries that both fail to translate. *)
Definition two_failures : json.Value :=
  json.Object
    (<["a" := json.Array []]>
       (<["b" := json.Array [json.Bool true]]> ∅)).

(** Number of nodes of a term; the measure for inductions over terms,
    whose children sit in a list and in a map. *)
Fixpoint Term_size (t : Term) : nat :=
  S (match Args t with
     | None => 0
     | Some args => foldr (λ x acc, Term_size x + acc)%nat 0%nat args
     end
     + match OptArgs t with
       | None => 0
       | Some optArgs =>
           map_fold (λ _ x acc, Term_size x + acc)%nat 0%nat optArgs
       end).

(** The nodes [format] prints: the term itself and, unless it is a
    DATUM term, the nodes its arguments and its options print. *)
Inductive printed (P : Term → Prop) : Term → Prop :=
| printed_datum t :
    IsDatum t = true → P t → printed P t
| printed_operator t :
    IsDatum t = false → P t →
    Forall (printed P) (args_of t) →
    map_Forall (λ _, printed P) (optArgs_of t) →
    printed P t.

(** A DATUM node carries a value. *)
Definition datum_present (t : Term) : Prop :=
  IsDatum t = true → is_Some (Datum t).

(** A call that appends to the builder returns; it returns or panics
    on a nil dereference. *)
Definition returns (r : exec string) : Prop := ∃ s, r = Returns s.
Definition returns_or_nil (r : exec string) : Prop :=
  returns r ∨ r = Panics nil_dereference.

(** For running [String]: the listing of the map library as the order
    of [range], and [%v] on a boolean and on a number that holds an
    integer of less than 21 digits. *)
Definition range_printed (m : gmap string (exec string))
  : list (string * exec string) := map_to_list m.

Definition fmt_v_plain (value : json.Value) : string :=
  match value with
  | json.Bool b => if b then "true" else "false"
  | json.Number n => pretty (json.int64_of_float64 n)
  | _ => ""
  end.

End query.

(* ===================================================================== *)
(** ** The Go library functions on strings that the server uses *)
(* ===================================================================== *)

(** A Go string and a [[]byte] are sequences of bytes: [string]. *)
Module go_strings.

(** [len(s)] *)
Definition len (s : string) : Z := Z.of_nat (String.length s).

(** [strings.HasPrefix(s, prefix)] *)
Fixpoint HasPrefix (s prefix : string) {struct prefix} : bool :=
  match prefix, s with
  | EmptyString, _ => true
  | String _ _, EmptyString => false
  | String c prefix', String d s' =>
      if Ascii.eqb c d then HasPrefix s' prefix' else false
  end.

(** [s[n:]] and [s[:n]] for [0 ≤ n ≤ len(s)]. *)
Fixpoint drop (n : nat) (s : string) : string :=
  match n, s with
  | O, _ => s
  | S _, EmptyString => EmptyString
  | S n', String _ s' => drop n' s'
  end.

Fixpoint take (n : nat) (s : string) : string :=
  match n, s with
  | O, _ => EmptyString
  | S _, EmptyString => EmptyString
  | S n', String c s' => String c (take n' s')
  end.

(** [strings.TrimPrefix(s, prefix)] *)
Definition TrimPrefix (s prefix : string) : string :=
  if HasPrefix s prefix then drop (String.length prefix) s else s.

(** [strings.Index(s, substr)]: the index of the first instance of
    [substr] in [s], or -1. *)
Fixpoint Index_from (i : Z) (s substr : string) : Z :=
  if HasPrefix s substr then i
  else match s with
       | EmptyString => -1
       | String _ s' => Index_from (i + 1) s' substr
       end.

Definition Index (s substr : string) : Z := Index_from 0 s substr.

(** The slice expression [s[:high]], which panics unless
    [0 ≤ high ≤ len(s)]. *)
Definition slice_to (s : string) (high : Z) : exec string :=
  if (0 <=? high) && (high <=? len s)
  then Returns (take (Z.to_nat high) s)
  else Panics (slice_bounds_out_of_range high).

(** [strings.Split(s, sep)] for a separator of one byte: the pieces of
    [s] between the separators; one piece more than separators. *)
Fixpoint Split (s : string) (sep : ascii) : list string :=
  match s with
  | EmptyString => [EmptyString]
  | String c s' =>
      if Ascii.eqb c sep then EmptyString :: Split s' sep
      else match Split s' sep with
           | [] => [String c EmptyString]
           | piece :: pieces => String c piece :: pieces
           end
  end.

(** [strings.SplitN(s, sep, 2)] for a separator of one byte: [s] cut at
    the first separator, or [s] alone when it has none. *)
Fixpoint cut (s : string) (sep : ascii) : option (string * string) :=
  match s with
  | EmptyString => None
  | String c s' =>
      if Ascii.eqb c sep then Some (EmptyString, s')
      else match cut s' sep with
           | None => None
           | Some (before, after) => Some (String c before, after)
           end
  end.

Definition SplitN2 (s : string) (sep : ascii) : list string :=
  match cut s sep with
  | None => [s]
  | Some (before, after) => [before; after]
  end.

(** [strings.Join(elems, sep)] *)
Fixpoint Join (elems : list string) (sep : string) : string :=
  match elems with
  | [] => EmptyString
  | [e] => e
  | e :: rest => e +:+ sep +:+ Join rest sep
  end.

(** No byte of [s] is [c]. *)
Fixpoint free_of (c : ascii) (s : string) : bool :=
  match s with
  | EmptyString => true
  | String d s' => negb (Ascii.eqb d c) && free_of c s'
  end.

Definition comma : ascii := ","%char.
Definition equals : ascii := "="%char.

End go_strings.

(* ===================================================================== *)
(** ** Package [server] *)
(* ===================================================================== *)

Module server.
Import go_strings.

Definition adminUsername : string := "admin".
Definition adminPasswordSalt : string := "6VRzcOVKuS8WWbOKM5Vurw==".
Definition adminPasswordHash : string :=
  "NsWJkSBxXNSiI1Bh0UWM7UXAE3fId5RR1ZnA7Cldtws=".
Definition passwordIterations : Z := 4096.

(** Modelled from the spec: [ql2.VersionDummy_V1_0], the only protocol
    version accepted, from the protocol library; the specification
    gives its value as a little-endian 32-bit number. *)
Definition VersionDummy_V1_0 : Z := 0x34c2bdc3.

(** [type scramAuthenticator struct] *)
Record scramAuthenticator : Type :=
  mkScram {
    authMessage : string;
    clientNonce : string;
    serverNonce : string;
    serverSignature : string
  }.

(** [authenticator := &scramAuthenticator{}] *)
Definition newAuthenticator : scramAuthenticator :=
  mkScram "" "" "" "".

(** [type clientAuthenticationMessage struct], decoded from the JSON
    payload the client sends. *)
Record clientAuthenticationMessage : Type :=
  mkClientMessage {
    ProtocolVersion : Z;
    Authentication : string;
    AuthenticationMethod : string
  }.

(** [type serverAuthenticationMessage struct] *)
Record serverAuthenticationMessage : Type :=
  mkServerMessage {
    Success : bool;
    server_Authentication : string
  }.

(** [type versionMessage struct] *)
Record versionMessage : Type :=
  mkVersionMessage {
    version_Success : bool;
    MinProtocolVersion : Z;
    MaxProtocolVersion : Z;
    ServerVersion : string
  }.

(** What [writeVersionMessage] encodes and writes. *)
Definition writeVersionMessage : versionMessage :=
  mkVersionMessage true 0 0 "ReboltDB 0.1.0".

(** A payload written to the connection (as JSON, followed by a NUL
    byte). *)
Inductive payload : Type :=
| VersionPayload (m : versionMessage)
| AuthPayload (m : serverAuthenticationMessage).

(** The errors of the handshake, one constructor per [fmt.Errorf]. *)
Inductive error : Type :=
| ErrVersion (version : Z)
    (* "unrecognized version magic number: %d" *)
| ErrProtocolVersion (version : Z)
    (* "unrecognized protocol version: %d" *)
| ErrAuthenticationMethod (method : string)
    (* "unrecognized authentication method: %s" *)
| ErrEncoding
    (* "invalid authentication encoding" *)
| ErrUsername
    (* "username must be %q" *)
| ErrAttributeKey (key : string)
    (* "invalid authentication attribute key: %q" *)
| ErrAttribute (attr : string)
    (* "invalid authentication attribute: %q" *)
| ErrDecodeHash
    (* "unable to decode stored password hash: %s" *)
| ErrServerNonce (got expected : string)
    (* "invalid server nonce: got %q, expected %q" *)
| ErrClientProof (got expected : string)
    (* "invalid client proof: got %q, expected %q" *)
| ErrAttributes
    (* "invalid authentication attributes" *)
| ErrPhase (phase : string) (err : error).
    (* "unable to read client authentication message: %s", ... *)

(** The reader and the JSON decoding of the payloads belong to the Go
    library: the functions below start from the decoded message, and
    return the message they would encode and write.  A Go method on
    [*scramAuthenticator] returns the authenticator as it leaves it,
    next to its error ([None] for nil). *)

(** The loop over the attributes of the client-first message. *)
Fixpoint clientFirstAttrs (a : scramAuthenticator) (attrs : list string)
  : scramAuthenticator * option error :=
  match attrs with
  | [] => (a, None)
  | attr :: attrs' =>
      match SplitN2 attr equals with
      | [key; val] =>
          if String.eqb key "n" then
            if negb (String.eqb val adminUsername)
            then (a, Some ErrUsername)
            else clientFirstAttrs a attrs'
          else if String.eqb key "r" then
            clientFirstAttrs
              (mkScram (authMessage a) val (serverNonce a)
                 (serverSignature a)) attrs'
          else (a, Some (ErrAttributeKey key))
      | _ => (a, Some (ErrAttribute attr))
      end
  end.

(** [func (a *scramAuthenticator) readClientAuthenticationMessage] *)
Definition readClientAuthenticationMessage (a : scramAuthenticator)
    (message : clientAuthenticationMessage)
  : scramAuthenticator * option error :=
  if negb (ProtocolVersion message =? 0)
  then (a, Some (ErrProtocolVersion (ProtocolVersion message)))
  else if negb (String.eqb (AuthenticationMethod message) "SCRAM-SHA-256")
  then (a, Some (ErrAuthenticationMethod (AuthenticationMethod message)))
  else if negb (HasPrefix (Authentication message) "n,,")
  then (a, Some ErrEncoding)
  else
    let a := mkScram (TrimPrefix (Authentication message) "n,,")
               (clientNonce a) (serverNonce a) (serverSignature a) in
    let attrs := Split (authMessage a) comma in
    clientFirstAttrs a attrs.

(** The authenticator after the authentication message was extended by
    a comma and [bare]. *)
Definition extended (a : scramAuthenticator) (bare : string)
  : scramAuthenticator :=
  mkScram (authMessage a +:+ "," +:+ bare) (clientNonce a) (serverNonce a)
    (serverSignature a).

Section Crypto.

(** The cryptographic functions of the Go library:
    [hmac_sha256 key data] is the sum of [hmac.New(sha256.New, key)]
    after writing [data]; [sha256_Sum256] is [sha256.Sum256];
    [base64_EncodeToString] and [base64_DecodeString] are those of
    [base64.StdEncoding]. *)
Variable hmac_sha256 : string → string → string.
Variable sha256_Sum256 : string → string.
Variable base64_EncodeToString : string → string.
Variable base64_DecodeString : string → option string.

(** [func (a *scramAuthenticator) writeServerAuthenticationMessage].
    [serverNonceBuf] holds the 18 bytes read from [rand.Reader]. *)
Definition writeServerAuthenticationMessage (a : scramAuthenticator)
    (serverNonceBuf : string)
  : scramAuthenticator * serverAuthenticationMessage :=
  let serverNonce :=
    clientNonce a +:+ base64_EncodeToString serverNonceBuf in
  let attributes :=
    [ "r=" +:+ serverNonce;
      "s=" +:+ adminPasswordSalt;
      "i=" +:+ pretty passwordIterations ] in
  let message := mkServerMessage true (Join attributes ",") in
  (mkScram (authMessage a +:+ "," +:+ server_Authentication message)
     (clientNonce a) serverNonce (serverSignature a),
   message).

(** [clientProofBuf[i] = clientKey[i] ^ clientSignature[i]] for every
    index of [clientKey]; indexing [clientSignature] past its end
    panics. *)
Definition xor_byte (x y : ascii) : ascii :=
  Ascii.ascii_of_N (N.lxor (Ascii.N_of_ascii x) (Ascii.N_of_ascii y)).

Fixpoint xorBytes (i : Z) (clientKey clientSignature : string)
  : exec string :=
  match clientKey, clientSignature with
  | EmptyString, _ => Returns EmptyString
  | String _ _, EmptyString => Panics (index_out_of_range i)
  | String x clientKey', String y clientSignature' =>
      match xorBytes (i + 1) clientKey' clientSignature' with
      | Panics p => Panics p
      | Returns rest => Returns (String (xor_byte x y) rest)
      end
  end.

(** The loop over the attributes of the client-final message; the
    flags are [validNonce] and [validProof]. *)
Fixpoint clientFinalAttrs (a : scramAuthenticator) (clientProof : string)
    (validNonce validProof : bool) (attrs : list string)
  : bool * bool * option error :=
  match attrs with
  | [] => (validNonce, validProof, None)
  | attr :: attrs' =>
      match SplitN2 attr equals with
      | [key; val] =>
          if String.eqb key "r" then
            if negb (String.eqb val (serverNonce a))
            then (validNonce, validProof,
                  Some (ErrServerNonce val (serverNonce a)))
            else clientFinalAttrs a clientProof true validProof attrs'
          else if String.eqb key "p" then
            if negb (String.eqb val clientProof)
            then (validNonce, validProof,
                  Some (ErrClientProof val clientProof))
            else clientFinalAttrs a clientProof validNonce true attrs'
          else (validNonce, validProof, Some (ErrAttributeKey key))
      | _ => (validNonce, validProof, Some (ErrAttribute attr))
      end
  end.

(** [func (a *scramAuthenticator) readClientAuthenticationProof] *)
Definition readClientAuthenticationProof (a : scramAuthenticator)
    (message : clientAuthenticationMessage)
  : exec (scramAuthenticator * option error) :=
  (* Calculate the client proof. *)
  match base64_DecodeString adminPasswordHash with
  | None => Returns (a, Some ErrDecodeHash)
  | Some decodedPasswordHash =>
      let clientKey := hmac_sha256 decodedPasswordHash "Client Key" in
      let storedKey := sha256_Sum256 clientKey in
      match slice_to (Authentication message)
              (Index (Authentication message) ",p=") with
      | Panics p => Panics p
      | Returns bare =>
          let a := mkScram (authMessage a +:+ "," +:+ bare)
                     (clientNonce a) (serverNonce a)
                     (serverSignature a) in
          let clientSignature := hmac_sha256 storedKey (authMessage a) in
          match xorBytes 0 clientKey clientSignature with
          | Panics p => Panics p
          | Returns clientProofBuf =>
              let clientProof := base64_EncodeToString clientProofBuf in
              if negb (HasPrefix (Authentication message) "c=biws,")
              then Returns (a, Some ErrEncoding)
              else
                let encodedAttributes :=
                  TrimPrefix (Authentication message) "c=biws," in
                let attrs := Split encodedAttributes comma in
                match clientFinalAttrs a clientProof false false attrs
                with
                | (_, _, Some err) => Returns (a, Some err)
                | (validNonce, validProof, None) =>
                    if negb (validNonce && validProof)
                    then Returns (a, Some ErrAttributes)
                    else
                      (* Create the server signature. *)
                      let serverKey :=
                        hmac_sha256 decodedPasswordHash "Server Key" in
                      Returns
                        (mkScram (authMessage a) (clientNonce a)
                           (serverNonce a)
                           (base64_EncodeToString
                              (hmac_sha256 serverKey (authMessage a))),
                         None)
                end
          end
      end
  end.

(** [func (a *scramAuthenticator)
    writeServerAuthenticationSignatureMessage] *)
Definition writeServerAuthenticationSignatureMessage
    (a : scramAuthenticator) : serverAuthenticationMessage :=
  mkServerMessage true ("v=" +:+ serverSignature a).

(** [func DoHandshake(conn net.Conn, reader *bufio.Reader) error].
    The input of the connection is the version number, the decoded
    client-first message, and the decoded client-final message;
    [serverNonceBuf] is what [rand.Reader] delivers.  The result is
    the list of the payloads written and the error returned. *)
Definition DoHandshake (version : Z)
    (clientFirst : clientAuthenticationMessage) (serverNonceBuf : string)
    (clientFinal : clientAuthenticationMessage)
  : exec (list payload * option error) :=
  (* We only support "V1_0". *)
  if negb (version =? VersionDummy_V1_0)
  then Returns ([], Some (ErrVersion version))
  else
    let written := [VersionPayload writeVersionMessage] in
    let authenticator := newAuthenticator in
    match readClientAuthenticationMessage authenticator clientFirst with
    | (_, Some err) =>
        Returns
          (written,
           Some (ErrPhase "unable to read client authentication message"
                   err))
    | (authenticator, None) =>
        let '(authenticator, message) :=
          writeServerAuthenticationMessage authenticator serverNonceBuf in
        let written := written ++ [AuthPayload message] in
        match readClientAuthenticationProof authenticator clientFinal with
        | Panics p => Panics p
        | Returns (_, Some err) =>
            Returns
              (written,
               Some (ErrPhase
                       "unable to read client authentication proof" err))
        | Returns (authenticator, None) =>
            Returns
              (written
               ++ [AuthPayload
                     (writeServerAuthenticationSignatureMessage
                        authenticator)],
               None)
        end
    end.

(** The proof the server expects of a client-final message whose
    authentication string is [auth], in the words of the handshake
    description: base64 of ClientKey XOR ClientSignature, with the
    signature taken over the authentication message extended by a
    comma and [bare], the part of [auth] before [",p="]. *)
Definition ClientKey (storedPasswordHash : string) : string :=
  hmac_sha256 storedPasswordHash "Client Key".
Definition StoredKey (storedPasswordHash : string) : string :=
  sha256_Sum256 (ClientKey storedPasswordHash).
Definition ClientSignature (storedPasswordHash auth_message : string)
  : string :=
  hmac_sha256 (StoredKey storedPasswordHash) auth_message.
Definition xor_strings (x y : string) : string :=
  match xorBytes 0 x y with Returns z => z | Panics _ => EmptyString end.
Definition ExpectedProof (storedPasswordHash auth_message bare : string)
  : string :=
  base64_EncodeToString
    (xor_strings (ClientKey storedPasswordHash)
       (ClientSignature storedPasswordHash
          (auth_message +:+ "," +:+ bare))).

(** The client-final message with channel-binding prefix [cbind],
    nonce echo [nonce] and proof [proof]. *)
Definition clientFinal (cbind nonce proof : string)
  : clientAuthenticationMessage :=
  mkClientMessage 0 (cbind +:+ "r=" +:+ nonce +:+ ",p=" +:+ proof)
    "SCRAM-SHA-256".

(** The message is accepted: the call returns without error. *)
Definition accepted (r : exec (scramAuthenticator * option error))
  : Prop :=
  ∃ a', r = Returns (a', None).

(** The message is rejected: the call returns an error. *)
Definition rejected (r : exec (scramAuthenticator * option error))
  : Prop :=
  ∃ a' err, r = Returns (a', Some err).

End Crypto.

(** The client nonce the loop over the attributes of a client-first
    message leaves: the value of the last [r=] attribute, [nonce] when
    there is none. *)
Definition last_nonce (nonce : string) (attrs : list string) : string :=
  foldl (λ nonce attr, if HasPrefix attr "r=" then drop 2 attr else nonce)
    nonce attrs.

(** The authentication string of the server-first message for the
    nonce [nonce]. *)
Definition serverFirst (nonce : string) : string :=
  "r=" +:+ nonce +:+ ",s=" +:+ adminPasswordSalt +:+ ",i=4096".

End server.

(* ===================================================================== *)
(** ** The cryptographic functions of the Go library, for running the
       handshake *)
(* ===================================================================== *)

(** The server calls [crypto/hmac], [crypto/sha256] and
    [encoding/base64].  The handshake below takes them as parameters;
    this module implements them, so that the handshake can be run. *)
Module crypto.
#[local] Open Scope N_scope.

(** SHA-256 (FIPS 180-4) on lists of bytes, the bytes and the 32-bit
    words as numbers. *)

Definition bytes_of_string (s : string) : list N :=
  N_of_ascii <$> String.list_ascii_of_string s.
Definition string_of_bytes (l : list N) : string :=
  String.string_of_list_ascii (ascii_of_N <$> l).

Definition mask32 : N := 0xFFFFFFFF.
Definition add32 (x y : N) : N := N.land (x + y) mask32.
Definition rotr (n x : N) : N :=
  N.lor (N.shiftr x n) (N.land (N.shiftl x (32 - n)) mask32).
Definition Ch (x y z : N) : N :=
  N.lxor (N.land x y) (N.land (N.lxor x mask32) z).
Definition Maj (x y z : N) : N :=
  N.lxor (N.lxor (N.land x y) (N.land x z)) (N.land y z).
Definition Sigma0 (x : N) : N :=
  N.lxor (N.lxor (rotr 2 x) (rotr 13 x)) (rotr 22 x).
Definition Sigma1 (x : N) : N :=
  N.lxor (N.lxor (rotr 6 x) (rotr 11 x)) (rotr 25 x).
Definition sigma0 (x : N) : N :=
  N.lxor (N.lxor (rotr 7 x) (rotr 18 x)) (N.shiftr x 3).
Definition sigma1 (x : N) : N :=
  N.lxor (N.lxor (rotr 17 x) (rotr 19 x)) (N.shiftr x 10).

(** The first [n] prime numbers. *)
Definition is_prime (p : N) : bool :=
  (2 <=? p)
  && forallb (λ d, negb (p mod N.of_nat d =? 0)) (seq 2 (N.to_nat p - 2)).

Definition primes (n : nat) : list N :=
  take n (filter (λ p, is_prime p = true) (N.of_nat <$> seq 2 320)).

(** The integer cube root, one bit at a time. *)
Fixpoint cube_root_bits (bits : nat) (n root : N) : N :=
  match bits with
  | O => root
  | S bits' =>
      let root' := root + 2 ^ N.of_nat bits' in
      cube_root_bits bits' n (if root' * root' * root' <=? n then root'
                              else root)
  end.

Definition cube_root (n : N) : N := cube_root_bits 40 n 0.

(** The round constants: the first 32 bits of the fractional parts of
    the cube roots of the first 64 primes. *)
Definition K : list N :=
  Eval vm_compute in
    (λ p, N.land (cube_root (p * 2 ^ 96)) mask32) <$> primes 64.

(** The message schedule; [ws] holds the words computed so far, the
    latest first. *)
Fixpoint schedule (n : nat) (ws : list N) : list N :=
  match n with
  | O => ws
  | S n' =>
      let w := add32 (add32 (sigma1 (nth 1 ws 0)) (nth 6 ws 0))
                 (add32 (sigma0 (nth 14 ws 0)) (nth 15 ws 0)) in
      schedule n' (w :: ws)
  end.

Definition state : Type := N * N * N * N * N * N * N * N.

Definition round (st : state) (kw : N * N) : state :=
  let '(a, b, c, d, e, f, g, h) := st in
  let T1 := add32 (add32 (add32 (add32 h (Sigma1 e)) (Ch e f g)) kw.1) kw.2 in
  let T2 := add32 (Sigma0 a) (Maj a b c) in
  (add32 T1 T2, a, b, c, add32 d T1, e, f, g).

Definition compress (H : state) (block : list N) : state :=
  let W := rev (schedule 48 (rev block)) in
  let '(a, b, c, d, e, f, g, h) := H in
  let '(a', b', c', d', e', f', g', h') := fold_left round (combine K W) H in
  (add32 a a', add32 b b', add32 c c', add32 d d',
   add32 e e', add32 f f', add32 g g', add32 h h').

(** Big-endian words. *)
Fixpoint words_of_bytes (l : list N) : list N :=
  match l with
  | b0 :: b1 :: b2 :: b3 :: rest =>
      (N.shiftl b0 24 + N.shiftl b1 16 + N.shiftl b2 8 + b3)
      :: words_of_bytes rest
  | _ => []
  end.

Definition bytes_of_word (w : N) : list N :=
  [ N.land (N.shiftr w 24) 0xFF; N.land (N.shiftr w 16) 0xFF;
    N.land (N.shiftr w 8) 0xFF; N.land w 0xFF ].

Definition bytes_of_length (bits : N) : list N :=
  bytes_of_word (N.land (N.shiftr bits 32) mask32)
  ++ bytes_of_word (N.land bits mask32).

Definition pad (msg : list N) : list N :=
  let n := N.of_nat (length msg) in
  let zeros := (64 - (n + 9) mod 64) mod 64 in
  msg ++ [0x80] ++ replicate (N.to_nat zeros) 0 ++ bytes_of_length (8 * n).

Fixpoint blocks (fuel : nat) (H : state) (ws : list N) : state :=
  match fuel, ws with
  | S fuel', _ :: _ => blocks fuel' (compress H (take 16 ws)) (drop 16 ws)
  | _, _ => H
  end.

(** The initial hash value: the first 32 bits of the fractional parts of
    the square roots of the first 8 primes. *)
Definition initial_words : list N :=
  Eval vm_compute in
    (λ p, N.land (N.sqrt (p * 2 ^ 64)) mask32) <$> primes 8.

Definition initial : state :=
  match initial_words with
  | [a; b; c; d; e; f; g; h] => (a, b, c, d, e, f, g, h)
  | _ => (0, 0, 0, 0, 0, 0, 0, 0)
  end.

Definition sha256_bytes (msg : list N) : list N :=
  let ws := words_of_bytes (pad msg) in
  let '(a, b, c, d, e, f, g, h) := blocks (length ws) initial ws in
  bytes_of_word a ++ bytes_of_word b ++ bytes_of_word c ++ bytes_of_word d
  ++ bytes_of_word e ++ bytes_of_word f ++ bytes_of_word g
  ++ bytes_of_word h.

(** HMAC (RFC 2104) with SHA-256, whose block has 64 bytes. *)
Definition hmac_sha256_bytes (key data : list N) : list N :=
  let key := if (64 <? length key)%nat then sha256_bytes key else key in
  let key := key ++ replicate (64 - length key) 0 in
  sha256_bytes ((N.lxor 0x5c <$> key)
                ++ sha256_bytes ((N.lxor 0x36 <$> key) ++ data)).

Definition sha256_Sum256 (data : string) : string :=
  string_of_bytes (sha256_bytes (bytes_of_string data)).
Definition hmac_sha256 (key data : string) : string :=
  string_of_bytes
    (hmac_sha256_bytes (bytes_of_string key) (bytes_of_string data)).

(** Base64, standard alphabet, with padding (RFC 4648).  The decoder
    takes input without line breaks. *)
Definition alphabet : list ascii :=
  String.list_ascii_of_string
    "ABCDEFGHIJKLMNOPQRSTUVWXYZabcdefghijklmnopqrstuvwxyz0123456789+/".

Definition digit (v : N) : ascii :=
  nth (N.to_nat (N.land v 63)) alphabet "A"%char.

Fixpoint encode (l : list N) : list ascii :=
  match l with
  | [] => []
  | [b0] =>
      [ digit (N.shiftr b0 2); digit (N.shiftl b0 4); "="%char; "="%char ]
  | [b0; b1] =>
      [ digit (N.shiftr b0 2);
        digit (N.lor (N.shiftl b0 4) (N.shiftr b1 4));
        digit (N.shiftl b1 2); "="%char ]
  | b0 :: b1 :: b2 :: rest =>
      digit (N.shiftr b0 2)
      :: digit (N.lor (N.shiftl b0 4) (N.shiftr b1 4))
      :: digit (N.lor (N.shiftl b1 2) (N.shiftr b2 6))
      :: digit b2 :: encode rest
  end.

Definition base64_EncodeToString (src : string) : string :=
  String.string_of_list_ascii (encode (bytes_of_string src)).

(** The value of a base64 digit. *)
Definition value (c : ascii) : option N :=
  let n := N_of_ascii c in
  if (65 <=? n) && (n <=? 90) then Some (n - 65)
  else if (97 <=? n) && (n <=? 122) then Some (n - 71)
  else if (48 <=? n) && (n <=? 57) then Some (n + 4)
  else if n =? 43 then Some 62
  else if n =? 47 then Some 63
  else None.

Definition is_pad (c : ascii) : bool := Ascii.eqb c "="%char.

Fixpoint decode (l : list ascii) : option (list N) :=
  match l with
  | [] => Some []
  | [c0; c1; c2; c3] =>
      match value c0, value c1 with
      | Some v0, Some v1 =>
          let b0 := N.land (N.lor (N.shiftl v0 2) (N.shiftr v1 4)) 0xFF in
          if is_pad c2 && is_pad c3 then Some [b0]
          else match value c2 with
               | Some v2 =>
                   let b1 :=
                     N.land (N.lor (N.shiftl v1 4) (N.shiftr v2 2)) 0xFF in
                   if is_pad c3 then Some [b0; b1]
                   else match value c3 with
                        | Some v3 =>
                            Some [b0; b1;
                                  N.land (N.lor (N.shiftl v2 6) v3) 0xFF]
                        | None => None
                        end
               | None => None
               end
      | _, _ => None
      end
  | c0 :: c1 :: c2 :: c3 :: rest =>
      match value c0, value c1, value c2, value c3, decode rest with
      | Some v0, Some v1, Some v2, Some v3, Some bytes =>
          Some (N.land (N.lor (N.shiftl v0 2) (N.shiftr v1 4)) 0xFF
                :: N.land (N.lor (N.shiftl v1 4) (N.shiftr v2 2)) 0xFF
                :: N.land (N.lor (N.shiftl v2 6) v3) 0xFF
                :: bytes)
      | _, _, _, _, _ => None
      end
  | _ => None
  end.

Definition base64_DecodeString (s : string) : option string :=
  string_of_bytes <$> decode (String.list_ascii_of_string s).

(** Hexadecimal rendering, for comparing with published digests. *)
Definition hex_digit (v : N) : ascii :=
  nth (N.to_nat v) (String.list_ascii_of_string "0123456789abcdef") "0"%char.
Definition hex (s : string) : string :=
  String.string_of_list_ascii
    (flat_map (λ b, [hex_digit (N.shiftr b 4); hex_digit (N.land b 15)])
       (bytes_of_string s)).
End crypto.
(* ===================================================================== *)
(** ** Package [main] *)
(* ===================================================================== *)

Module main.

(** [type queryServer struct]: the set of the tokens of the queries in
    flight ([map[uint64]struct{}]) and the bytes the reader has still
    to deliver.  The connection is only written to by the handshake. *)
Record queryServer : Type :=
  mkQueryServer {
    queryCache : gset Z;
    reader : string
  }.

(** The errors of the query loop, one constructor per [fmt.Errorf]. *)
Inductive error : Type :=
| ErrReadToken
    (* "unable to read query token into buffer: %s" *)
| ErrReadSize
    (* "unable to read query size into buffer: %s" *)
| ErrReadQuery
    (* "unable to read query into buffer: %s" *)
| ErrParse (err : string)
    (* "unable to JSON parse query: %s" *)
| ErrHandle (err : error)
    (* "unable to handle query: %s" *)
| ErrQueryNotArray (vt : json.ValueType)
    (* "expected query type to be array, but found %s" *)
| ErrQueryElements (n : nat)
    (* "expected 1 to 3 elements in the top-level query, but found %d" *)
| ErrQueryTypeNotNumber (vt : json.ValueType)
    (* "expected query type to be number, but found %s" *)
| ErrGlobalOptArgs (vt : json.ValueType)
    (* "expected global optargs to be object, but found %s" *)
| ErrStartElements (n : nat)
    (* "expected 3 elements in top-level START query, but found %d" *)
| ErrNotImplemented (queryType : ql2.Query_QueryType)
    (* "query type %s not yet implemented" *)
| ErrUnrecognized (queryType : ql2.Query_QueryType)
    (* "unrecognized QueryType: %d" *)
| ErrDuplicateToken (token : Z)
    (* "duplicate token: %d" *)
| ErrTermTree (err : query.error).
    (* "unable to parse term tree: %s" *)

(** [io.ReadFull(reader, buf)] for a buffer of [n] bytes: the bytes and
    the rest of the input, or nothing when the input ends before. *)
Definition ReadFull (n : nat) (input : string) : option (string * string) :=
  if (n <=? String.length input)%nat
  then Some (go_strings.take n input, go_strings.drop n input)
  else None.

(** [binary.LittleEndian.Uint64] and [Uint32]: the number whose bytes
    are given, the lowest first. *)
Fixpoint LittleEndian (buf : string) : Z :=
  match buf with
  | EmptyString => 0
  | String c buf' => Z.of_N (Ascii.N_of_ascii c) + 256 * LittleEndian buf'
  end.

Section Queries.

(** The iteration order of maps, as in [query.MakeTermTree]. *)
Variable range :
  gmap string (result query.error query.Term) →
  list (string * result query.error query.Term).

(** [func (qs *queryServer) startQuery].  The log lines have no
    effect on the state. *)
Definition startQuery (qs : queryServer) (token : Z) (value : json.Value)
    (globalOptArgs : gmap string json.Value)
  : queryServer * option error :=
  if bool_decide (token ∈ queryCache qs)
  then (qs, Some (ErrDuplicateToken token))
  else
    match query.MakeTermTree range value with
    | Err err => (qs, Some (ErrTermTree err))
    | Ok termTree => (qs, None)
    end.

(** [func (qs *queryServer) runQuery] *)
Definition runQuery (qs : queryServer) (token : Z) (queryVal : json.Value)
  : queryServer * option error :=
  match queryVal with
  | json.Array queryArray =>
      match queryArray with
      | [] => (qs, Some (ErrQueryElements (length queryArray)))
      | _ :: _ :: _ :: _ :: _ =>
          (qs, Some (ErrQueryElements (length queryArray)))
      | queryArray0 :: rest =>
          if negb (json.IsNumber queryArray0)
          then (qs, Some (ErrQueryTypeNotNumber
                            (json.ValueType_of queryArray0)))
          else
            (* if len(queryArray) == 3 *)
            let globalOptArgs
              : result error (gmap string json.Value) :=
              match rest with
              | [_; json.Object o] => Ok o
              | [_; queryArray2] =>
                  Err (ErrGlobalOptArgs (json.ValueType_of queryArray2))
              | _ => Ok ∅
              end in
            match globalOptArgs with
            | Err err => (qs, Some err)
            | Ok globalOptArgs =>
                let queryType :=
                  ql2.int32_of_int64 (json.AsInt64 queryArray0) in
                if queryType =? ql2.Query_START then
                  match rest with
                  | [queryArray1; _] =>
                      startQuery qs token queryArray1 globalOptArgs
                  | _ =>
                      (qs, Some (ErrStartElements (length queryArray)))
                  end
                else if (queryType =? ql2.Query_CONTINUE)
                        || (queryType =? ql2.Query_STOP)
                        || (queryType =? ql2.Query_NOREPLY_WAIT)
                        || (queryType =? ql2.Query_SERVER_INFO)
                then (qs, Some (ErrNotImplemented queryType))
                else (qs, Some (ErrUnrecognized queryType))
            end
      end
  | _ => (qs, Some (ErrQueryNotArray (json.ValueType_of queryVal)))
  end.

(** [json.Parse], which the repository builds on a JSON library. *)
Variable json_Parse : string → result string json.Value.

(** [func (qs *queryServer) handleQueries].  The body of the [for]
    loop ends in [return nil]: it runs once. *)
Definition handleQueries (qs : queryServer)
  : queryServer * option error :=
  (* First, read a 64-bit query token. *)
  match ReadFull 8 (reader qs) with
  | None => (mkQueryServer (queryCache qs) "", Some ErrReadToken)
  | Some (tokenBuf, input) =>
      let token := LittleEndian tokenBuf in
      (* Next, read the size of the query as a 32-bit integer. *)
      match ReadFull 4 input with
      | None => (mkQueryServer (queryCache qs) "", Some ErrReadSize)
      | Some (sizeBuf, input) =>
          let size := LittleEndian sizeBuf in
          match ReadFull (Z.to_nat size) input with
          | None => (mkQueryServer (queryCache qs) "", Some ErrReadQuery)
          | Some (queryBuf, input) =>
              let qs := mkQueryServer (queryCache qs) input in
              match json_Parse queryBuf with
              | Err err => (qs, Some (ErrParse err))
              | Ok queryVal =>
                  match runQuery qs token queryVal with
                  | (qs, Some err) => (qs, Some (ErrHandle err))
                  | (qs, None) => (qs, None)
                  end
              end
          end
      end
  end.

End Queries.

(** The query type [runQuery] reads from a number in element 0:
    [ql2.Query_QueryType(queryArray[0].AsInt64())]. *)
Definition queryType_of (n : spec_float) : ql2.Query_QueryType :=
  ql2.int32_of_int64 (json.int64_of_float64 n).

(** The [n] bytes of the number [z], the lowest first: what a client
    writes for a token ([n] = 8) and for a size ([n] = 4). *)
Fixpoint PutLittleEndian (n : nat) (z : Z) : string :=
  match n with
  | O => EmptyString
  | S n' =>
      String (Ascii.ascii_of_N (Z.to_N (z mod 256)))
        (PutLittleEndian n' (z / 256))
  end.

(** The frame of a query: the token in 8 bytes, the size of the body in
    4 bytes, the body. *)
Definition frame (token : Z) (body : string) : string :=
  PutLittleEndian 8 token +:+ PutLittleEndian 4 (go_strings.len body)
  +:+ body.

(** [qs := &queryServer{queryCache: map[uint64]struct{}{}, ...}] *)
Definition newQueryServer (input : string) : queryServer :=
  mkQueryServer ∅ input.

(** *** The duplicate-token scenario *)

(** The START query [[1,1,{}]] as the JSON parser delivers it. *)
Definition start_datum : json.Value :=
  json.Array [json.number_of_Z 1; json.number_of_Z 1; json.Object ∅].

Definition bytes (l : list nat) : string :=
  String.string_of_list_ascii (Ascii.ascii_of_nat <$> l).

(** The frame of that query with token 42: the token in 8 bytes, the
    size 8 in 4 bytes, the 8 bytes of the body. *)
Definition start_frame_body : string := "[1,1,{}]".
Definition start_frame : string :=
  bytes [42; 0; 0; 0; 0; 0; 0; 0]%nat +:+ bytes [8; 0; 0; 0]%nat
  +:+ start_frame_body.

(** A parser that knows the body of the scenario. *)
Definition Parse_start_datum (data : string) : result string json.Value :=
  if String.eqb data start_frame_body then Ok start_datum
  else Err "unable to parse JSON".

End main.

(* ===================================================================== *)
(** ** The handshake and the connection on the bytes of the wire *)
(* ===================================================================== *)

(** [server.DoHandshake] and [main.handleConnection] with their reads
    and writes: the bytes the client sends are the input of the
    [bufio.Reader] that the handshake and the query loop share. *)
Module wire.
Import go_strings.

Definition NUL : ascii := Ascii.zero.

(** [reader.ReadBytes(delim)]: the bytes up to and including the first
    [delim], and the input left; nothing when the input ends before a
    [delim] is found (the call then returns an error, and its callers
    drop the bytes read). *)
Fixpoint ReadBytes (input : string) (delim : ascii)
  : option (string * string) :=
  match input with
  | EmptyString => None
  | String c input' =>
      if Ascii.eqb c delim then Some (String c EmptyString, input')
      else match ReadBytes input' delim with
           | None => None
           | Some (buf, rest) => Some (String c buf, rest)
           end
  end.

(** The errors of reading one message of the client. *)
Inductive message_error : Type :=
| ErrReadBytes
    (* the error of [reader.ReadBytes] *)
| ErrUnmarshal (err : string)
    (* "unable to JSON decode client authentication message: %s",
       "unable to JSON decode client authentication proof message: %s" *)
| ErrMessage (err : server.error).
    (* the errors of the checks on the decoded message *)

(** The errors of writing one message of the server. *)
Inductive write_error : Type :=
| ErrRandom
    (* "unable to generate random server nonce: %s" *)
| ErrWrite (err : string).
    (* the error of [conn.Write], or [io.ErrShortWrite] *)

(** The errors of [DoHandshake], one constructor per [fmt.Errorf]. *)
Inductive error : Type :=
| ErrReadVersion
    (* "unable to read version magic number into buffer: %s" *)
| ErrVersion (version : Z)
    (* "unrecognized version magic number: %d" *)
| ErrWriteVersion (err : write_error)
    (* "unable to write version message: %s" *)
| ErrReadMessage (err : message_error)
    (* "unable to read client authentication message: %s" *)
| ErrWriteMessage (err : write_error)
    (* "unable to write server authentication message: %s" *)
| ErrReadProof (err : message_error)
    (* "unable to read client authentication proof: %s" *)
| ErrWriteSignature (err : write_error).
    (* "unable to write server authentication signature: %s" *)

Section Conn.

(** [json.Unmarshal(buf, &message)] of the Go library, into a
    [clientAuthenticationMessage]. *)
Variable json_Unmarshal :
  string → result string server.clientAuthenticationMessage.

(** [conn.Write] of the JSON of a message followed by a NUL byte:
    [None] when all of it was written, the error otherwise.
    ([json.Marshal] does not fail on the messages of the server.) *)
Variable conn_Write : server.payload → option string.

(** [io.ReadFull(rand.Reader, serverNonceBuf[:])]: the 18 bytes, or
    nothing when the source of randomness fails. *)
Variable rand_Reader : option string.

Variable hmac_sha256 : string → string → string.
Variable sha256_Sum256 : string → string.
Variable base64_EncodeToString : string → string.
Variable base64_DecodeString : string → option string.

(** The first lines of the two reading methods:
    [buf, err := reader.ReadBytes(0)], [buf = buf[:len(buf)-1]],
    [json.Unmarshal(buf, &message)].  The result is the message or the
    error, and the input left to the reader. *)
Definition readMessage (input : string)
  : exec (result message_error server.clientAuthenticationMessage
          * string) :=
  match ReadBytes input NUL with
  | None => Returns (Err ErrReadBytes, EmptyString)
  | Some (buf, input) =>
      (* Strip  null byte. *)
      match slice_to buf (len buf - 1) with
      | Panics p => Panics p
      | Returns buf =>
          match json_Unmarshal buf with
          | Err err => Returns (Err (ErrUnmarshal err), input)
          | Ok message => Returns (Ok message, input)
          end
      end
  end.

(** [func (a *scramAuthenticator) readClientAuthenticationMessage(reader)] *)
Definition readClientAuthenticationMessage (a : server.scramAuthenticator)
    (input : string)
  : exec (server.scramAuthenticator * string * option message_error) :=
  match readMessage input with
  | Panics p => Panics p
  | Returns (Err err, input) => Returns (a, input, Some err)
  | Returns (Ok message, input) =>
      match server.readClientAuthenticationMessage a message with
      | (a, Some err) => Returns (a, input, Some (ErrMessage err))
      | (a, None) => Returns (a, input, None)
      end
  end.

(** [func (a *scramAuthenticator) writeServerAuthenticationMessage(conn)] *)
Definition writeServerAuthenticationMessage (a : server.scramAuthenticator)
  : server.scramAuthenticator * list server.payload * option write_error :=
  match rand_Reader with
  | None => (a, [], Some ErrRandom)
  | Some serverNonceBuf =>
      let '(a, message) :=
        server.writeServerAuthenticationMessage base64_EncodeToString a
          serverNonceBuf in
      match conn_Write (server.AuthPayload message) with
      | Some err => (a, [], Some (ErrWrite err))
      | None => (a, [server.AuthPayload message], None)
      end
  end.

(** [func (a *scramAuthenticator) readClientAuthenticationProof(reader)] *)
Definition readClientAuthenticationProof (a : server.scramAuthenticator)
    (input : string)
  : exec (server.scramAuthenticator * string * option message_error) :=
  match readMessage input with
  | Panics p => Panics p
  | Returns (Err err, input) => Returns (a, input, Some err)
  | Returns (Ok message, input) =>
      match
        server.readClientAuthenticationProof hmac_sha256 sha256_Sum256
          base64_EncodeToString base64_DecodeString a message
      with
      | Panics p => Panics p
      | Returns (a, Some err) => Returns (a, input, Some (ErrMessage err))
      | Returns (a, None) => Returns (a, input, None)
      end
  end.

(** What a call has written to the connection, the input it has left
    to the reader, and the error it returns. *)
Record outcome : Type :=
  mkOutcome {
    written : list server.payload;
    unread : string;
    returned : option error
  }.

(** [func DoHandshake(conn net.Conn, reader *bufio.Reader) error] *)
Definition DoHandshake (input : string) : exec outcome :=
  match main.ReadFull 4 input with
  | None => Returns (mkOutcome [] EmptyString (Some ErrReadVersion))
  | Some (versionBuf, input) =>
      (* We only support "V1_0". *)
      let version := ql2.int32_of_int64 (main.LittleEndian versionBuf) in
      if negb (version =? server.VersionDummy_V1_0)
      then Returns (mkOutcome [] input (Some (ErrVersion version)))
      else
        (* Reply with a version message. *)
        match conn_Write (server.VersionPayload server.writeVersionMessage)
        with
        | Some err =>
            Returns
              (mkOutcome [] input (Some (ErrWriteVersion (ErrWrite err))))
        | None =>
            let out := [server.VersionPayload server.writeVersionMessage] in
            let authenticator := server.newAuthenticator in
            match readClientAuthenticationMessage authenticator input with
            | Panics p => Panics p
            | Returns (_, input, Some err) =>
                Returns (mkOutcome out input (Some (ErrReadMessage err)))
            | Returns (authenticator, input, None) =>
                match writeServerAuthenticationMessage authenticator with
                | (_, _, Some err) =>
                    Returns
                      (mkOutcome out input (Some (ErrWriteMessage err)))
                | (authenticator, message, None) =>
                    let out := out ++ message in
                    match readClientAuthenticationProof authenticator input
                    with
                    | Panics p => Panics p
                    | Returns (_, input, Some err) =>
                        Returns
                          (mkOutcome out input (Some (ErrReadProof err)))
                    | Returns (authenticator, input, None) =>
                        let signature :=
                          server.AuthPayload
                            (server.writeServerAuthenticationSignatureMessage
                               authenticator) in
                        match conn_Write signature with
                        | Some err =>
                            Returns
                              (mkOutcome out input
                                 (Some (ErrWriteSignature (ErrWrite err))))
                        | None =>
                            Returns
                              (mkOutcome (out ++ [signature]) input None)
                        end
                    end
                end
            end
        end
  end.

(** The iteration order of maps and the JSON parser, as in
    [main.handleQueries]. *)
Variable range :
  gmap string (result query.error query.Term) →
  list (string * result query.error query.Term).
Variable json_Parse : string → result string json.Value.

(** What [handleConnection] logs before it returns. *)
Inductive logged : Type :=
| LogNothing
| LogHandshake (err : error)
    (* "Unable to perform handshake: %s" *)
| LogQueries (err : main.error).
    (* "Unable to handle queries: %s" *)

(** [func handleConnection(conn net.Conn, db *bolt.DB)]: what the
    server has written when it closes the connection, the input it has
    not read, and what it has logged. *)
Definition handleConnection (input : string)
  : exec (list server.payload * string * logged) :=
  match DoHandshake input with
  | Panics p => Panics p
  | Returns (mkOutcome out input (Some err)) =>
      Returns (out, input, LogHandshake err)
  | Returns (mkOutcome out input None) =>
      let qs := main.newQueryServer input in
      match main.handleQueries range json_Parse qs with
      | (qs, Some err) => Returns (out, main.reader qs, LogQueries err)
      | (qs, None) => Returns (out, main.reader qs, LogNothing)
      end
  end.

End Conn.

(** The bytes of a handshake as a client sends them: the version number
    in 4 bytes, the lowest first, and the two JSON payloads, each
    followed by a NUL byte. *)
Definition handshake_bytes (version : Z) (first final : string) : string :=
  main.PutLittleEndian 4 version +:+ first +:+ String NUL final
  +:+ String NUL EmptyString.

End wire.

(* ===================================================================== *)
(** ** The handshake scenario *)
(* ===================================================================== *)

Module scenario.
Import server.

(** The 32 bytes the stored hash decodes to. *)
Definition storedPasswordHash : string :=
  default "" (crypto.base64_DecodeString adminPasswordHash).

(** The client-first message of the happy handshake. *)
Definition clientFirst : clientAuthenticationMessage :=
  mkClientMessage 0 "n,,n=admin,r=rOprNGfwEbeRWgbNEkqO" "SCRAM-SHA-256".

(** Eighteen bytes for the server nonce. *)
Definition serverNonceBuf : string := "0123456789abcdefgh".

(** The authenticator after the server-first message. *)
Definition afterServerFirst : scramAuthenticator :=
  (writeServerAuthenticationMessage crypto.base64_EncodeToString
     (readClientAuthenticationMessage newAuthenticator clientFirst).1
     serverNonceBuf).1.

(** The proof a client computes for this exchange with the password of
    the stored hash. *)
Definition clientProof : string :=
  "owH25KPlHw+b1KfEBeFEioKtpAaLmTphn2FXrt3TVNs=".

Definition readProof :=
  readClientAuthenticationProof crypto.hmac_sha256 crypto.sha256_Sum256
    crypto.base64_EncodeToString crypto.base64_DecodeString.

(** The client-final message of the happy handshake, and the JSON
    payloads of its two messages as the client writes them. *)
Definition finalMessage : clientAuthenticationMessage :=
  clientFinal "c=biws," (serverNonce afterServerFirst) clientProof.

Definition payload_of (message : clientAuthenticationMessage) : string :=
  "{" +:+ query.Quote_plain "protocol_version" +:+ ":"
  +:+ pretty (ProtocolVersion message) +:+ ","
  +:+ query.Quote_plain "authentication_method" +:+ ":"
  +:+ query.Quote_plain (AuthenticationMethod message) +:+ ","
  +:+ query.Quote_plain "authentication" +:+ ":"
  +:+ query.Quote_plain (Authentication message) +:+ "}".

Definition firstPayload : string := payload_of clientFirst.
Definition finalPayload : string := payload_of finalMessage.

(** A decoder that knows the two payloads. *)
Definition Unmarshal (buf : string)
  : result string clientAuthenticationMessage :=
  if String.eqb buf firstPayload then Ok clientFirst
  else if String.eqb buf finalPayload then Ok finalMessage
  else Err "invalid character".

(** A connection all of whose writes succeed. *)
Definition Write (message : payload) : option string := None.

(** The handshake and the connection of the scenario, on the wire. *)
Definition DoHandshake :=
  wire.DoHandshake Unmarshal Write (Some serverNonceBuf) crypto.hmac_sha256
    crypto.sha256_Sum256 crypto.base64_EncodeToString
    crypto.base64_DecodeString.

Definition handleConnection :=
  wire.handleConnection Unmarshal Write (Some serverNonceBuf)
    crypto.hmac_sha256 crypto.sha256_Sum256 crypto.base64_EncodeToString
    crypto.base64_DecodeString query.range_listed main.Parse_start_datum.

(** The three messages the server writes in the happy handshake. *)
Definition messages : list payload :=
  [ VersionPayload (mkVersionMessage true 0 0 "ReboltDB 0.1.0");
    AuthPayload
      (mkServerMessage true
         ("r=rOprNGfwEbeRWgbNEkqO" +:+ "MDEyMzQ1Njc4OWFiY2RlZmdo"
          +:+ ",s=6VRzcOVKuS8WWbOKM5Vurw==,i=4096"));
    AuthPayload
      (mkServerMessage true
         "v=c5pinXhsNcUmSqUQcyOO/VeIfQHksbnpOfg9oQxB77I=") ].

End scenario.

(* ===================================================================== *)
(** * Theorems *)
(* ===================================================================== *)

Section TypeLattice.
Import types.

Lemma IsSubTypeOf_spec t u : IsSubTypeOf t u = true ↔ Z.land t u = u.
Proof. unfold IsSubTypeOf. apply Z.eqb_eq. Qed.

Lemma IsSubTypeOf_refl t : IsSubTypeOf t t = true.
Proof. apply IsSubTypeOf_spec, Z.land_diag. Qed.

Lemma IsSubTypeOf_trans t u v :
  IsSubTypeOf t u = true → IsSubTypeOf u v = true → IsSubTypeOf t v = true.
Proof.
  rewrite !IsSubTypeOf_spec. intros Htu Huv.
  rewrite <- Huv at 1. rewrite Z.land_assoc, Htu. exact Huv.
Qed.

Lemma tags_NoDup : NoDup tags.
Proof. by apply (bool_decide_unpack _); vm_compute. Qed.

Lemma elem_of_tags t : t ∈ tags ↔ is_Some (allFlags !! t).
Proof.
  unfold allFlags, tags. split.
  - intros ([t' s] & -> & Hin)%list_elem_of_fmap. exists s.
    apply elem_of_list_to_map; [exact tags_NoDup | exact Hin].
  - intros [s Hs]. apply elem_of_list_to_map in Hs; [| exact tags_NoDup].
    apply list_elem_of_fmap. by exists (t, s).
Qed.

Lemma allFlags_size : size allFlags = 22%nat.
Proof.
  unfold allFlags. rewrite map_size_list_to_map by exact tags_NoDup.
  reflexivity.
Qed.

Lemma reachb_sound n t u : reachb n t u = true → rtc below t u.
Proof.
  revert t. induction n as [| n IH]; intros t.
  - cbn. rewrite orb_false_r. intros ->%bool_decide_eq_true. reflexivity.
  - change (reachb (S n) t u)
      with (bool_decide (t = u)
            || existsb (λ p, bool_decide (p.1 = t) && reachb n p.2 u)
                 below_entries).
    intros [->%bool_decide_eq_true | Hex]%orb_true_iff; [reflexivity |].
    apply existsb_exists in Hex as ([a b] & Hin & Hab).
    apply andb_true_iff in Hab as [<-%bool_decide_eq_true Hr].
    apply rtc_l with b; [| by apply IH].
    unfold below. by apply list_elem_of_In.
Qed.

Lemma below_IsSubTypeOf t u : below t u → IsSubTypeOf t u = true.
Proof.
  unfold below. revert t u.
  assert (H : Forall (λ p, IsSubTypeOf p.1 p.2 = true) below_entries)
    by (by apply (bool_decide_unpack _); vm_compute).
  intros t u Hin. exact (proj1 (Forall_forall _ _) H (t, u) Hin).
Qed.

Lemma rtc_below_IsSubTypeOf t u : rtc below t u → IsSubTypeOf t u = true.
Proof.
  induction 1 as [t | t m u Htm _ IH].
  - apply IsSubTypeOf_refl.
  - eapply IsSubTypeOf_trans; [by apply below_IsSubTypeOf | exact IH].
Qed.

(** On the tags, [IsSubTypeOf] answers exactly as the test table says. *)
Lemma IsSubTypeOf_expectations t u :
  t ∈ tags → u ∈ tags →
  IsSubTypeOf t u = bool_decide ((t, u) ∈ expectations).
Proof.
  assert (H : Forall (λ p, IsSubTypeOf p.1 p.2
                           = bool_decide (p ∈ expectations))
                     (cprod tags tags))
    by (by apply (bool_decide_unpack _); vm_compute).
  intros Ht Hu.
  apply (proj1 (Forall_forall _ _) H (t, u)), list_elem_of_cprod; by split.
Qed.

Lemma expectations_reach t u : (t, u) ∈ expectations → rtc below t u.
Proof.
  assert (H : Forall (λ p, reachb 3 p.1 p.2 = true) expectations)
    by (by apply (bool_decide_unpack _); vm_compute).
  intros Hin. apply (reachb_sound 3).
  exact (proj1 (Forall_forall _ _) H (t, u) Hin).
Qed.

(** C1, as stated, counts 23 tags.  The constant block declares 22, and
    so does [allFlags]: the enumeration does not have 23 tags, and the
    negative pairs number 22×22−48 = 436, not 23×23−48 = 481. *)
Lemma C1_enumeration_has_22_tags :
  ¬ (size allFlags = 23%nat) ∧ ¬ (length tags = 23%nat)
  ∧ length negative_pairs ≠ (23 * 23 - 48)%nat.
Proof.
  rewrite allFlags_size. split; [lia |]. split; vm_compute; lia.
Qed.

(** C1 (amended to 22 tags): over the 22 tags of the enumeration,
    [IsSubTypeOf] is reflexive and transitive; it answers [true] on a
    pair of tags exactly when the pair lies in the reflexive-transitive
    closure of the sparse relation of the data model, which are exactly
    the 48 pairs of the test table; on every other pair (436 of them) it
    answers [false]. *)
Theorem C1_IsSubTypeOf_closure :
  size allFlags = 22%nat
  ∧ (∀ t, t ∈ tags → IsSubTypeOf t t = true)
  ∧ (∀ t u v, t ∈ tags → u ∈ tags → v ∈ tags →
       IsSubTypeOf t u = true → IsSubTypeOf u v = true →
       IsSubTypeOf t v = true)
  ∧ (∀ t u, t ∈ tags → u ∈ tags →
       (IsSubTypeOf t u = true ↔ rtc below t u))
  ∧ (∀ t u, t ∈ tags → u ∈ tags →
       (IsSubTypeOf t u = true ↔ (t, u) ∈ expectations))
  ∧ (∀ t u, t ∈ tags → u ∈ tags →
       (IsSubTypeOf t u = false ↔ (t, u) ∉ expectations))
  ∧ length expectations = 48%nat ∧ NoDup expectations
  ∧ length positive_pairs = 48%nat
  ∧ length negative_pairs = 436%nat.
Proof.
  split; [exact allFlags_size |].
  split; [intros; apply IsSubTypeOf_refl |].
  split; [intros t u v _ _ _; apply IsSubTypeOf_trans |].
  assert (Hexp : ∀ t u, t ∈ tags → u ∈ tags →
            (IsSubTypeOf t u = true ↔ (t, u) ∈ expectations)).
  { intros t u Ht Hu. rewrite (IsSubTypeOf_expectations t u Ht Hu).
    apply bool_decide_eq_true. }
  split.
  { intros t u Ht Hu. split; [| apply rtc_below_IsSubTypeOf].
    intros H. by apply expectations_reach, Hexp. }
  split; [exact Hexp |].
  split.
  { intros t u Ht Hu. rewrite (IsSubTypeOf_expectations t u Ht Hu).
    apply bool_decide_eq_false. }
  split; [reflexivity |].
  split; [by apply (bool_decide_unpack _); vm_compute |].
  split; reflexivity.
Qed.

(** The closure statement of C1 at the pair (Table, Sequence), which is
    related through SelectionStream and Stream, and at the unrelated
    pair (Table, Datum). *)
Lemma C1_IsSubTypeOf_closure_witness :
  (IsSubTypeOf Table Sequence = true ↔ rtc below Table Sequence)
  ∧ IsSubTypeOf Table Sequence = true
  ∧ (IsSubTypeOf Table Datum = false ↔ (Table, Datum) ∉ expectations)
  ∧ IsSubTypeOf Table Datum = false.
Proof.
  destruct C1_IsSubTypeOf_closure as (_ & _ & _ & Hrtc & _ & Hneg & _).
  assert (Ht : Table ∈ tags) by (by apply (bool_decide_unpack _); vm_compute).
  assert (Hs : Sequence ∈ tags) by (by apply (bool_decide_unpack _); vm_compute).
  assert (Hd : Datum ∈ tags) by (by apply (bool_decide_unpack _); vm_compute).
  split; [exact (Hrtc _ _ Ht Hs) |].
  split; [reflexivity |].
  split; [exact (Hneg _ _ Ht Hd) |]. reflexivity.
Defined.

End TypeLattice.

(* --------------------------------------------------------------------- *)
(** ** JSON values: induction through lists and maps *)
(* --------------------------------------------------------------------- *)

Section ValueInduction.
Import json.

Lemma Value_size_elem (a : list Value) (v : Value) :
  v ∈ a → (Value_size v < Value_size (Array a))%nat.
Proof.
  cbn [Value_size]. induction 1 as [v a | v w a _ IH]; cbn [foldr]; lia.
Qed.

Lemma Value_size_lookup (o : gmap string Value) (k : string) (v : Value) :
  o !! k = Some v → (Value_size v < Value_size (Object o))%nat.
Proof.
  intros Hk. cbn [Value_size].
  rewrite (map_fold_delete_L _ _ k v o); [lia | intros; lia | exact Hk].
Qed.

(** Induction on a value, with the hypothesis available for every
    element of an array and every entry of an object. *)
Lemma Value_nested_ind (P : Value → Prop) :
  P Null → (∀ b, P (Bool b)) → (∀ n, P (Number n)) → (∀ s, P (String s)) →
  (∀ a, Forall P a → P (Array a)) →
  (∀ o, map_Forall (λ _, P) o → P (Object o)) →
  ∀ v, P v.
Proof.
  intros HNull HBool HNumber HString HArray HObject v.
  assert (H : ∀ n w, (Value_size w < n)%nat → P w);
    [| exact (H (S (Value_size v)) v (Nat.lt_succ_diag_r _))].
  induction n as [| n IH]; intros w Hw; [lia |].
  destruct w as [| b | f | s | a | o]; auto.
  - apply HArray, Forall_forall. intros x Hx. apply IH.
    pose proof (Value_size_elem a x Hx). lia.
  - apply HObject. intros k x Hk. apply IH.
    pose proof (Value_size_lookup o k x Hk). lia.
Qed.

End ValueInduction.

(* --------------------------------------------------------------------- *)
(** ** Term construction *)
(* --------------------------------------------------------------------- *)

Section TermLoops.
Import query.

(** *** The loop over positional arguments *)

Lemma argsLoop_Ok mk termType i argVals ts :
  argsLoop mk termType i argVals = Ok ts →
  Forall2 (λ argVal t, mk argVal = Ok t) argVals ts.
Proof.
  revert i ts. induction argVals as [| argVal rest IH]; intros i ts; cbn.
  - intros [= <-]. constructor.
  - destruct (mk argVal) as [t | err] eqn:Hmk; [| discriminate].
    destruct (argsLoop mk termType (S i) rest) as [ts' | e] eqn:Hrest;
      [| discriminate].
    intros [= <-]. constructor; [exact Hmk | by eapply IH].
Qed.

Lemma argsLoop_all_Ok mk termType i argVals :
  Forall (λ argVal, ∃ t, mk argVal = Ok t) argVals →
  ∃ ts, argsLoop mk termType i argVals = Ok ts.
Proof.
  intros Hall. revert i.
  induction Hall as [| argVal rest [t Ht] _ IH]; intros i; cbn.
  - by eexists.
  - rewrite Ht. destruct (IH (S i)) as [ts ->]. by eexists.
Qed.

(** A failing loop stopped at the first argument whose translation
    fails, with that argument's index and error. *)
Lemma argsLoop_Err_inv mk termType i argVals e :
  argsLoop mk termType i argVals = Err e →
  ∃ (j : nat) argVal err,
    argVals !! j = Some argVal ∧ mk argVal = Err err
    ∧ (∀ k argVal', (k < j)%nat → argVals !! k = Some argVal' →
         ∃ t, mk argVal' = Ok t)
    ∧ e = ErrArg termType (i + j) err.
Proof.
  revert i. induction argVals as [| argVal rest IH]; intros i; cbn.
  - discriminate.
  - destruct (mk argVal) as [t | err] eqn:Hmk.
    + destruct (argsLoop mk termType (S i) rest) as [ts | e'] eqn:Hrest;
        [discriminate |].
      intros [= <-].
      destruct (IH _ Hrest) as (j & argVal' & err & Hj & Herr & Hbefore & ->).
      exists (S j), argVal', err. split_and!; try done.
      * intros [| k] v Hk Hv; [cbn in Hv; naive_solver |].
        apply (Hbefore k v); [lia | done].
      * f_equal. lia.
    + intros [= <-]. exists 0%nat, argVal, err. split_and!; try done.
      * intros k v Hk. lia.
      * f_equal. lia.
Qed.

Lemma argsLoop_fails mk termType i argVals j argVal err :
  argVals !! j = Some argVal → mk argVal = Err err →
  (∀ k argVal', (k < j)%nat → argVals !! k = Some argVal' →
     ∃ t, mk argVal' = Ok t) →
  argsLoop mk termType i argVals = Err (ErrArg termType (i + j) err).
Proof.
  revert i j. induction argVals as [| v rest IH]; intros i j Hj Herr Hbefore.
  - by rewrite lookup_nil in Hj.
  - cbn. destruct j as [| j].
    + cbn in Hj. injection Hj as ->. rewrite Herr. do 2 f_equal. lia.
    + destruct (Hbefore 0%nat v) as [t ->]; [lia | done |].
      rewrite (IH (S i) j); [do 2 f_equal; lia | done | done |].
      intros k w Hk Hw. apply (Hbefore (S k) w); [lia | done].
Qed.

(** Some argument fails: so does the loop. *)
Lemma argsLoop_fails_elem mk termType i argVals argVal err :
  argVal ∈ argVals → mk argVal = Err err →
  ∃ e, argsLoop mk termType i argVals = Err e.
Proof.
  intros Hin Herr.
  destruct (argsLoop mk termType i argVals) as [ts | e] eqn:Hloop;
    [| by eexists].
  apply argsLoop_Ok in Hloop.
  apply list_elem_of_lookup in Hin as [j Hj].
  destruct (Forall2_lookup_l _ _ _ _ _ Hloop Hj) as (t & _ & Ht).
  congruence.
Qed.

End TermLoops.

Section OptArgsLoop.
Import query.

(** *** The loop over the entries of an object *)

Lemma optArgsLoop_Ok context entries termOptArgs res :
  NoDup entries.*1 →
  optArgsLoop context entries termOptArgs = Ok res →
  (∀ key r, (key, r) ∈ entries → ∃ t, r = Ok t ∧ res !! key = Some t)
  ∧ (∀ key, key ∉ entries.*1 → res !! key = termOptArgs !! key).
Proof.
  revert termOptArgs.
  induction entries as [| [key0 r0] rest IH]; intros acc Hnd; cbn.
  - intros [= <-]. split; [| done]. by intros ? ? ?%elem_of_nil.
  - apply NoDup_cons in Hnd as [Hfresh Hnd].
    destruct r0 as [t0 | err]; [| discriminate]. intros Hloop.
    destruct (IH _ Hnd Hloop) as [Hin Hout]. split.
    + intros key r [[= -> ->] | Hrest]%elem_of_cons; [| by apply Hin].
      exists t0. split; [done |].
      rewrite (Hout key0 Hfresh). apply lookup_insert_eq.
    + intros key [Hne Hkey]%not_elem_of_cons.
      rewrite (Hout key Hkey). by apply lookup_insert_ne.
Qed.

Lemma optArgsLoop_all_Ok context entries termOptArgs :
  (∀ key r, (key, r) ∈ entries → ∃ t, r = Ok t) →
  ∃ res, optArgsLoop context entries termOptArgs = Ok res.
Proof.
  revert termOptArgs.
  induction entries as [| [key0 r0] rest IH]; intros acc Hall; cbn.
  - by eexists.
  - destruct (Hall key0 r0) as [t0 ->]; [left |].
    apply IH. intros key r Hin. apply (Hall key r). by right.
Qed.

(** A failing loop stopped at an entry whose translation fails, with
    that entry's key and error; the entries before it translate. *)
Lemma optArgsLoop_Err_inv context entries termOptArgs e :
  optArgsLoop context entries termOptArgs = Err e →
  ∃ before key err after,
    entries = before ++ (key, Err err) :: after
    ∧ Forall (λ kr, ∃ t, kr.2 = Ok t) before
    ∧ e = context key err.
Proof.
  revert termOptArgs.
  induction entries as [| [key0 r0] rest IH]; intros acc; cbn.
  - discriminate.
  - destruct r0 as [t0 | err].
    + intros (before & key & err & after & -> & Hbefore & ->)%IH.
      exists ((key0, Ok t0) :: before), key, err, after.
      split_and!; [done | | done]. constructor; [by eexists | done].
    + intros [= <-]. exists [], key0, err, rest. by split_and!.
Qed.

Lemma optArgsLoop_fails context entries termOptArgs key err :
  (key, Err err) ∈ entries →
  ∃ e, optArgsLoop context entries termOptArgs = Err e.
Proof.
  intros Hin.
  destruct (optArgsLoop context entries termOptArgs) as [res | e] eqn:Hloop;
    [| by eexists].
  exfalso. revert termOptArgs Hloop.
  induction entries as [| [key0 r0] rest IH]; intros acc; cbn.
  - by apply elem_of_nil in Hin.
  - apply elem_of_cons in Hin as [[= <- <-] | Hin]; [discriminate |].
    destruct r0; [by apply IH | discriminate].
Qed.

(** *** Under any iteration order *)

Variable range :
  gmap string (result error Term) → list (string * result error Term).
Hypothesis range_Permutation : ∀ m, range m ≡ₚ map_to_list m.

Lemma elem_of_range m key r : (key, r) ∈ range m ↔ m !! key = Some r.
Proof. rewrite (range_Permutation m). apply elem_of_map_to_list. Qed.

Lemma range_NoDup m : NoDup (range m).*1.
Proof. rewrite (range_Permutation m). apply NoDup_fst_map_to_list. Qed.

(** The loop succeeds exactly when every entry translates, and then
    returns the map of the translations. *)
Lemma optArgsLoop_range_Ok context (m : gmap string (result error Term))
    (opts : gmap string Term) :
  optArgsLoop context (range m) ∅ = Ok opts ↔ m = Ok <$> opts.
Proof.
  assert (Hdir : ∀ res, optArgsLoop context (range m) ∅ = Ok res →
                        m = Ok <$> res).
  { intros res [Hin Hout]%optArgsLoop_Ok; [| apply range_NoDup].
    apply map_eq. intros key. rewrite lookup_fmap.
    destruct (m !! key) as [r |] eqn:Hm.
    - apply elem_of_range, Hin in Hm as (t & -> & ->). done.
    - rewrite Hout, lookup_empty; [done |].
      intros ([key' r] & -> & Hr%elem_of_range)%list_elem_of_fmap.
      cbn in Hm. congruence. }
  split; [apply Hdir |]. intros ->.
  destruct (optArgsLoop_all_Ok context (range (Ok <$> opts)) ∅)
    as [res Hres].
  { intros key r (t & <- & _)%elem_of_range%lookup_fmap_Some. by eexists. }
  rewrite Hres. f_equal. apply Hdir in Hres.
  apply map_eq. intros key. apply (f_equal (.!! key)) in Hres.
  rewrite !lookup_fmap in Hres.
  destruct (opts !! key), (res !! key); cbn in Hres; congruence.
Qed.

(** The loop fails exactly when some entry fails to translate; the
    error is the error of one failing entry, in the context of its key. *)
Lemma optArgsLoop_range_Err_inv context m e :
  optArgsLoop context (range m) ∅ = Err e →
  ∃ key err, m !! key = Some (Err err) ∧ e = context key err.
Proof.
  intros (before & key & err & after & Heq & _ & ->)%optArgsLoop_Err_inv.
  exists key, err. split; [| done].
  apply elem_of_range. rewrite Heq. apply elem_of_app. right. left.
Qed.

Lemma optArgsLoop_range_fails context m key err :
  m !! key = Some (Err err) →
  ∃ e, optArgsLoop context (range m) ∅ = Err e.
Proof. intros Hm%elem_of_range. by eapply optArgsLoop_fails. Qed.

End OptArgsLoop.

Section TermTree.
Import query.

Variable range :
  gmap string (result error Term) → list (string * result error Term).
Hypothesis range_Permutation : ∀ m, range m ≡ₚ map_to_list m.

#[local] Arguments argsLoop : simpl never.
#[local] Arguments optArgsLoop : simpl never.

Lemma MakeTermTree_Object object :
  MakeTermTree range (json.Object object) = makeObjectTerm range object.
Proof. reflexivity. Qed.

Lemma makeObjectTerm_Ok object t :
  makeObjectTerm range object = Ok t ↔
  ∃ opts, MakeTermTree range <$> object = Ok <$> opts
          ∧ t = {| Type_ := ql2.Term_MAKE_OBJ; Args := None;
                   OptArgs := Some opts; Datum := None |}.
Proof.
  unfold makeObjectTerm, makeObjectTerm_body.
  destruct (optArgsLoop ErrObj _ ∅) as [opts | e] eqn:Hloop.
  - apply (optArgsLoop_range_Ok range range_Permutation) in Hloop. split.
    + intros [= <-]. by exists opts.
    + intros (opts' & Hopts' & ->). do 3 f_equal.
      apply map_eq. intros key.
      assert (H : (Ok <$> opts : gmap string (result error Term)) !! key
                  = (Ok <$> opts') !! key) by congruence.
      rewrite !lookup_fmap in H.
      destruct (opts !! key), (opts' !! key); cbn in H; congruence.
  - split; [discriminate |]. intros (opts' & Hopts' & _).
    apply (optArgsLoop_range_Ok range range_Permutation ErrObj) in Hopts'.
    congruence.
Qed.

(** C6: a JSON object all of whose entries translate is translated to a
    MAKE_OBJ term without positional arguments and without embedded
    value, whose named options have exactly the keys of the object,
    each mapped to the translation of the entry's value. *)
Theorem C6_object_translates_to_MAKE_OBJ (o : gmap string json.Value) :
  (∀ key val, o !! key = Some val → ∃ t, MakeTermTree range val = Ok t) →
  ∃ opts : gmap string Term,
    MakeTermTree range (json.Object o)
    = Ok {| Type_ := ql2.Term_MAKE_OBJ; Args := None;
            OptArgs := Some opts; Datum := None |}
    ∧ dom opts = dom o
    ∧ (∀ key val, o !! key = Some val →
         ∃ t, MakeTermTree range val = Ok t ∧ opts !! key = Some t)
    ∧ (∀ key t, opts !! key = Some t →
         ∃ val, o !! key = Some val ∧ MakeTermTree range val = Ok t).
Proof.
  intros Hall.
  destruct (optArgsLoop_all_Ok ErrObj (range (MakeTermTree range <$> o)) ∅)
    as [opts Hloop].
  { intros key r (val & <- & Hval)%(elem_of_range range range_Permutation)
                                  %lookup_fmap_Some.
    exact (Hall key val Hval). }
  exists opts. split.
  { rewrite MakeTermTree_Object. unfold makeObjectTerm, makeObjectTerm_body.
    by rewrite Hloop. }
  apply (optArgsLoop_range_Ok range range_Permutation) in Hloop.
  assert (Hlook : ∀ key, MakeTermTree range <$> o !! key = Ok <$> opts !! key).
  { intros key. rewrite <- !lookup_fmap. by rewrite Hloop. }
  split_and!.
  - apply (f_equal dom) in Hloop. by rewrite !dom_fmap_L in Hloop.
  - intros key val Hval. specialize (Hlook key). rewrite Hval in Hlook.
    destruct (opts !! key) as [t |]; [| done]. exists t.
    cbn in Hlook. split; congruence.
  - intros key t Ht. specialize (Hlook key). rewrite Ht in Hlook.
    destruct (o !! key) as [val |]; [| done]. exists val.
    cbn in Hlook. split; congruence.
Qed.

(** The translation of a term array of one to three elements whose
    element 0 is a number, stage by stage. *)
Lemma MakeTermTree_Array_Number n rest :
  (length rest ≤ 2)%nat →
  MakeTermTree range (json.Array (json.Number n :: rest)) =
  let termType := termType_of (json.Number n) in
  match
    match rest with
    | [] => Ok None
    | json.Array argVals :: _ =>
        match argsLoop (MakeTermTree range) termType 0 argVals with
        | Err e => Err e
        | Ok ts => Ok (Some ts)
        end
    | termArray1 :: _ => Err (ErrArgsType (json.ValueType_of termArray1))
    end
  with
  | Err e => Err e
  | Ok termArgs =>
      match
        match rest with
        | _ :: json.Object optArgVals :: _ =>
            match optArgsLoop (ErrOptArg termType)
                    (range (MakeTermTree range <$> optArgVals)) ∅ with
            | Err e => Err e
            | Ok m => Ok (Some m)
            end
        | _ :: termArray2 :: _ =>
            Err (ErrOptArgsType (json.ValueType_of termArray2))
        | _ => Ok None
        end
      with
      | Err e => Err e
      | Ok termOptArgs =>
          Ok {| Type_ := termType; Args := termArgs;
                OptArgs := termOptArgs; Datum := None |}
      end
  end.
Proof.
  destruct rest as [| e1 [| e2 [| e3 tl]]]; cbn [length]; intros Hlen;
    [reflexivity .. | lia].
Qed.

(** C7: the translation of a term array fails exactly when the array
    has no element or more than three, element 0 is not a number,
    element 1 is present and not an array, element 2 is present and not
    an object, or the translation of an entry of element 1 or of
    element 2 fails.  The array [[15]] is accepted and gives a term of
    operator 15 without positional arguments. *)
Theorem C7_term_array_error_cases :
  (∀ termArray : list json.Value,
     (∃ e, MakeTermTree range (json.Array termArray) = Err e) ↔
     length termArray = 0%nat ∨ (3 < length termArray)%nat
     ∨ (∃ v, termArray !! 0%nat = Some v ∧ json.IsNumber v = false)
     ∨ (∃ v, termArray !! 1%nat = Some v ∧ json.IsArray v = false)
     ∨ (∃ v, termArray !! 2%nat = Some v ∧ json.IsObject v = false)
     ∨ (∃ argVals argVal e,
          termArray !! 1%nat = Some (json.Array argVals)
          ∧ argVal ∈ argVals ∧ MakeTermTree range argVal = Err e)
     ∨ (∃ optArgVals key val e,
          termArray !! 2%nat = Some (json.Object optArgVals)
          ∧ optArgVals !! key = Some val
          ∧ MakeTermTree range val = Err e))
  ∧ MakeTermTree range (json.Array [json.number_of_Z 15])
    = Ok {| Type_ := 15; Args := None; OptArgs := None; Datum := None |}.
Proof.
  split; [| reflexivity].
  intros termArray.
  destruct termArray as [| e0 rest].
  { split; [by left | by eexists]. }
  destruct (decide (length rest ≤ 2)%nat) as [Hlen | Hlen].
  2: { split; [intros _; right; left; cbn; lia |].
       destruct rest as [| e1 [| e2 [| e3 tl]]]; cbn in Hlen; try lia.
       by eexists. }
  destruct e0 as [| b | n | s | a | o];
    try (split; [intros _; do 2 right; left; by eexists
                | destruct rest as [| e1 [| e2 [| e3 tl]]];
                  cbn in Hlen; try lia; by eexists]).
  rewrite (MakeTermTree_Array_Number n rest Hlen). cbn zeta.
  set (termType := termType_of (json.Number n)).
  split.
  - (* a failure has one of the listed causes *)
    intros [e He]. do 3 right.
    destruct rest as [| e1 rest]; [discriminate |].
    destruct e1 as [| b1 | n1 | s1 | argVals | o1];
      try (left; by eexists).
    destruct (argsLoop _ termType 0 argVals) as [ts | e'] eqn:Hargs.
    2: { apply argsLoop_Err_inv in Hargs
           as (j & argVal & err & Hj & Herr & _).
         do 2 right. left. exists argVals, argVal, err.
         split_and!; [done | by eapply list_elem_of_lookup_2 | done]. }
    destruct rest as [| e2 rest]; [discriminate |].
    right.
    destruct e2 as [| b2 | n2 | s2 | a2 | optArgVals];
      try (left; by eexists).
    destruct (optArgsLoop _ _ ∅) as [m | e''] eqn:Hopts; [discriminate |].
    apply (optArgsLoop_range_Err_inv range range_Permutation) in Hopts
      as (key & err & (val & Hval & Hkey)%lookup_fmap_Some & _).
    do 2 right. by exists optArgVals, key, val, err.
  - (* each cause makes the translation fail *)
    intros [Hc | [Hc | [Hc | Hc]]]; [discriminate | cbn in Hc; lia | |].
    { destruct Hc as (v & [= <-] & [=]). }
    destruct rest as [| e1 rest].
    { destruct Hc as [Hc | [Hc | [Hc | Hc]]]; naive_solver. }
    destruct e1 as [| b1 | n1 | s1 | argVals | o1]; try by eexists.
    destruct (argsLoop _ termType 0 argVals) as [ts | e'] eqn:Hargs;
      [| by eexists].
    destruct rest as [| e2 rest].
    { destruct Hc as [Hc | [Hc | [Hc | Hc]]]; try naive_solver.
      destruct Hc as (argVals' & argVal & err & [= <-] & Hin & Herr).
      destruct (argsLoop_fails_elem (MakeTermTree range) termType 0
                  argVals argVal err Hin Herr) as [e'' He''].
      congruence. }
    destruct e2 as [| b2 | n2 | s2 | a2 | optArgVals]; try by eexists.
    destruct (optArgsLoop _ _ ∅) as [m | e''] eqn:Hopts; [| by eexists].
    destruct Hc as [Hc | [Hc | [Hc | Hc]]]; try naive_solver.
    + destruct Hc as (argVals' & argVal & err & [= <-] & Hin & Herr).
      destruct (argsLoop_fails_elem (MakeTermTree range) termType 0
                  argVals argVal err Hin Herr) as [e'' He''].
      congruence.
    + destruct Hc as (o' & key & val & err & [= <-] & Hval & Herr).
      destruct (optArgsLoop_range_fails range range_Permutation
                  (ErrOptArg termType) (MakeTermTree range <$> optArgVals)
                  key err) as [e'' He''].
      { by rewrite lookup_fmap, Hval; cbn; rewrite Herr. }
      congruence.
Qed.

(** *** What a successful translation returns *)

Lemma MakeTermTree_scalar_Ok value :
  json.IsArray value = false → json.IsObject value = false →
  MakeTermTree range value
  = Ok {| Type_ := ql2.Term_DATUM; Args := None; OptArgs := None;
          Datum := Some value |}.
Proof. by destruct value. Qed.

Lemma MakeTermTree_Object_Ok o t :
  MakeTermTree range (json.Object o) = Ok t →
  Type_ t = ql2.Term_MAKE_OBJ ∧ Args t = None ∧ Datum t = None
  ∧ ∀ key t', optArgs_of t !! key = Some t' →
      ∃ val, o !! key = Some val ∧ MakeTermTree range val = Ok t'.
Proof.
  rewrite MakeTermTree_Object. intros (opts & Hopts & ->)%makeObjectTerm_Ok.
  split_and!; try done. cbn. intros key t' Ht'.
  apply (f_equal (.!! key)) in Hopts. rewrite !lookup_fmap, Ht' in Hopts.
  destruct (o !! key) as [val |]; [| done]. exists val.
  cbn in Hopts. split; congruence.
Qed.

Lemma MakeTermTree_Array_Ok termArray t :
  MakeTermTree range (json.Array termArray) = Ok t →
  ∃ n, termArray !! 0%nat = Some (json.Number n)
    ∧ Type_ t = termType_of (json.Number n) ∧ Datum t = None
    ∧ (∀ t', t' ∈ args_of t →
         ∃ argVals argVal,
           termArray !! 1%nat = Some (json.Array argVals)
           ∧ argVal ∈ argVals ∧ MakeTermTree range argVal = Ok t')
    ∧ (∀ key t', optArgs_of t !! key = Some t' →
         ∃ optArgVals val,
           termArray !! 2%nat = Some (json.Object optArgVals)
           ∧ optArgVals !! key = Some val
           ∧ MakeTermTree range val = Ok t').
Proof.
  destruct termArray as [| e0 rest]; [discriminate |].
  destruct (decide (length rest ≤ 2)%nat) as [Hlen | Hlen].
  2: { destruct rest as [| e1 [| e2 [| e3 tl]]]; cbn in Hlen; try lia.
       discriminate. }
  destruct e0 as [| b | n | s | a | o];
    try (destruct rest as [| e1 [| e2 [| e3 tl]]]; discriminate).
  rewrite (MakeTermTree_Array_Number n rest Hlen). cbn zeta.
  set (termType := termType_of (json.Number n)).
  intros Hmk. exists n. split; [done |].
  destruct rest as [| e1 rest].
  { injection Hmk as <-. split_and!; try done.
    all: try (by intros t' ?%elem_of_nil).
    all: intros key t' Hk; by rewrite lookup_empty in Hk. }
  destruct e1 as [| b1 | n1 | s1 | argVals | o1]; try discriminate.
  destruct (argsLoop _ termType 0 argVals) as [ts | e'] eqn:Hargs;
    [| discriminate].
  apply argsLoop_Ok in Hargs.
  assert (Hts : ∀ t', t' ∈ ts →
            ∃ argVal, argVal ∈ argVals ∧ MakeTermTree range argVal = Ok t').
  { intros t' [j Hj]%list_elem_of_lookup.
    destruct (Forall2_lookup_r _ _ _ _ _ Hargs Hj) as (argVal & Hv & Ht).
    exists argVal. split; [by eapply list_elem_of_lookup_2 | done]. }
  destruct rest as [| e2 rest].
  { injection Hmk as <-. split_and!; try done.
    all: try (intros t' (argVal & ? & ?)%Hts; by exists argVals, argVal).
    all: intros key t' Hk; by rewrite lookup_empty in Hk. }
  destruct e2 as [| b2 | n2 | s2 | a2 | optArgVals]; try discriminate.
  destruct (optArgsLoop _ _ ∅) as [m | e''] eqn:Hopts; [| discriminate].
  apply (optArgsLoop_range_Ok range range_Permutation) in Hopts.
  injection Hmk as <-. split_and!; try done.
  - intros t' (argVal & ? & ?)%Hts. by exists argVals, argVal.
  - cbn. intros key t' Ht'.
    apply (f_equal (.!! key)) in Hopts. rewrite !lookup_fmap, Ht' in Hopts.
    destruct (optArgVals !! key) as [val |] eqn:Hval; [| done].
    exists optArgVals, val. cbn in Hopts. split_and!; congruence.
Qed.

(** Induction on a value along the descent of [MakeTermTree]: into the
    entries of an object, and into the entries of elements 1 and 2 of a
    term array. *)
Lemma MakeTermTree_descent_ind (P : json.Value → Prop) :
  P json.Null → (∀ b, P (json.Bool b)) → (∀ n, P (json.Number n)) →
  (∀ s, P (json.String s)) →
  (∀ o, map_Forall (λ _, P) o → P (json.Object o)) →
  (∀ termArray,
     (∀ argVals, termArray !! 1%nat = Some (json.Array argVals) →
        Forall P argVals) →
     (∀ o, termArray !! 2%nat = Some (json.Object o) →
        map_Forall (λ _, P) o) →
     P (json.Array termArray)) →
  ∀ v, P v.
Proof.
  intros HNull HBool HNumber HString HObject HArray v.
  pose (Q := λ w : json.Value,
          P w ∧ match w with
                | json.Array a => Forall P a
                | json.Object o => map_Forall (λ _, P) o
                | _ => True
                end).
  assert (HQ : Q v); [| exact (proj1 HQ)].
  induction v as [| b | n | s | a IH | o IH] using Value_nested_ind;
    try (split; by auto).
  - assert (Ha : Forall P a) by (eapply Forall_impl; [exact IH | by intros ? []]).
    split; [| exact Ha]. apply HArray.
    + intros argVals Hl.
      apply (proj1 (Forall_forall _ _) IH (json.Array argVals)).
      by eapply list_elem_of_lookup_2.
    + intros o' Hl.
      apply (proj1 (Forall_forall _ _) IH (json.Object o')).
      by eapply list_elem_of_lookup_2.
  - assert (Ho : map_Forall (λ _, P) o)
      by (intros key w Hk; exact (proj1 (IH key w Hk))).
    split; [by apply HObject | exact Ho].
Qed.

(** A property of the node [MakeTermTree] builds for a value, under a
    condition on values that passes to the values it descends to, holds
    at every node of the tree. *)
Lemma MakeTermTree_Forall_nodes (Q : json.Value → Prop) (P : Term → Prop) :
  (∀ o, Q (json.Object o) → map_Forall (λ _, Q) o) →
  (∀ termArray argVals, Q (json.Array termArray) →
     termArray !! 1%nat = Some (json.Array argVals) → Forall Q argVals) →
  (∀ termArray o, Q (json.Array termArray) →
     termArray !! 2%nat = Some (json.Object o) → map_Forall (λ _, Q) o) →
  (∀ value t, Q value → MakeTermTree range value = Ok t → P t) →
  ∀ value t, Q value → MakeTermTree range value = Ok t → Forall_nodes P t.
Proof.
  intros HQo HQargs HQopts Hroot value.
  induction value as [| b | n | s | o IH | termArray IHargs IHopts]
    using MakeTermTree_descent_ind; intros t HQ Hmk;
    try (constructor; [by eapply Hroot | |];
         injection Hmk as <-; [by constructor | by intros ? ? ?]).
  - constructor; [by eapply Hroot | |];
      apply MakeTermTree_Object_Ok in Hmk as (_ & Hargs & _ & Hopts).
    + unfold args_of. rewrite Hargs. constructor.
    + intros key t' (val & Hval & Hmk')%Hopts.
      apply (IH key val Hval t'); [| done]. exact (HQo o HQ key val Hval).
  - constructor; [by eapply Hroot | |];
      apply MakeTermTree_Array_Ok in Hmk as (n & _ & _ & _ & Hargs & Hopts).
    + apply Forall_forall.
      intros t' (argVals & argVal & Hl & Hin & Hmk')%Hargs.
      apply (proj1 (Forall_forall _ _) (IHargs argVals Hl) argVal Hin);
        [| done].
      exact (proj1 (Forall_forall _ _) (HQargs _ _ HQ Hl) argVal Hin).
    + intros key t' (o & val & Hl & Hval & Hmk')%Hopts.
      apply (IHopts o Hl key val Hval t'); [| done].
      exact (HQopts _ _ HQ Hl key val Hval).
Qed.

(** *** The invariant of the data model (C4) *)

Lemma MakeTermTree_node_embedding value t :
  MakeTermTree range value = Ok t → node_embedding t.
Proof.
  destruct value as [| b | n | s | a | o]; intros Hmk;
    try (injection Hmk as <-; split; [done | by intros _]).
  - apply MakeTermTree_Array_Ok in Hmk as (n & _ & _ & HDatum & _).
    unfold node_embedding. rewrite HDatum. split; [done | by intros [? [=]]].
  - apply MakeTermTree_Object_Ok in Hmk as (_ & _ & HDatum & _).
    unfold node_embedding. rewrite HDatum. split; [done | by intros [? [=]]].
Qed.

Lemma MakeTermTree_node_invariant value t :
  operators_plain value → MakeTermTree range value = Ok t →
  node_invariant t.
Proof.
  destruct value as [| b | n | s | a | o]; intros Hplain Hmk;
    try (injection Hmk as <-; split_and!; cbn; by eauto).
  - apply MakeTermTree_Array_Ok in Hmk as (n & H0 & HType & HDatum & _).
    inversion Hplain as [| | | | | ? Hop _ _]; subst.
    destruct (Hop _ H0) as [HnotD HnotO].
    unfold node_invariant. rewrite HType, HDatum. by split_and!.
  - apply MakeTermTree_Object_Ok in Hmk as (HType & HArgs & HDatum & _).
    unfold node_invariant, args_of. rewrite HType, HArgs, HDatum.
    by split_and!.
Qed.

(** C4 (amended): in every term [MakeTermTree] returns, a node that is
    not DATUM has no embedded value, and a node with an embedded value
    is a DATUM node without positional arguments and named options.
    When no term array of the input carries the code of DATUM or of
    MAKE_OBJ in its element 0, every node satisfies the whole
    invariant: DATUM nodes have no arguments, no options and an
    embedded value; other nodes have no embedded value; MAKE_OBJ nodes
    have no positional arguments. *)
Theorem C4_invariant_of_returned_terms :
  (∀ value t, MakeTermTree range value = Ok t →
     Forall_nodes node_embedding t)
  ∧ (∀ value t, operators_plain value → MakeTermTree range value = Ok t →
       Forall_nodes node_invariant t).
Proof.
  split.
  - intros value t.
    apply (MakeTermTree_Forall_nodes (λ _, True) node_embedding);
      try done.
    + intros. by apply Forall_forall.
    + intros ? ? _. apply MakeTermTree_node_embedding.
  - apply (MakeTermTree_Forall_nodes operators_plain node_invariant).
    + by inversion 1.
    + inversion 1; auto.
    + inversion 1; auto.
    + apply MakeTermTree_node_invariant.
Qed.

(** *** Errors of the children (C8) *)

(** C8 (amended): when the translation of a child fails, a term array
    returns the child's error in a context naming its operator and
    [arg[i]] for the positional argument at index [i] (the first one
    that fails), or [optArg[key]] for a failing named option; a JSON
    object returns the error of a failing entry in the context
    [obj[key]], which does not name an operator. *)
Theorem C8_child_errors_in_context :
  (∀ n argVals rest (i : nat) argVal err,
     (length rest ≤ 1)%nat →
     argVals !! i = Some argVal → MakeTermTree range argVal = Err err →
     (∀ k v, (k < i)%nat → argVals !! k = Some v →
        ∃ t, MakeTermTree range v = Ok t) →
     MakeTermTree range
       (json.Array (json.Number n :: json.Array argVals :: rest))
     = Err (ErrArg (termType_of (json.Number n)) i err))
  ∧ (∀ n argVals optArgVals,
       Forall (λ v, ∃ t, MakeTermTree range v = Ok t) argVals →
       (∃ key val err, optArgVals !! key = Some val
                       ∧ MakeTermTree range val = Err err) →
       ∃ key val err,
         optArgVals !! key = Some val ∧ MakeTermTree range val = Err err
         ∧ MakeTermTree range
             (json.Array [json.Number n; json.Array argVals;
                          json.Object optArgVals])
           = Err (ErrOptArg (termType_of (json.Number n)) key err))
  ∧ (∀ o,
       (∃ key val err, o !! key = Some val
                       ∧ MakeTermTree range val = Err err) →
       ∃ key val err,
         o !! key = Some val ∧ MakeTermTree range val = Err err
         ∧ MakeTermTree range (json.Object o) = Err (ErrObj key err))
  ∧ (∀ strconv_Quote termType (i : nat) key err,
       Error strconv_Quote (ErrArg termType i err)
       = termName termType +:+ " arg[" +:+ pretty i +:+ "] -> "
         +:+ Error strconv_Quote err
       ∧ Error strconv_Quote (ErrOptArg termType key err)
         = termName termType +:+ " optArg[" +:+ strconv_Quote key
           +:+ "] -> " +:+ Error strconv_Quote err
       ∧ Error strconv_Quote (ErrObj key err)
         = "obj[" +:+ strconv_Quote key +:+ "] -> "
           +:+ Error strconv_Quote err).
Proof.
  split_and!.
  - intros n argVals rest i argVal err Hlen Hi Herr Hbefore.
    rewrite MakeTermTree_Array_Number by (cbn; lia). cbn zeta.
    by rewrite (argsLoop_fails _ _ 0 argVals i argVal err Hi Herr Hbefore).
  - intros n argVals optArgVals Hargs (key & val & err & Hval & Herr).
    rewrite MakeTermTree_Array_Number by (cbn; lia). cbn zeta.
    destruct (argsLoop_all_Ok (MakeTermTree range)
                (termType_of (json.Number n)) 0 argVals Hargs) as [ts ->].
    destruct (optArgsLoop_range_fails range range_Permutation
                (ErrOptArg (termType_of (json.Number n)))
                (MakeTermTree range <$> optArgVals) key err) as [e He].
    { by rewrite lookup_fmap, Hval; cbn; rewrite Herr. }
    rewrite He.
    apply (optArgsLoop_range_Err_inv range range_Permutation) in He
      as (key' & err' & (val' & Hval' & Hkey')%lookup_fmap_Some & ->).
    by exists key', val', err'.
  - intros o (key & val & err & Hval & Herr).
    rewrite MakeTermTree_Object. unfold makeObjectTerm, makeObjectTerm_body.
    destruct (optArgsLoop_range_fails range range_Permutation ErrObj
                (MakeTermTree range <$> o) key err) as [e He].
    { by rewrite lookup_fmap, Hval; cbn; rewrite Herr. }
    rewrite He.
    apply (optArgsLoop_range_Err_inv range range_Permutation) in He
      as (key' & err' & (val' & Hval' & Hkey')%lookup_fmap_Some & ->).
    by exists key', val', err'.
  - intros. by split_and!.
Qed.

(** *** Result types (C5) *)

Lemma valueType_spec val : valueType val = spec_value_type val.
Proof. by destruct val. Qed.

Lemma returnTypeMap_TABLE :
  returnTypeMap !! ql2.Term_TABLE = Some types.Table.
Proof. by vm_compute. Qed.

Lemma MakeTermTree_table_lookup :
  MakeTermTree range table_lookup
  = Ok {| Type_ := ql2.Term_TABLE;
          Args := Some [ {| Type_ := ql2.Term_DB;
                            Args := Some [datumTerm (json.String "db")];
                            OptArgs := None; Datum := None |};
                         datumTerm (json.String "users") ];
          OptArgs := None; Datum := None |}.
Proof. reflexivity. Qed.

(** C5 (amended): the result type of a DATUM term with an embedded
    value is the type of that value (null→Null, bool→Bool,
    number→Number, string→String, object→Object, array→Array); the
    result type of a term of another operator is the type
    [returnTypeMap] declares for the operator (0 when it declares
    none).  The term parsed from [[15,[[14,["db"]],"users"]]] has
    operator 15 and two positional arguments, the first of operator 14
    with the single argument "db", the second the DATUM "users"; its
    result type is Table. *)
Theorem C5_result_type :
  (∀ t val, Type_ t = ql2.Term_DATUM → Datum t = Some val →
     returnType t = Returns (spec_value_type val))
  ∧ (∀ t, Type_ t ≠ ql2.Term_DATUM →
       returnType t = Returns (default 0 (returnTypeMap !! Type_ t)))
  ∧ (∃ t db users,
       MakeTermTree range table_lookup = Ok t
       ∧ Type_ t = 15 ∧ Args t = Some [db; users] ∧ OptArgs t = None
       ∧ Type_ db = 14 ∧ Args db = Some [datumTerm (json.String "db")]
       ∧ users = datumTerm (json.String "users")
       ∧ returnType t = Returns types.Table).
Proof.
  split_and!.
  - intros t val HType HDatum.
    unfold returnType, IsDatum. rewrite HType, HDatum. cbn.
    by rewrite valueType_spec.
  - intros t HType. unfold returnType, IsDatum.
    by destruct (Z.eqb_spec (Type_ t) ql2.Term_DATUM).
  - eexists _, _, _. split; [exact MakeTermTree_table_lookup |].
    split_and!; try reflexivity.
    all: unfold returnType; cbn; by rewrite returnTypeMap_TABLE.
Qed.

End TermTree.

(* --------------------------------------------------------------------- *)
(** ** Term construction on concrete inputs *)
(* --------------------------------------------------------------------- *)

Section TermTreeInstances.
Import query.

Lemma Forall_nodes_root (P : Term → Prop) t : Forall_nodes P t → P t.
Proof. by destruct 1. Qed.

Lemma range_listed_Permutation m : range_listed m ≡ₚ map_to_list m.
Proof. reflexivity. Qed.

Lemma termName_MAKE_OBJ : termName ql2.Term_MAKE_OBJ = "MAKE_OBJ".
Proof. by vm_compute. Qed.

(** C6 on the object with the entries "age": 3 and "name": "x". *)
Lemma C6_object_translates_to_MAKE_OBJ_witness :
  let o : gmap string json.Value :=
    <["name" := json.String "x"]> {[ "age" := json.number_of_Z 3 ]} in
  (∀ m, range_listed m ≡ₚ map_to_list m)
  ∧ (∀ key val, o !! key = Some val →
       ∃ t, MakeTermTree range_listed val = Ok t)
  ∧ ∃ opts : gmap string Term,
      MakeTermTree range_listed (json.Object o)
      = Ok {| Type_ := ql2.Term_MAKE_OBJ; Args := None;
              OptArgs := Some opts; Datum := None |}
      ∧ dom opts = dom o
      ∧ (∀ key val, o !! key = Some val →
           ∃ t, MakeTermTree range_listed val = Ok t
                ∧ opts !! key = Some t)
      ∧ (∀ key t, opts !! key = Some t →
           ∃ val, o !! key = Some val
                  ∧ MakeTermTree range_listed val = Ok t).
Proof.
  intros o.
  assert (Hall : ∀ key val, o !! key = Some val →
            ∃ t, MakeTermTree range_listed val = Ok t).
  { intros key val [[_ <-] | [_ [_ <-]%lookup_singleton_Some]]%lookup_insert_Some;
      by eexists. }
  split; [exact range_listed_Permutation |]. split; [exact Hall |].
  exact (C6_object_translates_to_MAKE_OBJ range_listed
           range_listed_Permutation o Hall).
Defined.

(** C7 on the array [[15,"users"]], whose element 1 is not an array. *)
Lemma C7_term_array_error_cases_witness :
  let termArray := [json.number_of_Z 15; json.String "users"] in
  (∀ m, range_listed m ≡ₚ map_to_list m)
  ∧ ((∃ e, MakeTermTree range_listed (json.Array termArray) = Err e) ↔
     length termArray = 0%nat ∨ (3 < length termArray)%nat
     ∨ (∃ v, termArray !! 0%nat = Some v ∧ json.IsNumber v = false)
     ∨ (∃ v, termArray !! 1%nat = Some v ∧ json.IsArray v = false)
     ∨ (∃ v, termArray !! 2%nat = Some v ∧ json.IsObject v = false)
     ∨ (∃ argVals argVal e,
          termArray !! 1%nat = Some (json.Array argVals)
          ∧ argVal ∈ argVals ∧ MakeTermTree range_listed argVal = Err e)
     ∨ (∃ optArgVals key val e,
          termArray !! 2%nat = Some (json.Object optArgVals)
          ∧ optArgVals !! key = Some val
          ∧ MakeTermTree range_listed val = Err e))
  ∧ MakeTermTree range_listed (json.Array termArray)
    = Err (ErrArgsType json.VT_String).
Proof.
  intros termArray. split; [exact range_listed_Permutation |].
  split; [| reflexivity].
  exact (proj1 (C7_term_array_error_cases range_listed
                  range_listed_Permutation) termArray).
Defined.

(** C4: a term array whose element 0 is 1 gives a DATUM node without
    embedded value ([[1]]), or with a positional argument ([[1,[5]]]);
    a term array whose element 0 is 3 gives a MAKE_OBJ node with a
    positional argument ([[3,[5]]]).  None satisfies the invariant. *)
Lemma C4_coded_arrays_break_invariant :
  (∃ t, MakeTermTree range_listed (json.Array [json.number_of_Z 1]) = Ok t
        ∧ Type_ t = ql2.Term_DATUM ∧ Datum t = None
        ∧ ¬ node_invariant t ∧ ¬ Forall_nodes node_invariant t)
  ∧ (∃ t, MakeTermTree range_listed
            (json.Array [json.number_of_Z 1;
                         json.Array [json.number_of_Z 5]]) = Ok t
          ∧ Type_ t = ql2.Term_DATUM
          ∧ args_of t = [datumTerm (json.number_of_Z 5)]
          ∧ ¬ Forall_nodes node_invariant t)
  ∧ (∃ t, MakeTermTree range_listed
            (json.Array [json.number_of_Z 3;
                         json.Array [json.number_of_Z 5]]) = Ok t
          ∧ Type_ t = ql2.Term_MAKE_OBJ
          ∧ args_of t = [datumTerm (json.number_of_Z 5)]
          ∧ ¬ Forall_nodes node_invariant t).
Proof.
  split_and!; eexists; (split; [reflexivity |]); split_and!;
    try reflexivity.
  - intros (Hd & _). by destruct (Hd eq_refl) as (_ & _ & [? [=]]).
  - intros (Hd & _)%Forall_nodes_root.
    by destruct (Hd eq_refl) as (_ & _ & [? [=]]).
  - intros (Hd & _)%Forall_nodes_root.
    by destruct (Hd eq_refl) as ([=] & _).
  - intros (_ & _ & Ho)%Forall_nodes_root. by specialize (Ho eq_refl).
Qed.

Lemma table_lookup_plain : operators_plain table_lookup.
Proof.
  apply plain_Array.
  - by intros ? [= <-].
  - intros ? [= <-].
    apply Forall_cons_2; [| apply Forall_cons_2; [| apply Forall_nil_2]].
    + apply plain_Array.
      * by intros ? [= <-].
      * intros ? [= <-].
        apply Forall_cons_2; [apply plain_String | apply Forall_nil_2].
      * by intros ? [=].
    + apply plain_String.
  - by intros ? [=].
Qed.

(** C4 on the table-lookup term array. *)
Lemma C4_invariant_of_returned_terms_witness :
  (∀ m, range_listed m ≡ₚ map_to_list m)
  ∧ operators_plain table_lookup
  ∧ (∃ t, MakeTermTree range_listed table_lookup = Ok t
          ∧ Forall_nodes node_embedding t
          ∧ Forall_nodes node_invariant t).
Proof.
  split; [exact range_listed_Permutation |].
  split; [exact table_lookup_plain |].
  destruct (C4_invariant_of_returned_terms range_listed
              range_listed_Permutation) as [Hemb Hinv].
  eexists. split; [exact (MakeTermTree_table_lookup range_listed) |].
  split.
  - exact (Hemb table_lookup _ (MakeTermTree_table_lookup range_listed)).
  - exact (Hinv table_lookup _ table_lookup_plain
             (MakeTermTree_table_lookup range_listed)).
Defined.

(** C8: the object with the entry "a": [] fails with the error of the
    entry in the context [obj["a"]]; the text does not begin with the
    name of the operator MAKE_OBJ, and is not an [optArg] context. *)
Lemma C8_object_error_names_no_operator :
  ∃ e, MakeTermTree range_listed (json.Object {[ "a" := json.Array [] ]})
       = Err e
       ∧ e = ErrObj "a" (ErrEntries 0)
       ∧ e ≠ ErrOptArg ql2.Term_MAKE_OBJ "a" (ErrEntries 0)
       ∧ Error Quote_plain e
         = "obj[" +:+ Quote_plain "a"
           +:+ "] -> expected 1 to 3 entries in term array, but got 0"
       ∧ ¬ (∃ rest, Error Quote_plain e
                    = termName ql2.Term_MAKE_OBJ +:+ rest).
Proof.
  eexists. split; [by vm_compute |]. split_and!; try done.
  rewrite termName_MAKE_OBJ. by intros [rest [=]].
Qed.

(** C8 on the term array [[15,["db",[]]]], whose argument 1 fails. *)
Lemma C8_child_errors_in_context_witness :
  let argVals := [json.String "db"; json.Array []] in
  (∀ m, range_listed m ≡ₚ map_to_list m)
  ∧ argVals !! 1%nat = Some (json.Array [])
  ∧ MakeTermTree range_listed (json.Array []) = Err (ErrEntries 0)
  ∧ (∀ k v, (k < 1)%nat → argVals !! k = Some v →
       ∃ t, MakeTermTree range_listed v = Ok t)
  ∧ MakeTermTree range_listed
      (json.Array [json.number_of_Z 15; json.Array argVals])
    = Err (ErrArg 15 1 (ErrEntries 0)).
Proof.
  intros argVals.
  assert (Hbefore : ∀ k v, (k < 1)%nat → argVals !! k = Some v →
            ∃ t, MakeTermTree range_listed v = Ok t).
  { intros [| k] v Hk; [| lia]. intros [= <-]. by eexists. }
  split; [exact range_listed_Permutation |].
  split; [reflexivity |]. split; [reflexivity |].
  split; [exact Hbefore |].
  exact (proj1 (C8_child_errors_in_context range_listed
                  range_listed_Permutation)
           (S754_finite false 15 0) argVals [] 1%nat (json.Array [])
           (ErrEntries 0) (Nat.le_0_l 1) eq_refl eq_refl Hbefore).
Defined.

(** C5: the DATUM term [MakeTermTree] returns for [[1]] has no embedded
    value, and asking for its result type panics; the table-lookup term
    has two positional arguments, not one. *)
Lemma C5_nil_datum_and_two_arguments :
  (∃ t, MakeTermTree range_listed (json.Array [json.number_of_Z 1]) = Ok t
        ∧ Type_ t = ql2.Term_DATUM
        ∧ returnType t = Panics nil_dereference)
  ∧ (∃ t, MakeTermTree range_listed table_lookup = Ok t
          ∧ length (args_of t) = 2%nat
          ∧ ¬ (∃ a, Args t = Some [a] ∧ Type_ a = 14)).
Proof.
  split; eexists; (split; [reflexivity |]); split; try reflexivity.
  by intros (a & [=] & _).
Qed.

(** C5 on the DATUM term of the string "db". *)
Lemma C5_result_type_witness :
  let t := datumTerm (json.String "db") in
  Type_ t = ql2.Term_DATUM ∧ Datum t = Some (json.String "db")
  ∧ returnType t = Returns types.String
  ∧ types.TypeFlag_String types.String = "STRING".
Proof.
  intros t. split; [reflexivity |]. split; [reflexivity |].
  split; [| by vm_compute].
  exact (proj1 (C5_result_type range_listed) t (json.String "db")
           eq_refl eq_refl).
Defined.

End TermTreeInstances.

(* --------------------------------------------------------------------- *)
(** ** Facts on the string functions *)
(* --------------------------------------------------------------------- *)

Section StringFacts.
Import go_strings.

#[local] Arguments String.append !_ _ / : simpl nomatch.

Lemma length_app (x y : string) :
  String.length (x +:+ y) = (String.length x + String.length y)%nat.
Proof. induction x as [| c x IH]; simpl; [done | by f_equal]. Qed.

Lemma app_assoc (x y z : string) : (x +:+ y) +:+ z = x +:+ (y +:+ z).
Proof. induction x as [| c x IH]; simpl; [done | by f_equal]. Qed.

Lemma app_empty_r (x : string) : x +:+ "" = x.
Proof. induction x as [| c x IH]; simpl; [done | by f_equal]. Qed.

Lemma app_inv_head (x y z : string) : x +:+ y = x +:+ z → y = z.
Proof. induction x as [| c x IH]; simpl; [auto |]. intros [=]. auto. Qed.

Lemma HasPrefix_app (p r : string) : HasPrefix (p +:+ r) p = true.
Proof.
  induction p as [| c p IH]; simpl; [done |]. by rewrite Ascii.eqb_refl.
Qed.

Lemma HasPrefix_true (s p : string) :
  HasPrefix s p = true ↔ ∃ r, s = p +:+ r.
Proof.
  split.
  - revert s. induction p as [| c p IH]; intros s; cbn.
    + intros _. by exists s.
    + destruct s as [| d s]; [done |].
      destruct (Ascii.eqb_spec c d) as [<- |]; [| done].
      intros [r ->]%IH. by exists r.
  - intros [r ->]. apply HasPrefix_app.
Qed.

(** A string of the length of the prefix is the prefix, or the prefix
    is absent. *)
Lemma HasPrefix_same_length (x r p : string) :
  String.length x = String.length p →
  HasPrefix (x +:+ r) p = true ↔ x = p.
Proof.
  intros Hlen. split; [| intros ->; apply HasPrefix_app].
  revert x Hlen. induction p as [| c p IH]; intros [| d x]; cbn; try done.
  intros [= Hlen]. destruct (Ascii.eqb_spec c d) as [<- |]; [| done].
  intros H. f_equal. by apply IH.
Qed.

Lemma drop_app (x y : string) : drop (String.length x) (x +:+ y) = y.
Proof. induction x as [| c x IH]; cbn; [by destruct y | done]. Qed.

Lemma take_app (x y : string) : take (String.length x) (x +:+ y) = x.
Proof. induction x as [| c x IH]; simpl; [done | by f_equal]. Qed.

Lemma TrimPrefix_app (p r : string) : TrimPrefix (p +:+ r) p = r.
Proof. unfold TrimPrefix. by rewrite HasPrefix_app, drop_app. Qed.

(** [Index] answers -1 or a position of the string. *)
Lemma Index_from_bounds (i : Z) (s sub : string) :
  Index_from i s sub = -1 ∨ i ≤ Index_from i s sub ≤ i + len s.
Proof.
  unfold len. revert i. induction s as [| c s IH]; intros i; cbn [Index_from].
  - destruct (HasPrefix "" sub); [right; cbn; lia | by left].
  - destruct (HasPrefix (String c s) sub); [right; cbn; lia |].
    destruct (IH (i + 1)) as [-> | H]; [by left | right].
    cbn [String.length]. lia.
Qed.

(** In a string that contains [sub], [Index] finds a position. *)
Lemma Index_from_found (i : Z) (x sub y : string) :
  0 ≤ i → i ≤ Index_from i (x +:+ sub +:+ y) sub ≤ i + len x.
Proof.
  unfold len. revert i. induction x as [| c x IH]; intros i Hi.
  - cbn [String.append Index_from]. destruct sub as [| d sub].
    + cbn. destruct y; cbn; lia.
    + cbn [String.append].
      replace (Index_from i (String d (sub +:+ y)) (String d sub)) with i;
        [cbn; lia |].
      cbn [Index_from].
      change (String d (sub +:+ y)) with (String d sub +:+ y).
      by rewrite HasPrefix_app.
  - cbn [String.append Index_from String.length].
    destruct (HasPrefix (String c (x +:+ sub +:+ y)) sub); [lia |].
    specialize (IH (i + 1) ltac:(lia)). lia.
Qed.

(** The first [",p="] after a part without comma starts where the part
    ends. *)
Lemma Index_from_comma_free (i : Z) (x y : string) :
  free_of comma x = true →
  Index_from i (x +:+ ",p=" +:+ y) ",p=" = i + len x.
Proof.
  unfold len. simpl (",p=" +:+ y).
  revert i. induction x as [| c x IH]; intros i Hfree.
  - cbn. lia.
  - cbn in Hfree. apply andb_true_iff in Hfree as [Hc Hfree].
    cbn [String.append Index_from HasPrefix String.length].
    replace (Ascii.eqb "," c) with false.
    2: { symmetry. rewrite Ascii.eqb_sym. by apply negb_true_iff. }
    rewrite (IH (i + 1) Hfree). lia.
Qed.

Lemma slice_to_Returns (s : string) (high : Z) :
  0 ≤ high ≤ len s → slice_to s high = Returns (take (Z.to_nat high) s).
Proof.
  intros H. unfold slice_to.
  by rewrite (proj2 (andb_true_iff _ _)) by (split; lia).
Qed.

(** *** Splitting at a separator *)

Lemma Split_nonempty (s : string) (sep : ascii) : Split s sep ≠ [].
Proof.
  destruct s as [| c s]; cbn; [done |].
  destruct (Ascii.eqb c sep); [done |]. by destruct (Split s sep).
Qed.

Lemma Split_free (s : string) (sep : ascii) :
  free_of sep s = true → Split s sep = [s].
Proof.
  induction s as [| c s IH]; cbn; [done |].
  intros [Hc Hs]%andb_true_iff. apply negb_true_iff in Hc.
  by rewrite Hc, (IH Hs).
Qed.

Lemma Split_app_sep (x y : string) (sep : ascii) :
  free_of sep x = true →
  Split (x +:+ String sep y) sep = x :: Split y sep.
Proof.
  induction x as [| c x IH]; cbn.
  - intros _. by rewrite Ascii.eqb_refl.
  - intros [Hc Hx]%andb_true_iff. apply negb_true_iff in Hc.
    by rewrite Hc, (IH Hx).
Qed.

(** A string has no separator, or a first one. *)
Lemma first_separator (s : string) (sep : ascii) :
  free_of sep s = true
  ∨ ∃ x y, s = x +:+ String sep y ∧ free_of sep x = true.
Proof.
  induction s as [| c s IH]; cbn; [by left |].
  destruct (Ascii.eqb_spec c sep) as [-> | Hne]; cbn.
  - right. by exists "", s.
  - destruct IH as [-> | (x & y & -> & Hx)]; [by left | right].
    exists (String c x), y. split; [done |]. cbn.
    rewrite Hx. by destruct (Ascii.eqb_spec c sep).
Qed.

Lemma cut_free (k v : string) (sep : ascii) :
  free_of sep k = true → cut (k +:+ String sep v) sep = Some (k, v).
Proof.
  induction k as [| c k IH]; cbn.
  - intros _. by rewrite Ascii.eqb_refl.
  - intros [Hc Hk]%andb_true_iff. apply negb_true_iff in Hc.
    by rewrite Hc, (IH Hk).
Qed.

Lemma cut_Some (s : string) (sep : ascii) before after :
  cut s sep = Some (before, after) → s = before +:+ String sep after.
Proof.
  revert before. induction s as [| c s IH]; intros before; simpl; [done |].
  destruct (Ascii.eqb_spec c sep) as [-> | Hne].
  - by intros [= <- <-].
  - destruct (cut s sep) as [[b' a'] |]; [| done].
    intros [= <- <-]. simpl. f_equal. by apply IH.
Qed.

Lemma String_eqb_false (x y : string) : x ≠ y → String.eqb x y = false.
Proof. apply String.eqb_neq. Qed.

Lemma shorter_neq (x y : string) :
  (String.length x < String.length y)%nat → x ≠ y.
Proof. intros Hlt ->. lia. Qed.

End StringFacts.

(* --------------------------------------------------------------------- *)
(** ** The SCRAM handshake *)
(* --------------------------------------------------------------------- *)

Section Scram.
Import go_strings server.

#[local] Arguments String.append !_ _ / : simpl nomatch.

Variable hmac_sha256 : string → string → string.
Variable sha256_Sum256 : string → string.
Variable base64_EncodeToString : string → string.
Variable base64_DecodeString : string → option string.

(** What the handshake relies on from the library: the stored hash
    decodes; an HMAC-SHA256 sum has 32 bytes; the base64 alphabet has
    no comma. *)
Variable storedPasswordHash : string.
Hypothesis decode_stored_hash :
  base64_DecodeString adminPasswordHash = Some storedPasswordHash.
Hypothesis hmac_sha256_length :
  ∀ key data, String.length (hmac_sha256 key data) = 32%nat.
Hypothesis base64_comma_free :
  ∀ s, free_of comma (base64_EncodeToString s) = true.

Abbreviation readProof :=
  (readClientAuthenticationProof hmac_sha256 sha256_Sum256
     base64_EncodeToString base64_DecodeString).
Abbreviation Expected :=
  (ExpectedProof hmac_sha256 sha256_Sum256 base64_EncodeToString
     storedPasswordHash).

Lemma xorBytes_Returns (x y : string) (i : Z) :
  (String.length x ≤ String.length y)%nat →
  xorBytes i x y = Returns (xor_strings x y).
Proof.
  unfold xor_strings. generalize 0. revert y i.
  induction x as [| c x IH]; intros [| d y] i j; cbn; try done; try lia.
  intros Hlen. rewrite (IH y (i + 1) (j + 1)), (IH y (j + 1) (j + 1)) by lia.
  by destruct (xorBytes (j + 1) x y).
Qed.

(** The run of [readClientAuthenticationProof] when [",p="] is found. *)
Lemma readProof_found a message :
  let auth := Authentication message in
  let idx := Index auth ",p=" in
  0 ≤ idx ≤ len auth →
  readProof a message =
  let bare := take (Z.to_nat idx) auth in
  let a1 := extended a bare in
  let clientProof := Expected (authMessage a) bare in
  if negb (HasPrefix auth "c=biws,") then Returns (a1, Some ErrEncoding)
  else
    match clientFinalAttrs a1 clientProof false false
            (Split (TrimPrefix auth "c=biws,") comma) with
    | (_, _, Some err) => Returns (a1, Some err)
    | (validNonce, validProof, None) =>
        if negb (validNonce && validProof)
        then Returns (a1, Some ErrAttributes)
        else
          Returns
            (mkScram (authMessage a1) (clientNonce a1) (serverNonce a1)
               (base64_EncodeToString
                  (hmac_sha256
                     (hmac_sha256 storedPasswordHash "Server Key")
                     (authMessage a1))),
             None)
    end.
Proof.
  intros auth idx Hidx. unfold readClientAuthenticationProof.
  rewrite decode_stored_hash. fold auth. fold idx.
  rewrite (slice_to_Returns auth idx Hidx).
  rewrite xorBytes_Returns by (by rewrite !hmac_sha256_length).
  reflexivity.
Qed.

(** The run when [",p="] is absent: the slice expression panics. *)
Lemma readProof_not_found a message :
  Index (Authentication message) ",p=" = -1 →
  readProof a message = Panics (slice_bounds_out_of_range (-1)).
Proof.
  intros Hidx. unfold readClientAuthenticationProof.
  by rewrite decode_stored_hash, Hidx.
Qed.

(** *** The loop over the attributes of the client-final message *)

Lemma SplitN2_r (v : string) : SplitN2 ("r=" +:+ v) equals = ["r"; v].
Proof. reflexivity. Qed.

Lemma SplitN2_p (v : string) : SplitN2 ("p=" +:+ v) equals = ["p"; v].
Proof. reflexivity. Qed.

Lemma clientFinalAttrs_r a clientProof validNonce validProof v attrs :
  clientFinalAttrs a clientProof validNonce validProof
    (("r=" +:+ v) :: attrs) =
  if String.eqb v (serverNonce a)
  then clientFinalAttrs a clientProof true validProof attrs
  else (validNonce, validProof, Some (ErrServerNonce v (serverNonce a))).
Proof.
  cbn [clientFinalAttrs]. rewrite SplitN2_r. cbn.
  by destruct (String.eqb v (serverNonce a)).
Qed.

Lemma clientFinalAttrs_p a clientProof validNonce validProof v attrs :
  clientFinalAttrs a clientProof validNonce validProof
    (("p=" +:+ v) :: attrs) =
  if String.eqb v clientProof
  then clientFinalAttrs a clientProof validNonce true attrs
  else (validNonce, validProof, Some (ErrClientProof v clientProof)).
Proof.
  cbn [clientFinalAttrs]. rewrite SplitN2_p. cbn.
  by destruct (String.eqb v clientProof).
Qed.

(** *** The client-final message [cbind r=nonce ,p=proof] *)

Lemma clientFinal_Index_found cbind nonce proof :
  let auth := Authentication (clientFinal cbind nonce proof) in
  0 ≤ Index auth ",p=" ≤ len auth.
Proof.
  cbn. unfold Index.
  pose proof (Index_from_found 0 (cbind +:+ "r=" +:+ nonce) ",p=" proof
                ltac:(lia)) as H.
  rewrite !app_assoc in H. cbn in H.
  pose proof (Index_from_bounds 0
                (cbind +:+ "r=" +:+ nonce +:+ ",p=" +:+ proof) ",p=") as Hb.
  cbn in Hb. lia.
Qed.

(** With the right prefix and a nonce without comma, [",p="] is found
    at the end of the nonce. *)
Lemma clientFinal_Index_biws nonce proof :
  free_of comma nonce = true →
  Index ("c=biws," +:+ "r=" +:+ nonce +:+ ",p=" +:+ proof) ",p="
  = 9 + len nonce.
Proof.
  intros Hfree. unfold Index. cbn.
  exact (Index_from_comma_free 9 nonce proof Hfree).
Qed.

Lemma free_of_r_nonce nonce :
  free_of comma nonce = true → free_of comma ("r=" +:+ nonce) = true.
Proof. intros H. cbn. exact H. Qed.

(** The run on a message with the right prefix and a nonce without
    comma. *)
Lemma readProof_biws a nonce proof :
  free_of comma nonce = true →
  readProof a (clientFinal "c=biws," nonce proof) =
  let bare := "c=biws,r=" +:+ nonce in
  let a1 := extended a bare in
  let clientProof := Expected (authMessage a) bare in
  match clientFinalAttrs a1 clientProof false false
          (("r=" +:+ nonce) :: Split ("p=" +:+ proof) comma) with
  | (_, _, Some err) => Returns (a1, Some err)
  | (validNonce, validProof, None) =>
      if negb (validNonce && validProof)
      then Returns (a1, Some ErrAttributes)
      else
        Returns
          (mkScram (authMessage a1) (clientNonce a1) (serverNonce a1)
             (base64_EncodeToString
                (hmac_sha256 (hmac_sha256 storedPasswordHash "Server Key")
                   (authMessage a1))),
           None)
  end.
Proof.
  intros Hfree.
  rewrite readProof_found by apply clientFinal_Index_found.
  cbn [Authentication clientFinal].
  rewrite (clientFinal_Index_biws nonce proof Hfree).
  replace (take (Z.to_nat (9 + len nonce))
             ("c=biws," +:+ "r=" +:+ nonce +:+ ",p=" +:+ proof))
    with ("c=biws,r=" +:+ nonce).
  2: { rewrite <- (take_app ("c=biws,r=" +:+ nonce) (",p=" +:+ proof)) at 1.
       rewrite length_app, app_assoc. unfold len. f_equal. cbn. lia. }
  rewrite HasPrefix_app, TrimPrefix_app. cbn [negb].
  change ("r=" +:+ nonce +:+ ",p=" +:+ proof)
    with ("r=" +:+ (nonce +:+ String comma ("p=" +:+ proof))).
  rewrite <- app_assoc.
  by rewrite (Split_app_sep _ _ comma (free_of_r_nonce nonce Hfree)).
Qed.

(** The run on a message with another prefix of seven bytes. *)
Lemma readProof_wrong_prefix a cbind nonce proof :
  String.length cbind = 7%nat → cbind ≠ "c=biws," →
  ∃ a1, readProof a (clientFinal cbind nonce proof)
        = Returns (a1, Some ErrEncoding).
Proof.
  intros Hlen Hne.
  rewrite readProof_found by apply clientFinal_Index_found.
  cbn [Authentication clientFinal].
  destruct (HasPrefix (cbind +:+ "r=" +:+ nonce +:+ ",p=" +:+ proof)
              "c=biws,") eqn:Hpre.
  - apply HasPrefix_same_length in Hpre; done.
  - by eexists.
Qed.

(** The loop over the attributes ends without error exactly when every
    attribute is [r=] with the server nonce or [p=] with the expected
    proof; the flags then tell which of the two were seen. *)
Lemma clientFinalAttrs_None a clientProof attrs vn vp vn' vp' :
  clientFinalAttrs a clientProof vn vp attrs = (vn', vp', None) ↔
  Forall (λ attr, attr = "r=" +:+ serverNonce a
                  ∨ attr = "p=" +:+ clientProof) attrs
  ∧ vn' = vn || bool_decide (("r=" +:+ serverNonce a) ∈ attrs)
  ∧ vp' = vp || bool_decide (("p=" +:+ clientProof) ∈ attrs).
Proof.
  revert vn vp. induction attrs as [| attr attrs IH]; intros vn vp.
  - cbn [clientFinalAttrs]. rewrite !bool_decide_eq_false_2 by apply not_elem_of_nil.
    rewrite !orb_false_r. split.
    + intros H. by simplify_eq.
    + by intros (_ & -> & ->).
  - rewrite Forall_cons. cbn [clientFinalAttrs]. unfold SplitN2.
    destruct (cut attr equals) as [[key val] |] eqn:Hcut.
    2: { split; [done |]. intros ([[-> | ->] _] & _); discriminate Hcut. }
    pose proof (cut_Some _ _ _ _ Hcut) as ->.
    destruct (String.eqb_spec key "r") as [-> | Hr].
    { destruct (String.eqb_spec val (serverNonce a)) as [-> | Hval]; cbn [negb].
      - rewrite IH.
        assert (Hn : bool_decide (("r=" +:+ serverNonce a)
                        ∈ ("r" +:+ String equals (serverNonce a)) :: attrs)
                     = true) by (apply bool_decide_eq_true_2; left).
        assert (Hp : bool_decide (("p=" +:+ clientProof)
                        ∈ ("r" +:+ String equals (serverNonce a)) :: attrs)
                     = bool_decide (("p=" +:+ clientProof) ∈ attrs)).
        { apply bool_decide_ext. rewrite elem_of_cons. naive_solver. }
        rewrite Hn, Hp, !orb_true_r. cbn [orb]. naive_solver.
      - split; [done |]. intros ([[H | H] _] & _); [| discriminate H].
        simpl in H. injection H as H. done. }
    destruct (String.eqb_spec key "p") as [-> | Hp].
    { destruct (String.eqb_spec val clientProof) as [-> | Hval]; cbn [negb].
      - rewrite IH.
        assert (Hp : bool_decide (("p=" +:+ clientProof)
                        ∈ ("p" +:+ String equals clientProof) :: attrs)
                     = true) by (apply bool_decide_eq_true_2; left).
        assert (Hn : bool_decide (("r=" +:+ serverNonce a)
                        ∈ ("p" +:+ String equals clientProof) :: attrs)
                     = bool_decide (("r=" +:+ serverNonce a) ∈ attrs)).
        { apply bool_decide_ext. rewrite elem_of_cons. naive_solver. }
        rewrite Hn, Hp, !orb_true_r. cbn [orb]. naive_solver.
      - split; [done |]. intros ([[H | H] _] & _); [discriminate H |].
        simpl in H. injection H as H. done. }
    split; [done |]. intros ([[H | H] _] & _).
    + rewrite H in Hcut. by injection Hcut as <- _.
    + rewrite H in Hcut. by injection Hcut as <- _.
Qed.

(** The client-final messages that are accepted: the authentication
    string begins with ["c=biws,"], and its attributes are [r=] with the
    server nonce and [p=] with the expected proof, both present and
    nothing else. *)
Lemma readProof_accepted a message :
  let auth := Authentication message in
  let good :=
    Expected (authMessage a) (take (Z.to_nat (Index auth ",p=")) auth) in
  let attrs := Split (TrimPrefix auth "c=biws,") comma in
  accepted (readProof a message) ↔
  0 ≤ Index auth ",p=" ∧ HasPrefix auth "c=biws," = true
  ∧ Forall (λ attr, attr = "r=" +:+ serverNonce a
                    ∨ attr = "p=" +:+ good) attrs
  ∧ ("r=" +:+ serverNonce a) ∈ attrs ∧ ("p=" +:+ good) ∈ attrs.
Proof.
  intros auth good attrs.
  destruct (Index_from_bounds 0 auth ",p=") as [Hidx | Hidx];
    fold (Index auth ",p=") in Hidx.
  { rewrite (readProof_not_found a message Hidx).
    split; [by intros [? [=]] | intros [H _]; fold auth in Hidx; lia]. }
  rewrite (readProof_found a message Hidx).
  cbn zeta. fold auth. fold good. fold attrs.
  destruct (HasPrefix auth "c=biws,"); cbn [negb].
  2: { split; [by intros [? [=]] | by intros (_ & [=] & _)]. }
  destruct (clientFinalAttrs _ good false false attrs)
    as [[vn vp] [err |]] eqn:Hloop.
  { split; [by intros [? [=]] |]. intros (_ & _ & Hall & Hr & Hp).
    assert (Hnone : clientFinalAttrs (extended a
                       (take (Z.to_nat (Index auth ",p=")) auth)) good
                      false false attrs = (true, true, None)).
    { apply clientFinalAttrs_None. cbn [serverNonce extended].
      rewrite !bool_decide_eq_true_2 by done. done. }
    congruence. }
  apply clientFinalAttrs_None in Hloop as (Hall & -> & ->).
  cbn [serverNonce extended orb] in *.
  destruct (bool_decide_reflect (("r=" +:+ serverNonce a) ∈ attrs)) as [Hr | Hr];
    destruct (bool_decide_reflect (("p=" +:+ good) ∈ attrs)) as [Hp | Hp];
    cbn [andb negb].
  - split; [intros _; split_and!; [lia | done ..] | intros _; by eexists].
  - split; [by intros [? [=]] | by intros (_ & _ & _ & _ & ?)].
  - split; [by intros [? [=]] | by intros (_ & _ & _ & ? & _)].
  - split; [by intros [? [=]] | by intros (_ & _ & _ & ? & _)].
Qed.


(** C9, on the code: a client-final message whose authentication string
    has no [",p="] makes [readClientAuthenticationProof] panic:
    [strings.Index] answers -1, and the slice expression
    [message.Authentication[:-1]] is out of range.  So it is for the
    string ["c=biws,r=abc"]. *)
Theorem C9_client_final_without_proof_panics (a : scramAuthenticator) :
  (∀ message, Index (Authentication message) ",p=" = -1 →
     readProof a message = Panics (slice_bounds_out_of_range (-1)))
  ∧ readProof a (mkClientMessage 0 "c=biws,r=abc" "SCRAM-SHA-256")
    = Panics (slice_bounds_out_of_range (-1)).
Proof.
  split; [apply readProof_not_found |]. by apply readProof_not_found.
Qed.

(** *** From the client-first message to the server nonce *)

Lemma free_of_app c (x y : string) :
  free_of c (x +:+ y) = free_of c x && free_of c y.
Proof.
  induction x as [| d x IH]; simpl; [done |].
  by rewrite IH, andb_assoc.
Qed.

Lemma Split_pieces_free (s : string) (sep : ascii) :
  Forall (λ piece, free_of sep piece = true) (Split s sep).
Proof.
  induction s as [| c s IH]; cbn [Split].
  - by repeat constructor.
  - destruct (Ascii.eqb_spec c sep) as [-> | Hne].
    + by constructor.
    + assert (Hc : free_of sep (String c "") = true)
        by (cbn; by destruct (Ascii.eqb_spec c sep)).
      destruct (Split s sep) as [| piece pieces].
      * by repeat constructor.
      * inversion_clear IH as [| ? ? Hp Hps]. constructor; [| done].
        cbn in *. rewrite Hp. by destruct (Ascii.eqb c sep).
Qed.

Lemma cut_after_free (s : string) (sep c : ascii) before after :
  cut s sep = Some (before, after) → free_of c s = true →
  free_of c after = true.
Proof.
  revert before. induction s as [| d s IH]; intros before; cbn; [done |].
  intros Hcut [_ Hs]%andb_true_iff.
  destruct (Ascii.eqb d sep); [by injection Hcut as _ <- |].
  destruct (cut s sep) as [[b' a'] |]; [| done].
  injection Hcut as _ <-. by eapply IH.
Qed.

Lemma clientFirstAttrs_nonce_free a attrs a' err :
  Forall (λ attr, free_of comma attr = true) attrs →
  free_of comma (clientNonce a) = true →
  clientFirstAttrs a attrs = (a', err) →
  free_of comma (clientNonce a') = true.
Proof.
  intros Hattrs. revert a.
  induction Hattrs as [| attr attrs Hattr _ IH]; intros a Ha; cbn.
  - by intros [= <- _].
  - unfold SplitN2.
    destruct (cut attr equals) as [[key val] |] eqn:Hcut;
      [| by intros [= <- _]].
    destruct (String.eqb key "n").
    + destruct (negb (String.eqb val adminUsername));
        [by intros [= <- _] | by apply IH].
    + destruct (String.eqb key "r"); [| by intros [= <- _]].
      apply IH. cbn. by eapply cut_after_free.
Qed.

(** After the client-first and the server-first phase, the server
    nonce holds no comma. *)
Lemma serverNonce_comma_free message a1 serverNonceBuf :
  readClientAuthenticationMessage newAuthenticator message = (a1, None) →
  free_of comma
    (serverNonce
       (writeServerAuthenticationMessage base64_EncodeToString a1
          serverNonceBuf).1) = true.
Proof.
  unfold readClientAuthenticationMessage.
  destruct (negb (ProtocolVersion message =? 0)); [done |].
  destruct (negb (String.eqb (AuthenticationMethod message) _)); [done |].
  destruct (negb (HasPrefix (Authentication message) "n,,")); [done |].
  intros Hloop%clientFirstAttrs_nonce_free;
    [| apply Split_pieces_free | done].
  cbn. by rewrite free_of_app, Hloop, base64_comma_free.
Qed.

End Scram.

Section ClientFirst.
Import go_strings server.

#[local] Arguments String.append !_ _ / : simpl nomatch.

(** C10: the client-first message with protocol version 0, method
    SCRAM-SHA-256 and authentication string ["n,,r=abc"] carries no
    [n=] attribute and is accepted, with client nonce ["abc"]; so is
    every such message ["n,,r=<nonce>"].  The handshake goes on to the
    server-first message, which answers with the nonce, the salt and
    the iteration count. *)
Theorem C10_client_first_without_username :
  readClientAuthenticationMessage newAuthenticator
    (mkClientMessage 0 "n,,r=abc" "SCRAM-SHA-256")
  = (mkScram "r=abc" "abc" "" "", None)
  ∧ (∀ a nonce,
       free_of comma nonce = true →
       readClientAuthenticationMessage a
         (mkClientMessage 0 ("n,,r=" +:+ nonce) "SCRAM-SHA-256")
       = (mkScram ("r=" +:+ nonce) nonce (serverNonce a)
            (serverSignature a), None))
  ∧ (∀ (base64_EncodeToString : string → string) serverNonceBuf,
       (writeServerAuthenticationMessage base64_EncodeToString
          (mkScram "r=abc" "abc" "" "") serverNonceBuf).2
       = mkServerMessage true
           ("r=abc" +:+ base64_EncodeToString serverNonceBuf
            +:+ ",s=6VRzcOVKuS8WWbOKM5Vurw==,i=4096")).
Proof.
  split; [reflexivity |]. split.
  - intros a nonce Hfree. unfold readClientAuthenticationMessage.
    cbn [ProtocolVersion AuthenticationMethod Authentication].
    change ("n,,r=" +:+ nonce) with ("n,," +:+ ("r=" +:+ nonce)).
    rewrite HasPrefix_app, TrimPrefix_app. cbn [negb Z.eqb String.eqb].
    cbn [authMessage].
    rewrite Split_free by exact Hfree. reflexivity.
  - intros b64 buf. reflexivity.
Qed.

End ClientFirst.

(* --------------------------------------------------------------------- *)
(** ** The library functions, as implemented in [crypto] *)
(* --------------------------------------------------------------------- *)

Section CryptoFacts.
Import go_strings crypto.

Lemma length_string_of_list_ascii (l : list ascii) :
  String.length (String.string_of_list_ascii l) = length l.
Proof. induction l as [| c l IH]; simpl; [done | by f_equal]. Qed.

Lemma length_string_of_bytes (l : list N) :
  String.length (string_of_bytes l) = length l.
Proof.
  unfold string_of_bytes.
  by rewrite length_string_of_list_ascii, length_fmap.
Qed.

Lemma length_sha256_bytes (msg : list N) :
  length (sha256_bytes msg) = 32%nat.
Proof.
  unfold sha256_bytes.
  by destruct (blocks _ initial _) as [[[[[[[a b] c] d] e] f] g] h].
Qed.

(** An HMAC-SHA256 sum has 32 bytes. *)
Lemma hmac_sha256_length (key data : string) :
  String.length (hmac_sha256 key data) = 32%nat.
Proof.
  unfold hmac_sha256, hmac_sha256_bytes.
  by rewrite length_string_of_bytes, length_sha256_bytes.
Qed.

Lemma digit_not_comma (v : N) : digit v ≠ comma.
Proof.
  unfold digit.
  destruct (nth_in_or_default (N.to_nat (N.land v 63)) alphabet "A"%char)
    as [Hin | ->]; [| done].
  assert (H : Forall (λ c, c ≠ comma) alphabet)
    by (by apply (bool_decide_unpack _); vm_compute).
  apply (proj1 (Forall_forall _ _) H). by apply list_elem_of_In.
Qed.

Lemma encode_not_comma (l : list N) : Forall (λ c, c ≠ comma) (encode l).
Proof.
  assert (H : ∀ n l, (length l ≤ n)%nat →
              Forall (λ c, c ≠ comma) (encode l));
    [| by apply (H (length l))].
  induction n as [| n IH]; intros [| b0 [| b1 [| b2 rest]]] Hlen;
    cbn [encode]; cbn in Hlen; try lia;
    repeat (constructor; [by apply digit_not_comma || done |]);
    try by constructor.
  apply IH. lia.
Qed.

Lemma free_of_string_of_list_ascii (c : ascii) (l : list ascii) :
  Forall (λ d, d ≠ c) l →
  free_of c (String.string_of_list_ascii l) = true.
Proof.
  induction 1 as [| d l Hd _ IH]; cbn; [done |].
  rewrite IH. by destruct (Ascii.eqb_spec d c).
Qed.

(** The base64 alphabet has no comma. *)
Lemma base64_comma_free (s : string) :
  free_of comma (base64_EncodeToString s) = true.
Proof. apply free_of_string_of_list_ascii, encode_not_comma. Qed.

(** The stored hash decodes, to 32 bytes. *)
Lemma decode_adminPasswordHash :
  ∃ storedPasswordHash,
    base64_DecodeString server.adminPasswordHash = Some storedPasswordHash
    ∧ String.length storedPasswordHash = 32%nat
    ∧ base64_EncodeToString storedPasswordHash = server.adminPasswordHash.
Proof. eexists. split; [by vm_compute |]. split; by vm_compute. Qed.

End CryptoFacts.

(* --------------------------------------------------------------------- *)
(** ** The handshake on the scenario *)
(* --------------------------------------------------------------------- *)

Section ScramInstances.
Import go_strings server.

Lemma decode_stored_hash_scenario :
  crypto.base64_DecodeString adminPasswordHash
  = Some scenario.storedPasswordHash.
Proof. by vm_compute. Qed.


(** C9 on the scenario: after the server-first message, the
    client-final message ["c=biws,r=abc"] makes the server panic. *)
Lemma C9_client_final_without_proof_panics_witness :
  crypto.base64_DecodeString adminPasswordHash
  = Some scenario.storedPasswordHash
  ∧ Index "c=biws,r=abc" ",p=" = -1
  ∧ scenario.readProof scenario.afterServerFirst
      (mkClientMessage 0 "c=biws,r=abc" "SCRAM-SHA-256")
    = Panics (slice_bounds_out_of_range (-1))
  ∧ DoHandshake crypto.hmac_sha256 crypto.sha256_Sum256
      crypto.base64_EncodeToString crypto.base64_DecodeString
      VersionDummy_V1_0 scenario.clientFirst scenario.serverNonceBuf
      (mkClientMessage 0 "c=biws,r=abc" "SCRAM-SHA-256")
    = Panics (slice_bounds_out_of_range (-1)).
Proof.
  split; [exact decode_stored_hash_scenario |].
  split; [reflexivity |]. split; [| by vm_compute].
  exact (proj1 (C9_client_final_without_proof_panics crypto.hmac_sha256
                  crypto.sha256_Sum256 crypto.base64_EncodeToString
                  crypto.base64_DecodeString scenario.storedPasswordHash
                  decode_stored_hash_scenario scenario.afterServerFirst)
           (mkClientMessage 0 "c=biws,r=abc" "SCRAM-SHA-256") eq_refl).
Defined.

(** C10 on the nonce of the scenario, and through [DoHandshake]: with
    the client-first message ["n,,r=abc"] the server writes its
    server-first message, and the handshake only ends at the
    client-final message. *)
Lemma C10_client_first_without_username_witness :
  free_of comma "rOprNGfwEbeRWgbNEkqO" = true
  ∧ readClientAuthenticationMessage newAuthenticator
      (mkClientMessage 0 "n,,r=rOprNGfwEbeRWgbNEkqO" "SCRAM-SHA-256")
    = (mkScram "r=rOprNGfwEbeRWgbNEkqO" "rOprNGfwEbeRWgbNEkqO" "" "", None)
  ∧ DoHandshake crypto.hmac_sha256 crypto.sha256_Sum256
      crypto.base64_EncodeToString crypto.base64_DecodeString
      VersionDummy_V1_0 (mkClientMessage 0 "n,,r=abc" "SCRAM-SHA-256")
      scenario.serverNonceBuf
      (mkClientMessage 0 "c=biws,r=abc,p=x" "SCRAM-SHA-256")
    = Returns
        ([VersionPayload writeVersionMessage;
          AuthPayload
            (mkServerMessage true
               ("r=abc" +:+ "MDEyMzQ1Njc4OWFiY2RlZmdo"
                +:+ ",s=6VRzcOVKuS8WWbOKM5Vurw==,i=4096"))],
         Some (ErrPhase "unable to read client authentication proof"
                 (ErrServerNonce "abc" "abcMDEyMzQ1Njc4OWFiY2RlZmdo"))).
Proof.
  split; [reflexivity |]. split; [| by vm_compute].
  exact (proj1 (proj2 C10_client_first_without_username) newAuthenticator
           "rOprNGfwEbeRWgbNEkqO" eq_refl).
Defined.

End ScramInstances.

(* --------------------------------------------------------------------- *)
(** ** The query dispatcher *)
(* --------------------------------------------------------------------- *)

Section Dispatcher.
Import main.

(** [startQuery] and [runQuery] leave the set of tokens as it is. *)
Lemma startQuery_queryCache range qs token value globalOptArgs :
  (startQuery range qs token value globalOptArgs).1 = qs.
Proof.
  unfold startQuery. destruct (bool_decide _); [done |].
  by destruct (query.MakeTermTree range value).
Qed.

Lemma runQuery_queryCache range qs token queryVal :
  (runQuery range qs token queryVal).1 = qs.
Proof.
  unfold runQuery.
  repeat (match goal with
          | |- context [match ?x with _ => _ end] => destruct x
          end; try done; try apply startQuery_queryCache).
Qed.

(** C2, on the code: [startQuery] looks the token up in [queryCache]
    but never inserts it, so the set stays empty and a second START
    query with the same token is not rejected: on the query
    [[1,1,{}]] with token 42, twice in a row, [runQuery] returns nil
    both times.  And [handleQueries] returns after one request: of two
    such frames on a connection, it reads the first and leaves the
    second unread. *)
Theorem C2_second_START_is_not_rejected :
  let qs := newQueryServer "" in
  (∀ range qs token value globalOptArgs,
     queryCache (startQuery range qs token value globalOptArgs).1
     = queryCache qs)
  ∧ runQuery query.range_listed qs 42 start_datum = (qs, None)
  ∧ runQuery query.range_listed
      (runQuery query.range_listed qs 42 start_datum).1 42 start_datum
    = (qs, None)
  ∧ handleQueries query.range_listed Parse_start_datum
      (newQueryServer (start_frame +:+ start_frame))
    = (newQueryServer start_frame, None).
Proof.
  intros qs. split.
  { intros. by rewrite startQuery_queryCache. }
  split; [by vm_compute |]. split; by vm_compute.
Qed.

End Dispatcher.

(* --------------------------------------------------------------------- *)
(** ** The end-to-end scenarios of the specification *)
(* --------------------------------------------------------------------- *)

Section Scenarios.
Import server.

(** Version rejection: the four bytes 00 00 00 00 are not the number of
    V1_0; nothing is written. *)
Example scenario_version_rejection clientFirst serverNonceBuf clientFinal :
  DoHandshake crypto.hmac_sha256 crypto.sha256_Sum256
    crypto.base64_EncodeToString crypto.base64_DecodeString
    (main.LittleEndian (main.bytes [0; 0; 0; 0]%nat))
    clientFirst serverNonceBuf clientFinal
  = Returns ([], Some (ErrVersion 0)).
Proof. reflexivity. Qed.

(** Happy handshake: greeting, challenge with the concatenated nonce, the
    salt and the iteration count, and the signature of the server. *)
Example scenario_happy_handshake :
  DoHandshake crypto.hmac_sha256 crypto.sha256_Sum256
    crypto.base64_EncodeToString crypto.base64_DecodeString
    VersionDummy_V1_0 scenario.clientFirst scenario.serverNonceBuf
    (clientFinal "c=biws," (serverNonce scenario.afterServerFirst)
       scenario.clientProof)
  = Returns
      ([ VersionPayload (mkVersionMessage true 0 0 "ReboltDB 0.1.0");
         AuthPayload
           (mkServerMessage true
              ("r=rOprNGfwEbeRWgbNEkqO" +:+ "MDEyMzQ1Njc4OWFiY2RlZmdo"
               +:+ ",s=6VRzcOVKuS8WWbOKM5Vurw==,i=4096"));
         AuthPayload
           (mkServerMessage true
              "v=c5pinXhsNcUmSqUQcyOO/VeIfQHksbnpOfg9oQxB77I=") ],
       None).
Proof. by vm_compute. Qed.

(** Simple datum query: the body [[1,1,{}]] with token 1 gives the DATUM
    term of the number 1. *)
Example scenario_simple_datum_query :
  query.MakeTermTree query.range_listed (json.number_of_Z 1)
  = Ok (query.datumTerm (json.number_of_Z 1))
  ∧ main.runQuery query.range_listed (main.newQueryServer "") 1
      main.start_datum
    = (main.newQueryServer "", None).
Proof. split; by vm_compute. Qed.

End Scenarios.

(* ===================================================================== *)
(** * Further properties of the code *)
(* ===================================================================== *)

(* --------------------------------------------------------------------- *)
(** ** The order of the type flags *)
(* --------------------------------------------------------------------- *)

Section TypeOrder.
Import types.

Lemma land_lor_eq x t u :
  Z.land x (Z.lor t u) = Z.lor t u ↔ Z.land x t = t ∧ Z.land x u = u.
Proof.
  split.
  - intros H. split; apply Z.bits_inj'; intros n Hn;
      apply (f_equal (λ z, Z.testbit z n)) in H;
      rewrite Z.land_spec, !Z.lor_spec in H; rewrite Z.land_spec;
      destruct (Z.testbit x n), (Z.testbit t n), (Z.testbit u n); done.
  - intros [Ht Hu]. rewrite Z.land_lor_distr_r. by rewrite Ht, Hu.
Qed.

(** X1: on all flag values, not only the named tags, [IsSubTypeOf] is a
    partial order: reflexive, transitive and antisymmetric.  The value 0
    is its top: every flag is a subtype of 0, and 0 is a subtype of
    nothing else. *)
Theorem X1_IsSubTypeOf_partial_order :
  (∀ t, IsSubTypeOf t t = true)
  ∧ (∀ t u v, IsSubTypeOf t u = true → IsSubTypeOf u v = true →
       IsSubTypeOf t v = true)
  ∧ (∀ t u, IsSubTypeOf t u = true → IsSubTypeOf u t = true → t = u)
  ∧ (∀ t, IsSubTypeOf t 0 = true)
  ∧ (∀ u, IsSubTypeOf 0 u = true → u = 0).
Proof.
  split_and!.
  - exact IsSubTypeOf_refl.
  - exact IsSubTypeOf_trans.
  - intros t u. rewrite !IsSubTypeOf_spec. intros Htu Hut.
    rewrite <- Hut, Z.land_comm. exact Htu.
  - intros t. apply IsSubTypeOf_spec, Z.land_0_r.
  - intros u. rewrite IsSubTypeOf_spec, Z.land_0_l. done.
Qed.

(** X2: [t | u] is the greatest lower bound of [t] and [u]: a flag is
    a subtype of [t | u] exactly when it is a subtype of both, and
    [t | u] itself is a subtype of [t] and of [u].  So a result type
    that [returnTypeMap] declares as a union of several tags lies below
    each of them, and no tag is a subtype of it: every declared result
    type is 0, a tag, or a value that no tag is a subtype of. *)
Theorem X2_union_is_greatest_lower_bound :
  (∀ x t u,
     IsSubTypeOf x (Z.lor t u) = IsSubTypeOf x t && IsSubTypeOf x u)
  ∧ (∀ t u, IsSubTypeOf (Z.lor t u) t = true
            ∧ IsSubTypeOf (Z.lor t u) u = true)
  ∧ Forall (λ p : ql2.Term_TermType * TypeFlag,
              p.2 = 0 ∨ p.2 ∈ tags
              ∨ Forall (λ t, IsSubTypeOf t p.2 = false) tags)
      query.returnTypeMap_entries
  ∧ Forall (λ t, IsSubTypeOf t (Z.lor (Z.lor Number String) Time) = false)
      tags.
Proof.
  split_and!.
  - intros x t u. apply eq_true_iff_eq.
    rewrite andb_true_iff, !IsSubTypeOf_spec. apply land_lor_eq.
  - intros t u. rewrite !IsSubTypeOf_spec.
    split; apply Z.bits_inj'; intros n _;
      rewrite Z.land_spec, Z.lor_spec;
      by destruct (Z.testbit t n), (Z.testbit u n).
  - by apply (bool_decide_unpack _); vm_compute.
  - by apply (bool_decide_unpack _); vm_compute.
Qed.

(** X3: [String] names exactly the 22 tags: it returns a non-empty name
    on a tag and the empty string on every other value (0 and the
    unions of [returnTypeMap] among them), and two different tags have
    different names. *)
Theorem X3_TypeFlag_String_names_the_tags :
  (∀ t, TypeFlag_String t ≠ "" ↔ t ∈ tags)
  ∧ (∀ t u, t ∈ tags → u ∈ tags →
       TypeFlag_String t = TypeFlag_String u → t = u)
  ∧ TypeFlag_String 0 = ""
  ∧ TypeFlag_String (Z.lor Number Time) = "".
Proof.
  assert (Hnamed : Forall (λ t, TypeFlag_String t ≠ "") tags)
    by (by apply (bool_decide_unpack _); vm_compute).
  split_and!.
  - intros t. split.
    + intros Hname. apply elem_of_tags. unfold TypeFlag_String in Hname.
      destruct (allFlags !! t); [by eexists | done].
    + exact (proj1 (Forall_forall _ _) Hnamed t).
  - assert (H : Forall (λ p, TypeFlag_String p.1 = TypeFlag_String p.2
                             → p.1 = p.2) (cprod tags tags))
      by (by apply (bool_decide_unpack _); vm_compute).
    intros t u Ht Hu.
    apply (proj1 (Forall_forall _ _) H (t, u)), list_elem_of_cprod; by split.
  - reflexivity.
  - reflexivity.
Qed.

End TypeOrder.

(* --------------------------------------------------------------------- *)
(** ** What [MakeTermTree] accepts and returns *)
(* --------------------------------------------------------------------- *)

Section TermTreeResults.
Import query.

Variable range :
  gmap string (result error Term) → list (string * result error Term).
Hypothesis range_Permutation : ∀ m, range m ≡ₚ map_to_list m.

Lemma argsLoop_Ok_iff mk termType i argVals ts :
  argsLoop mk termType i argVals = Ok ts ↔
  Forall2 (λ argVal t, mk argVal = Ok t) argVals ts.
Proof.
  split; [apply argsLoop_Ok |].
  intros H. revert i. induction H as [| argVal t argVals ts Ht _ IH];
    intros i; [reflexivity |].
  cbn. rewrite Ht. by rewrite (IH (S i)).
Qed.

#[local] Arguments argsLoop : simpl never.
#[local] Arguments optArgsLoop : simpl never.

(** All entries of a map translate exactly when the translated map is
    the image of a map of terms. *)
Lemma fmap_all_Ok {A} (f : A → result error Term) (o : gmap string A) :
  map_Forall (λ _ v, ∃ t, f v = Ok t) o ↔
  ∃ opts : gmap string Term, f <$> o = Ok <$> opts.
Proof.
  split.
  - intros Hall.
    exists (omap (λ v, match f v with Ok t => Some t | Err _ => None end) o).
    apply map_eq. intros key. rewrite !lookup_fmap, lookup_omap.
    destruct (o !! key) as [v |] eqn:Hv; [| done]. cbn.
    destruct (Hall key v Hv) as [t ->]. done.
  - intros [opts Hopts] key v Hv.
    apply (f_equal (.!! key)) in Hopts. rewrite !lookup_fmap, Hv in Hopts.
    destruct (opts !! key) as [t |]; [| done]. exists t.
    cbn in Hopts. congruence.
Qed.

(** What a term array translates to, when it does. *)
Lemma MakeTermTree_Array_Ok_iff termArray t :
  MakeTermTree range (json.Array termArray) = Ok t ↔
  ∃ n args opts,
    termArray !! 0%nat = Some (json.Number n)
    ∧ (length termArray ≤ 3)%nat
    ∧ t = {| Type_ := termType_of (json.Number n); Args := args;
             OptArgs := opts; Datum := None |}
    ∧ match termArray !! 1%nat with
      | None => args = None
      | Some (json.Array argVals) =>
          ∃ ts, args = Some ts
                ∧ Forall2 (λ argVal t', MakeTermTree range argVal = Ok t')
                    argVals ts
      | Some _ => False
      end
    ∧ match termArray !! 2%nat with
      | None => opts = None
      | Some (json.Object optArgVals) =>
          ∃ m, opts = Some m
               ∧ MakeTermTree range <$> optArgVals = Ok <$> m
      | Some _ => False
      end.
Proof.
  destruct termArray as [| e0 rest].
  { split; [discriminate | by intros (? & ? & ? & [=] & _)]. }
  destruct (decide (length rest ≤ 2)%nat) as [Hlen | Hlen].
  2: { split.
       - destruct rest as [| e1 [| e2 [| e3 tl]]]; cbn in Hlen; try lia.
         discriminate.
       - intros (? & ? & ? & _ & Hl & _). cbn in Hl. lia. }
  destruct e0 as [| b | n | s | a | o].
  all: try (split; [destruct rest as [| e1 [| e2 [| e3 tl]]]; discriminate
                   | by intros (? & ? & ? & [=] & _)]).
  rewrite (MakeTermTree_Array_Number range n rest Hlen). cbn zeta.
  set (termType := termType_of (json.Number n)).
  destruct rest as [| e1 rest].
  { cbn. split.
    - intros [= <-]. exists n, None, None. split_and!; try done. lia.
    - intros (n' & args & opts & [= <-] & _ & -> & -> & ->). done. }
  destruct e1 as [| b1 | n1 | s1 | argVals | o1].
  all: try (split; [discriminate | by intros (? & ? & ? & _ & _ & _ & [] & _)]).
  cbn [lookup list_lookup].
  destruct (argsLoop _ termType 0 argVals) as [ts | e'] eqn:Hargs.
  2: { split; [discriminate |].
       intros (? & ? & ? & _ & _ & _ & (ts & _ & Hts) & _).
       apply (argsLoop_Ok_iff _ termType 0%nat) in Hts. congruence. }
  destruct rest as [| e2 rest].
  { cbn. split.
    - intros [= <-]. exists n, (Some ts), None.
      apply argsLoop_Ok_iff in Hargs.
      split_and!; try done; [lia | by exists ts].
    - intros (n' & args & opts & [= <-] & _ & -> & (ts' & -> & Hts') & ->).
      do 3 f_equal.
      apply (argsLoop_Ok_iff _ termType 0%nat) in Hts'. congruence. }
  destruct e2 as [| b2 | n2 | s2 | a2 | optArgVals].
  all: try (split; [discriminate
                   | by intros (? & ? & ? & _ & _ & _ & _ & [])]).
  cbn [lookup list_lookup].
  destruct (optArgsLoop _ _ ∅) as [m | e''] eqn:Hopts.
  2: { split; [discriminate |].
       intros (? & ? & ? & _ & _ & _ & _ & (m & _ & Hm)).
       apply (optArgsLoop_range_Ok range range_Permutation
                (ErrOptArg termType)) in Hm. congruence. }
  apply (optArgsLoop_range_Ok range range_Permutation) in Hopts.
  split.
  - intros [= <-]. exists n, (Some ts), (Some m).
    apply argsLoop_Ok_iff in Hargs.
    split_and!; try done; [| by exists ts | by exists m].
    cbn in *. lia.
  - intros (n' & args & opts & [= <-] & _ & -> & (ts' & -> & Hts')
            & (m' & -> & Hm')).
    do 2 f_equal.
    + f_equal.
      apply (argsLoop_Ok_iff _ termType 0%nat) in Hts'. congruence.
    + f_equal. apply map_eq. intros key.
      assert (H : (Ok <$> m : gmap string (result error Term)) !! key
                  = (Ok <$> m') !! key) by congruence.
      rewrite !lookup_fmap in H.
      destruct (m !! key), (m' !! key); cbn in H; congruence.
Qed.

Lemma Forall2_translated argVals :
  Forall (λ argVal, ∃ t, MakeTermTree range argVal = Ok t) argVals ↔
  ∃ ts, Forall2 (λ argVal t, MakeTermTree range argVal = Ok t) argVals ts.
Proof.
  split.
  - intros [ts Hts]%(argsLoop_all_Ok _ 0 0%nat). exists ts.
    by eapply argsLoop_Ok.
  - intros [ts Hts]. induction Hts; constructor; [by eexists | done].
Qed.

Lemma term_shape_Object o :
  term_shape (json.Object o) ↔ map_Forall (λ _, term_shape) o.
Proof. split; [by inversion 1 | by constructor]. Qed.

(** X5: the JSON values [MakeTermTree] accepts are exactly those of the
    shape [term_shape]: a null, boolean, number or string; an object
    whose values are accepted; an array [[n]], [[n, args]] or
    [[n, args, opts]] with [n] a number, [args] an array of accepted
    values and [opts] an object of accepted values.  Every other value
    is rejected with an error. *)
Theorem X5_accepted_values_have_term_shape (value : json.Value) :
  ((∃ t, MakeTermTree range value = Ok t) ↔ term_shape value)
  ∧ ((∃ e, MakeTermTree range value = Err e) ↔ ¬ term_shape value).
Proof.
  assert (Hshape : (∃ t, MakeTermTree range value = Ok t) ↔ term_shape value).
  2: { split; [exact Hshape |]. rewrite <- Hshape.
       destruct (MakeTermTree range value) as [t | e].
       - split; [by intros [? [=]] | intros []; by eexists].
       - split; [by intros _ [? [=]] | by eexists]. }
  induction value as [| b | n | s | o IH | termArray IHargs IHopts]
    using MakeTermTree_descent_ind;
    try (split; [constructor | by eexists]).
  - rewrite term_shape_Object. split.
    + intros [t (opts & Hopts & _)%(makeObjectTerm_Ok range range_Permutation)].
      intros key val Hval. apply (IH key val Hval).
      by apply (proj2 (fmap_all_Ok _ o) (ex_intro _ opts Hopts) key val).
    + intros Hall.
      destruct (proj1 (fmap_all_Ok (MakeTermTree range) o)) as [opts Hopts].
      { intros key val Hval. apply (IH key val Hval).
        exact (Hall key val Hval). }
      eexists. apply (makeObjectTerm_Ok range range_Permutation).
      by exists opts.
  - split.
    + intros [t (n & args & opts & H0 & Hlen & _ & Hargs & Hopts)
                %MakeTermTree_Array_Ok_iff].
      destruct termArray as [| e0 [| e1 [| e2 [| e3 tl]]]];
        cbn in H0, Hlen, Hargs, Hopts; try lia; try done;
        injection H0 as ->.
      * constructor.
      * destruct e1 as [| | | | argVals |]; try done.
        destruct Hargs as (ts & _ & Hts). constructor.
        specialize (IHargs argVals eq_refl).
        assert (Hall := proj2 (Forall2_translated argVals)
                          (ex_intro _ ts Hts)).
        rewrite Forall_forall in *. intros v Hv.
        by apply (IHargs v Hv), Hall.
      * destruct e1 as [| | | | argVals |]; try done.
        destruct e2 as [| | | | | optArgVals]; try done.
        destruct Hargs as (ts & _ & Hts). destruct Hopts as (m & _ & Hm).
        constructor.
        -- specialize (IHargs argVals eq_refl).
           assert (Hall := proj2 (Forall2_translated argVals)
                             (ex_intro _ ts Hts)).
           rewrite Forall_forall in *. intros v Hv.
           by apply (IHargs v Hv), Hall.
        -- intros key val Hval.
           apply (IHopts optArgVals eq_refl key val Hval).
           by apply (proj2 (fmap_all_Ok _ optArgVals)
                       (ex_intro _ m Hm) key val).
    + intros Hshape.
      inversion Hshape as [| | | | | n | n argVals Hargs
                          | n argVals optArgVals Hargs Hopts]; subst.
      * by eexists.
      * destruct (proj1 (Forall2_translated argVals)) as [ts Hts].
        { specialize (IHargs argVals eq_refl).
          rewrite Forall_forall in *. intros v Hv.
          by apply (IHargs v Hv), Hargs. }
        eexists. apply MakeTermTree_Array_Ok_iff.
        exists n, (Some ts), None. cbn. split_and!; try done; [lia |].
        by exists ts.
      * destruct (proj1 (Forall2_translated argVals)) as [ts Hts].
        { specialize (IHargs argVals eq_refl).
          rewrite Forall_forall in *. intros v Hv.
          by apply (IHargs v Hv), Hargs. }
        destruct (proj1 (fmap_all_Ok (MakeTermTree range) optArgVals))
          as [m Hm].
        { intros key val Hval.
          apply (IHopts optArgVals eq_refl key val Hval).
          exact (Hopts key val Hval). }
        eexists. apply MakeTermTree_Array_Ok_iff.
        exists n, (Some ts), (Some m). cbn.
        split_and!; try done; [by exists ts | by exists m].
Qed.

(** X7: what a term array translates to.  [[n]] gives the operator
    with nil arguments and nil options.  [[n, args]] gives a term whose
    arguments are the translations of the entries of [args], as many
    and in the same order (an empty list for an empty [args], not nil).
    [[n, args, opts]] gives in addition the options: a map with a term
    under exactly the keys of [opts], each the translation of the entry
    under that key.  No such term carries an embedded value. *)
Theorem X7_term_array_result n argVals optArgVals :
  let termType := termType_of (json.Number n) in
  MakeTermTree range (json.Array [json.Number n])
  = Ok {| Type_ := termType; Args := None; OptArgs := None;
          Datum := None |}
  ∧ (∀ t,
       MakeTermTree range (json.Array [json.Number n; json.Array argVals])
       = Ok t ↔
       ∃ ts,
         Forall2 (λ argVal t', MakeTermTree range argVal = Ok t') argVals ts
         ∧ t = {| Type_ := termType; Args := Some ts; OptArgs := None;
                  Datum := None |})
  ∧ (∀ t,
       MakeTermTree range
         (json.Array [json.Number n; json.Array argVals;
                      json.Object optArgVals])
       = Ok t ↔
       ∃ ts m,
         Forall2 (λ argVal t', MakeTermTree range argVal = Ok t') argVals ts
         ∧ (∀ key, MakeTermTree range <$> (optArgVals !! key)
                   = Ok <$> (m !! key))
         ∧ t = {| Type_ := termType; Args := Some ts; OptArgs := Some m;
                  Datum := None |}).
Proof.
  intros termType. split_and!.
  - reflexivity.
  - intros t. rewrite MakeTermTree_Array_Ok_iff. cbn. split.
    + intros (n' & args & opts & [= <-] & _ & -> & (ts & -> & Hts) & ->).
      by exists ts.
    + intros (ts & Hts & ->). exists n, (Some ts), None.
      split_and!; try done; [lia | by exists ts].
  - intros t. rewrite MakeTermTree_Array_Ok_iff. cbn. split.
    + intros (n' & args & opts & [= <-] & _ & -> & (ts & -> & Hts)
              & (m & -> & Hm)).
      exists ts, m. split_and!; try done.
      intros key. rewrite <- !lookup_fmap. by rewrite Hm.
    + intros (ts & m & Hts & Hm & ->). exists n, (Some ts), (Some m).
      split_and!; try done; [by exists ts |]. exists m. split; [done |].
      apply map_eq. intros key. rewrite !lookup_fmap. apply Hm.
Qed.

Lemma int32_of_int64_range z :
  - 2 ^ 31 ≤ ql2.int32_of_int64 z < 2 ^ 31.
Proof.
  unfold ql2.int32_of_int64.
  pose proof (Z.mod_pos_bound (z + 2 ^ 31) (2 ^ 32) ltac:(lia)). lia.
Qed.

Lemma AsInt64_number_of_Z z :
  - 2 ^ 63 ≤ z < 2 ^ 63 → json.AsInt64 (json.number_of_Z z) = z.
Proof.
  intros Hz. destruct z as [| p | p]; [reflexivity | |];
    unfold json.AsInt64, json.number_of_Z, json.int64_of_float64;
    rewrite Z.shiftl_0_r;
    destruct (Z.leb_spec (- 2 ^ 63) (Z.pos p)),
             (Z.ltb_spec (Z.pos p) (2 ^ 63)),
             (Z.leb_spec (- 2 ^ 63) (- Z.pos p)),
             (Z.ltb_spec (- Z.pos p) (2 ^ 63)); cbn [andb]; lia.
Qed.

(** X8: [MakeTermTree] does not check the operator code of a term
    array against the operators of the protocol.  The code of every
    node of a returned term is a 32-bit number, the number of element 0
    truncated to an int64 and reduced to its low 32 bits; the array
    [[z]] of an integer [z] is accepted for every such [z], a 32-bit
    [z] giving the operator [z] itself whether or not the protocol
    names it; and in the error of a failing argument an operator
    without a name appears as the empty string. *)
Theorem X8_operator_codes_are_not_validated :
  (∀ value t, MakeTermTree range value = Ok t →
     Forall_nodes (λ t', - 2 ^ 31 ≤ Type_ t' < 2 ^ 31) t)
  ∧ (∀ z, - 2 ^ 63 ≤ z < 2 ^ 63 →
       MakeTermTree range (json.Array [json.number_of_Z z])
       = Ok {| Type_ := (z + 2 ^ 31) mod 2 ^ 32 - 2 ^ 31; Args := None;
               OptArgs := None; Datum := None |})
  ∧ (∀ z, - 2 ^ 31 ≤ z < 2 ^ 31 →
       MakeTermTree range (json.Array [json.number_of_Z z])
       = Ok {| Type_ := z; Args := None; OptArgs := None; Datum := None |})
  ∧ (∀ strconv_Quote termType (i : nat) err,
       ql2.Term_TermType_name !! termType = None →
       Error strconv_Quote (ErrArg termType i err)
       = " arg[" +:+ pretty i +:+ "] -> " +:+ Error strconv_Quote err).
Proof.
  assert (Hnum : ∀ z, - 2 ^ 63 ≤ z < 2 ^ 63 →
            MakeTermTree range (json.Array [json.number_of_Z z])
            = Ok {| Type_ := (z + 2 ^ 31) mod 2 ^ 32 - 2 ^ 31; Args := None;
                    OptArgs := None; Datum := None |}).
  { intros z Hz.
    change (MakeTermTree range (json.Array [json.number_of_Z z]))
      with (Ok (E := error)
              {| Type_ := ql2.int32_of_int64
                            (json.AsInt64 (json.number_of_Z z));
                 Args := None; OptArgs := None; Datum := None |}).
    by rewrite (AsInt64_number_of_Z z Hz). }
  split_and!.
  - intros value t.
    apply (MakeTermTree_Forall_nodes range range_Permutation (λ _, True));
      try done.
    + intros. by apply Forall_forall.
    + clear value t. intros value t _ Hmk.
      destruct value as [| b | n | s | a | o];
        try (injection Hmk as <-; by vm_compute).
      * apply (MakeTermTree_Array_Ok range range_Permutation) in Hmk
          as (n & _ & -> & _). apply int32_of_int64_range.
      * apply (MakeTermTree_Object_Ok range range_Permutation) in Hmk
          as (-> & _). by vm_compute.
  - exact Hnum.
  - intros z Hz. rewrite Hnum by lia. do 2 f_equal.
    rewrite Z.mod_small by lia. lia.
  - intros strconv_Quote termType i err Hname. cbn [Error].
    unfold termName. by rewrite Hname.
Qed.

(** X10: the result type of a translated value.  For a value that is
    not an array it is the type [valueType] gives the value (for an
    object, the type Object that [returnTypeMap] declares for
    MAKE_OBJ).  For a term array it is the type declared for the
    operator of element 0, except when that operator is DATUM: the
    term then has no embedded value and [returnType] panics. *)
Theorem X10_result_type_of_translation (value : json.Value) (t : Term) :
  MakeTermTree range value = Ok t →
  match value with
  | json.Array termArray =>
      ∃ termArray0, termArray !! 0%nat = Some termArray0
        ∧ returnType t
          = if termType_of termArray0 =? ql2.Term_DATUM
            then Panics nil_dereference
            else Returns
                   (default 0 (returnTypeMap !! termType_of termArray0))
  | _ => returnType t = Returns (valueType value)
  end.
Proof.
  intros Hmk. destruct value as [| b | n | s | a | o];
    try (by injection Hmk as <-).
  - apply (MakeTermTree_Array_Ok range range_Permutation) in Hmk
      as (n & H0 & HType & HDatum & _).
    exists (json.Number n). split; [done |].
    unfold returnType, IsDatum. rewrite HType, HDatum.
    by destruct (_ =? _).
  - apply (MakeTermTree_Object_Ok range range_Permutation) in Hmk
      as (HType & _).
    unfold returnType, IsDatum. by rewrite HType.
Qed.

End TermTreeResults.

Section ValueTypes.
Import query.

(** X9: [valueType] gives each of the six kinds of JSON value a tag of
    its own, and never 0: the tag is a subtype of Datum, it is named by
    [String], and the tags of two values are comparable only when the
    values are of the same kind. *)
Theorem X9_valueType_tags :
  (∀ val, types.IsSubTypeOf (valueType val) types.Datum = true)
  ∧ (∀ v w, types.IsSubTypeOf (valueType v) (valueType w) = true
            ↔ json.ValueType_of v = json.ValueType_of w)
  ∧ (∀ val, valueType val ∈ types.tags ∧ valueType val ≠ 0)
  ∧ (∀ val,
       types.TypeFlag_String (valueType val)
       = match json.ValueType_of val with
         | json.VT_Null => "NULL"
         | json.VT_Boolean => "BOOL"
         | json.VT_Number => "NUMBER"
         | json.VT_String => "STRING"
         | json.VT_Object => "OBJECT"
         | json.VT_Array => "ARRAY"
         end).
Proof.
  split_and!.
  - by intros [].
  - intros [] []; split; intros H; try done; by vm_compute in H.
  - intros []; (split; [by apply (bool_decide_unpack _); vm_compute | done]).
  - by intros [].
Qed.

End ValueTypes.

Section MapOrder.
Import query.

Lemma fmap_Ok_transfer {A} (f1 f2 : A → result error Term)
    (o : gmap string A) (m : gmap string Term) :
  map_Forall (λ _ val, ∀ t, f1 val = Ok t → f2 val = Ok t) o →
  f1 <$> o = Ok <$> m → f2 <$> o = Ok <$> m.
Proof.
  intros Hall H1. apply map_eq. intros key.
  apply (f_equal (.!! key)) in H1. rewrite !lookup_fmap in *.
  destruct (o !! key) as [val |] eqn:Hval; [| done].
  destruct (m !! key) as [t |]; [| done]. cbn in *.
  injection H1 as H1. f_equal. by apply (Hall key val Hval).
Qed.

Lemma Forall2_Ok_transfer {A} (f1 f2 : A → result error Term)
    (l : list A) (ts : list Term) :
  Forall (λ val, ∀ t, f1 val = Ok t → f2 val = Ok t) l →
  Forall2 (λ val t, f1 val = Ok t) l ts →
  Forall2 (λ val t, f2 val = Ok t) l ts.
Proof.
  intros Hall H1. induction H1 as [| val t l ts Ht _ IH]; [constructor |].
  apply Forall_cons in Hall as [Hval Hall]. constructor; auto.
Qed.

Variables range1 range2 :
  gmap string (result error Term) → list (string * result error Term).
Hypothesis range1_Permutation : ∀ m, range1 m ≡ₚ map_to_list m.
Hypothesis range2_Permutation : ∀ m, range2 m ≡ₚ map_to_list m.

Lemma MakeTermTree_order_Ok value t :
  MakeTermTree range1 value = Ok t → MakeTermTree range2 value = Ok t.
Proof.
  revert t.
  induction value as [| b | n | s | o IH | termArray IHargs IHopts]
    using MakeTermTree_descent_ind; intros t; try (intros H; exact H).
  - intros (opts & Hopts & ->)%(makeObjectTerm_Ok range1 range1_Permutation).
    apply (makeObjectTerm_Ok range2 range2_Permutation).
    exists opts. split; [| done]. by eapply fmap_Ok_transfer.
  - intros (n & args & opts & H0 & Hlen & -> & Hargs & Hopts)
           %(MakeTermTree_Array_Ok_iff range1 range1_Permutation).
    apply (MakeTermTree_Array_Ok_iff range2 range2_Permutation).
    exists n, args, opts. split_and!; try done.
    + destruct (termArray !! 1%nat) as [[| | | | argVals |] |] eqn:H1;
        try done.
      destruct Hargs as (ts & -> & Hts). exists ts. split; [done |].
      eapply Forall2_Ok_transfer; [| exact Hts]. by apply IHargs.
    + destruct (termArray !! 2%nat) as [[| | | | | optArgVals] |] eqn:H2;
        try done.
      destruct Hopts as (m & -> & Hm). exists m. split; [done |].
      eapply fmap_Ok_transfer; [| exact Hm]. by apply IHopts.
Qed.

End MapOrder.

Section MapOrderTheorem.
Import query.

Variables range1 range2 :
  gmap string (result error Term) → list (string * result error Term).
Hypothesis range1_Permutation : ∀ m, range1 m ≡ₚ map_to_list m.
Hypothesis range2_Permutation : ∀ m, range2 m ≡ₚ map_to_list m.

(** X6: Go leaves the order in which [range] visits a map open.  The
    term [MakeTermTree] returns does not depend on it, nor whether the
    translation fails: under any two iteration orders a value
    translates to the same term, or fails under both.  Which error is
    reported does depend on it: on an object with two failing entries,
    two orders report two different entries. *)
Theorem X6_result_independent_of_map_order :
  (∀ value t,
     MakeTermTree range1 value = Ok t ↔ MakeTermTree range2 value = Ok t)
  ∧ (∀ value,
       (∃ e, MakeTermTree range1 value = Err e)
       ↔ (∃ e, MakeTermTree range2 value = Err e))
  ∧ MakeTermTree range_listed two_failures
    = Err (ErrObj "a" (ErrEntries 0))
  ∧ MakeTermTree range_reversed two_failures
    = Err (ErrObj "b" (ErrTermType json.VT_Boolean)).
Proof.
  assert (HOk : ∀ value t,
            MakeTermTree range1 value = Ok t
            ↔ MakeTermTree range2 value = Ok t).
  { intros value t. split.
    - by apply MakeTermTree_order_Ok.
    - by apply MakeTermTree_order_Ok. }
  split_and!; [exact HOk | | by vm_compute | by vm_compute].
  intros value. specialize (HOk value).
  destruct (MakeTermTree range1 value) as [t1 | e1],
           (MakeTermTree range2 value) as [t2 | e2].
  - split; by intros [? [=]].
  - pose proof (proj1 (HOk t1) eq_refl). done.
  - pose proof (proj2 (HOk t2) eq_refl). done.
  - split; by eexists.
Qed.

End MapOrderTheorem.

(* --------------------------------------------------------------------- *)
(** ** Printing a term *)
(* --------------------------------------------------------------------- *)

Section TermInduction.
Import query.

Lemma Term_size_elem (t t' : Term) :
  t' ∈ args_of t → (Term_size t' < Term_size t)%nat.
Proof.
  destruct t as [ty [args |] opts d]; unfold args_of; cbn -[Term_size];
    [| by intros ?%elem_of_nil].
  intros Hin. cbn [Term_size Args].
  match goal with |- context [(_ + ?b)%nat] => generalize b end. intros k.
  induction Hin as [x l | x y l _ IH]; cbn [foldr] in *; lia.
Qed.

Lemma Term_size_lookup (t t' : Term) (key : string) :
  optArgs_of t !! key = Some t' → (Term_size t' < Term_size t)%nat.
Proof.
  destruct t as [ty args [opts |] d]; unfold optArgs_of; cbn -[Term_size];
    [| by rewrite lookup_empty].
  intros Hk. cbn [Term_size OptArgs].
  match goal with |- context [(?a + _)%nat] => generalize a end. intros k.
  rewrite (map_fold_delete_L _ _ key t' opts); [lia | intros; lia | exact Hk].
Qed.

(** Induction on a term, with the hypothesis available for every
    argument and every option. *)
Lemma Term_nested_ind (P : Term → Prop) :
  (∀ t, Forall P (args_of t) → map_Forall (λ _, P) (optArgs_of t) → P t) →
  ∀ t, P t.
Proof.
  intros Hstep t.
  assert (H : ∀ n t', (Term_size t' < n)%nat → P t');
    [| exact (H (S (Term_size t)) t (Nat.lt_succ_diag_r _))].
  induction n as [| n IH]; intros t' Hlt; [lia |].
  apply Hstep.
  - apply Forall_forall. intros x Hx. apply IH.
    pose proof (Term_size_elem t' x Hx). lia.
  - intros key x Hk. apply IH.
    pose proof (Term_size_lookup t' x key Hk). lia.
Qed.

End TermInduction.

Section Printing.
Import query.

Variable range : gmap string (exec string) → list (string * exec string).
Hypothesis range_Permutation : ∀ m, range m ≡ₚ map_to_list m.
Variable strconv_Quote : string → string.
Variable fmt_v : json.Value → string.

Lemma exec_app_returns x y :
  returns (exec_app x y) ↔ returns x ∧ returns y.
Proof.
  unfold returns. destruct x as [s | p], y as [s' | p']; cbn; split;
    try (by intros [? [=]]); try (by intros [[? [=]] [? [=]]]).
  - intros _. split; by eexists.
  - intros _. by eexists.
Qed.

Lemma exec_app_returns_or_nil x y :
  returns_or_nil x → returns_or_nil y → returns_or_nil (exec_app x y).
Proof.
  unfold returns_or_nil, returns.
  intros [[s ->] | ->] [[s' ->] | ->]; cbn; [left; by eexists | by right ..].
Qed.

Lemma returns_Returns s : returns (Returns s).
Proof. by eexists. Qed.

Lemma loop_returns {A} (f : A → string) (g : A → exec string) (l : list A) :
  returns
    (foldr (λ x rest, exec_app (Returns (f x)) (exec_app (g x) rest))
       (Returns "") l)
  ↔ Forall (λ x, returns (g x)) l.
Proof.
  induction l as [| x l IH]; cbn [foldr].
  - split; [constructor | intros _; apply returns_Returns].
  - rewrite !exec_app_returns, IH, Forall_cons.
    pose proof (returns_Returns (f x)). tauto.
Qed.

Lemma loop_returns_or_nil {A} (f : A → string) (g : A → exec string)
    (l : list A) :
  Forall (λ x, returns_or_nil (g x)) l →
  returns_or_nil
    (foldr (λ x rest, exec_app (Returns (f x)) (exec_app (g x) rest))
       (Returns "") l).
Proof.
  induction 1 as [| x l Hx _ IH]; cbn [foldr].
  - left. apply returns_Returns.
  - apply exec_app_returns_or_nil; [left; apply returns_Returns |].
    by apply exec_app_returns_or_nil.
Qed.

Lemma formatArgs_body_returns args i :
  returns (formatArgs_body args i) ↔ Forall returns args.
Proof.
  unfold formatArgs_body. cbn zeta.
  rewrite !exec_app_returns.
  rewrite (loop_returns
             (λ _, if (1 <? length args)%nat
                   then newline +:+ Repeat " " (2 * i) +:+ "  " else "")
             (λ arg, arg) args).
  pose proof (returns_Returns " [").
  pose proof (returns_Returns
                ((if (1 <? length args)%nat
                  then newline +:+ Repeat " " (2 * i) else "") +:+ "]")).
  tauto.
Qed.

Lemma formatArgs_body_returns_or_nil args i :
  Forall returns_or_nil args → returns_or_nil (formatArgs_body args i).
Proof.
  intros Hall. unfold formatArgs_body. cbn zeta.
  apply exec_app_returns_or_nil; [left; apply returns_Returns |].
  apply exec_app_returns_or_nil; [| left; apply returns_Returns].
  by apply (loop_returns_or_nil
              (λ _, if (1 <? length args)%nat
                    then newline +:+ Repeat " " (2 * i) +:+ "  " else "")
              (λ arg, arg) args).
Qed.

Lemma optLoop_returns (pre : string → string)
    (entries : list (string * exec string)) :
  returns
    (foldr (λ '(key, arg) rest,
              exec_app (Returns (pre key)) (exec_app arg rest))
       (Returns "") entries)
  ↔ Forall (λ kr, returns kr.2) entries.
Proof.
  induction entries as [| [key arg] entries IH]; cbn [foldr].
  - split; [constructor | intros _; apply returns_Returns].
  - rewrite !exec_app_returns, IH, Forall_cons.
    pose proof (returns_Returns (pre key)). cbn. tauto.
Qed.

Lemma optLoop_returns_or_nil (pre : string → string)
    (entries : list (string * exec string)) :
  Forall (λ kr, returns_or_nil kr.2) entries →
  returns_or_nil
    (foldr (λ '(key, arg) rest,
              exec_app (Returns (pre key)) (exec_app arg rest))
       (Returns "") entries).
Proof.
  induction 1 as [| [key arg] entries Hx _ IH]; cbn [foldr].
  - left. apply returns_Returns.
  - apply exec_app_returns_or_nil; [left; apply returns_Returns |].
    by apply exec_app_returns_or_nil.
Qed.

Lemma Forall_range (P : exec string → Prop) (m : gmap string (exec string)) :
  Forall (λ kr, P kr.2) (range m) ↔ map_Forall (λ _, P) m.
Proof.
  rewrite (range_Permutation m), Forall_forall. split.
  - intros H key r Hk. by apply (H (key, r)), elem_of_map_to_list.
  - intros H [key r] Hk%elem_of_map_to_list. by apply (H key r).
Qed.

Lemma formatOptArgs_body_returns optArgs i :
  returns (formatOptArgs_body range strconv_Quote optArgs i)
  ↔ map_Forall (λ _, returns) optArgs.
Proof.
  unfold formatOptArgs_body. cbn zeta.
  rewrite !exec_app_returns.
  rewrite (optLoop_returns
             (λ key,
                (if (1 <? size optArgs)%nat
                 then newline +:+ Repeat " " (2 * i) +:+ "  " else "")
                +:+ strconv_Quote key +:+ ": ")
             (range optArgs)).
  rewrite Forall_range.
  pose proof (returns_Returns " {").
  pose proof (returns_Returns
                ((if (1 <? size optArgs)%nat
                  then newline +:+ Repeat " " (2 * i) else "") +:+ "}")).
  tauto.
Qed.

Lemma formatOptArgs_body_returns_or_nil optArgs i :
  map_Forall (λ _, returns_or_nil) optArgs →
  returns_or_nil (formatOptArgs_body range strconv_Quote optArgs i).
Proof.
  intros Hall. unfold formatOptArgs_body. cbn zeta.
  apply exec_app_returns_or_nil; [left; apply returns_Returns |].
  apply exec_app_returns_or_nil; [| left; apply returns_Returns].
  apply (optLoop_returns_or_nil
           (λ key,
              (if (1 <? size optArgs)%nat
               then newline +:+ Repeat " " (2 * i) +:+ "  " else "")
              +:+ strconv_Quote key +:+ ": ")).
  by apply Forall_range.
Qed.

(** The two branches of [format]. *)
Lemma format_eq t i :
  format range strconv_Quote fmt_v t i =
  if IsDatum t then
    match Datum t with
    | None => Panics nil_dereference
    | Some d =>
        if json.IsNull d then Returns "null"
        else if json.IsString d
        then Returns (strconv_Quote (json.AsString d))
        else Returns (fmt_v d)
    end
  else
    exec_app (Returns ("(" +:+ termName (Type_ t)))
      (exec_app (formatArgs range strconv_Quote fmt_v t i)
         (exec_app (formatOptArgs range strconv_Quote fmt_v t i)
            (Returns ")"))).
Proof. by destruct t. Qed.

Abbreviation fmt := (format range strconv_Quote fmt_v).

Lemma printed_inv (P : Term → Prop) t :
  printed P t ↔
  P t ∧ (IsDatum t = false →
         Forall (printed P) (args_of t)
         ∧ map_Forall (λ _, printed P) (optArgs_of t)).
Proof.
  split.
  - destruct 1 as [t Hd HP | t Hd HP Hargs Hopts].
    + split; [done |]. congruence.
    + by split.
  - intros [HP Hrest]. destruct (IsDatum t) eqn:Hd.
    + by apply printed_datum.
    + destruct (Hrest eq_refl). by apply printed_operator.
Qed.

Lemma formatArgs_returns t i :
  returns (formatArgs range strconv_Quote fmt_v t i) ↔
  Forall (λ arg,
            returns
              (fmt arg (if (1 <? length (args_of t))%nat then S i else i)))
    (args_of t).
Proof.
  unfold formatArgs, args_of. destruct (Args t) as [args |]; cbn -[formatArgs_body].
  - by rewrite formatArgs_body_returns, Forall_fmap.
  - split; [constructor | intros _; apply returns_Returns].
Qed.

Lemma formatOptArgs_returns t i :
  returns (formatOptArgs range strconv_Quote fmt_v t i) ↔
  map_Forall
    (λ _ arg,
       returns
         (fmt arg (if (1 <? size (optArgs_of t))%nat then S i else i)))
    (optArgs_of t).
Proof.
  unfold formatOptArgs, optArgs_of. destruct (OptArgs t) as [optArgs |]; cbn -[formatOptArgs_body].
  - by rewrite formatOptArgs_body_returns, map_Forall_fmap.
  - split; [intros _; apply map_Forall_empty | intros _; apply returns_Returns].
Qed.

(** [format] returns exactly when every DATUM node it prints carries a
    value. *)
Lemma format_returns t :
  ∀ i, returns (fmt t i) ↔ printed datum_present t.
Proof.
  induction t as [t IHargs IHopts] using Term_nested_ind. intros i.
  rewrite format_eq, printed_inv. unfold datum_present.
  destruct (IsDatum t) eqn:Hd.
  - split.
    + intros [s Hs]. split; [| done]. intros _.
      destruct (Datum t); [by eexists | done].
    + intros [[d ->] _]; [done |].
      unfold returns. destruct (json.IsNull d), (json.IsString d); by eexists.
  - rewrite !exec_app_returns, formatArgs_returns, formatOptArgs_returns.
    pose proof (returns_Returns ("(" +:+ termName (Type_ t))).
    pose proof (returns_Returns ")").
    assert (Hargs :
      Forall (λ arg,
                returns
                  (fmt arg
                     (if (1 <? length (args_of t))%nat then S i else i)))
        (args_of t)
      ↔ Forall (printed datum_present) (args_of t)).
    { rewrite !Forall_forall. split; intros Hall arg Hin.
      - eapply (proj1 (Forall_forall _ _) IHargs arg Hin), Hall, Hin.
      - eapply (proj1 (Forall_forall _ _) IHargs arg Hin), Hall, Hin. }
    assert (Hopts :
      map_Forall
        (λ _ arg,
           returns
             (fmt arg (if (1 <? size (optArgs_of t))%nat then S i else i)))
        (optArgs_of t)
      ↔ map_Forall (λ _, printed datum_present) (optArgs_of t)).
    { split; intros Hall key arg Hk.
      - eapply (IHopts key arg Hk), Hall, Hk.
      - eapply (IHopts key arg Hk), Hall, Hk. }
    rewrite Hargs, Hopts. split; [| tauto].
    intros (_ & ? & ? & _). split; [done | by intros _].
Qed.

(** The only panic of [format] is the nil dereference. *)
Lemma format_returns_or_nil t : ∀ i, returns_or_nil (fmt t i).
Proof.
  induction t as [t IHargs IHopts] using Term_nested_ind. intros i.
  rewrite format_eq. destruct (IsDatum t) eqn:Hd.
  - destruct (Datum t) as [d |]; [left | by right].
    unfold returns. destruct (json.IsNull d), (json.IsString d); by eexists.
  - apply exec_app_returns_or_nil; [left; apply returns_Returns |].
    apply exec_app_returns_or_nil;
      [| apply exec_app_returns_or_nil; [| left; apply returns_Returns]].
    + unfold formatArgs, args_of in *.
      destruct (Args t) as [args |]; cbn -[formatArgs_body] in *; [| left; apply returns_Returns].
      apply formatArgs_body_returns_or_nil, Forall_fmap.
      eapply Forall_impl; [exact IHargs |]. intros arg Harg. apply Harg.
    + unfold formatOptArgs, optArgs_of in *.
      destruct (OptArgs t) as [optArgs |]; cbn -[formatOptArgs_body] in *;
        [| left; apply returns_Returns].
      apply formatOptArgs_body_returns_or_nil, map_Forall_fmap.
      intros key arg Hk. apply (IHopts key arg Hk).
Qed.

End Printing.

Section PrintingTheorem.
Import query.

Variable range : gmap string (exec string) → list (string * exec string).
Hypothesis range_Permutation : ∀ m, range m ≡ₚ map_to_list m.
Variable strconv_Quote : string → string.
Variable fmt_v : json.Value → string.
Variable range_values :
  gmap string (result error Term) → list (string * result error Term).
Hypothesis range_values_Permutation :
  ∀ m, range_values m ≡ₚ map_to_list m.

Lemma Forall_nodes_inv (P : Term → Prop) t :
  Forall_nodes P t →
  P t ∧ Forall (Forall_nodes P) (args_of t)
  ∧ map_Forall (λ _, Forall_nodes P) (optArgs_of t).
Proof. by destruct 1. Qed.

Lemma Forall_nodes_printed (P Q : Term → Prop) t :
  (∀ t', P t' → Q t') → Forall_nodes P t → printed Q t.
Proof.
  intros HPQ. induction t as [t IHargs IHopts] using Term_nested_ind.
  intros (HP & Hargs & Hopts)%Forall_nodes_inv.
  apply printed_inv. split; [by apply HPQ |]. intros _. split.
  - rewrite Forall_forall in *. intros arg Hin.
    by apply (IHargs arg Hin), Hargs.
  - intros key arg Hk. by apply (IHopts key arg Hk), (Hopts key arg Hk).
Qed.

(** X11: [String] returns the text of a term exactly when every DATUM
    node it prints carries a value, and otherwise panics on the nil
    [Datum] (it has no other panic).  So it returns on every term that
    [MakeTermTree] builds from a value none of whose term arrays is
    coded DATUM or MAKE_OBJ, and it panics on the term built from a
    term array whose element 0 is the number 1, the code of DATUM. *)
Theorem X11_String_panics_only_on_missing_datum :
  (∀ t, (∃ s, String_ range strconv_Quote fmt_v t = Returns s)
        ↔ printed datum_present t)
  ∧ (∀ t, String_ range strconv_Quote fmt_v t = Panics nil_dereference
          ↔ ¬ printed datum_present t)
  ∧ (∀ value t,
       operators_plain value → MakeTermTree range_values value = Ok t →
       ∃ s, String_ range strconv_Quote fmt_v t = Returns s)
  ∧ (∀ rest t,
       MakeTermTree range_values (json.Array (json.number_of_Z 1 :: rest))
       = Ok t →
       String_ range strconv_Quote fmt_v t = Panics nil_dereference).
Proof.
  assert (Hret : ∀ t, (∃ s, String_ range strconv_Quote fmt_v t = Returns s)
                      ↔ printed datum_present t).
  { intros t. apply (format_returns range range_Permutation). }
  split_and!.
  - exact Hret.
  - intros t. rewrite <- Hret.
    destruct (format_returns_or_nil range range_Permutation strconv_Quote
                fmt_v t 0) as [[s Hs] | Hp]; unfold String_.
    + rewrite Hs. split; [done | intros []; by eexists].
    + rewrite Hp. split; [by intros _ [? [=]] | done].
  - intros value t Hplain Hmk. apply Hret.
    apply (Forall_nodes_printed node_invariant).
    { intros t' (HD & _). intros Hd%Z.eqb_eq. by destruct (HD Hd) as (_ & _ & ?). }
    revert value t Hplain Hmk.
    apply (MakeTermTree_Forall_nodes range_values range_values_Permutation
             operators_plain node_invariant).
    + by inversion 1.
    + inversion 1; auto.
    + inversion 1; auto.
    + apply (MakeTermTree_node_invariant range_values
               range_values_Permutation).
  - intros rest t Hmk.
    apply (MakeTermTree_Array_Ok range_values range_values_Permutation)
      in Hmk as (n & [= <-] & HType & HDatum & _).
    unfold String_. rewrite (format_eq range). unfold IsDatum.
    by rewrite HType, HDatum.
Qed.

End PrintingTheorem.

(* --------------------------------------------------------------------- *)
(** ** The client-first message and the runs of the handshake *)
(* --------------------------------------------------------------------- *)

Section ClientFirstLoop.
Import go_strings server.

#[local] Arguments String.append !_ _ / : simpl nomatch.

(** One turn of the loop over the attributes of the client-first
    message: [n=admin] is passed over, [r=...] sets the client nonce,
    anything else ends the loop with an error. *)
Lemma clientFirstAttrs_cons a attr attrs :
  (attr = "n=admin"
   ∧ clientFirstAttrs a (attr :: attrs) = clientFirstAttrs a attrs)
  ∨ (HasPrefix attr "r=" = true
     ∧ clientFirstAttrs a (attr :: attrs)
       = clientFirstAttrs
           (mkScram (authMessage a) (drop 2 attr) (serverNonce a)
              (serverSignature a)) attrs)
  ∨ (attr ≠ "n=admin" ∧ HasPrefix attr "r=" = false
     ∧ ∃ err, clientFirstAttrs a (attr :: attrs) = (a, Some err)).
Proof.
  cbn [clientFirstAttrs]. unfold SplitN2.
  destruct (cut attr equals) as [[key val] |] eqn:Hcut.
  - pose proof (cut_Some _ _ _ _ Hcut) as ->.
    destruct (String.eqb_spec key "n") as [-> | Hn].
    { destruct (String.eqb_spec val adminUsername) as [-> | Hval];
        cbn [negb]; [by left |].
      right; right. split_and!; [| done | by eexists].
      intros [= H]. by apply Hval. }
    destruct (String.eqb_spec key "r") as [-> | Hr]; [right; left; done |].
    right; right. split_and!; [| | by eexists].
    + intros Heq. rewrite Heq in Hcut. cbn in Hcut.
      by injection Hcut as <- _.
    + destruct (HasPrefix (key +:+ String equals val) "r=") eqn:Hp; [| done].
      apply HasPrefix_true in Hp as [r Hp]. rewrite Hp in Hcut.
      cbn in Hcut. by injection Hcut as <- _.
  - right; right. split_and!; [| | by eexists].
    + by intros ->.
    + destruct (HasPrefix attr "r=") eqn:Hp; [| done].
      by apply HasPrefix_true in Hp as [r ->].
Qed.

Lemma clientFirstAttrs_None a attrs a' :
  clientFirstAttrs a attrs = (a', None) ↔
  Forall (λ attr, attr = "n=admin" ∨ HasPrefix attr "r=" = true) attrs
  ∧ a' = mkScram (authMessage a) (last_nonce (clientNonce a) attrs)
           (serverNonce a) (serverSignature a).
Proof.
  revert a. induction attrs as [| attr attrs IH]; intros a.
  - cbn. destruct a. split; [by intros [= <-] | by intros [_ ->]].
  - rewrite Forall_cons. unfold last_nonce. cbn [foldl].
    fold (last_nonce (if HasPrefix attr "r=" then drop 2 attr
                      else clientNonce a) attrs).
    destruct (clientFirstAttrs_cons a attr attrs)
      as [[-> ->] | [[Hp ->] | (Hn & Hp & err & ->)]].
    + rewrite IH. cbn [HasPrefix Ascii.eqb Bool.eqb]. cbn.
      split; [intros [? ->]; by auto | by intros [[_ ?] ->]].
    + rewrite IH, Hp. cbn.
      split; [intros [? ->]; by auto | by intros [[_ ?] ->]].
    + split; [done |]. intros [[[? | ?] _] _]; congruence.
Qed.

Lemma readClientAuthenticationMessage_None a message a' :
  readClientAuthenticationMessage a message = (a', None) ↔
  ProtocolVersion message = 0
  ∧ AuthenticationMethod message = "SCRAM-SHA-256"
  ∧ HasPrefix (Authentication message) "n,," = true
  ∧ Forall (λ attr, attr = "n=admin" ∨ HasPrefix attr "r=" = true)
      (Split (drop 3 (Authentication message)) comma)
  ∧ a' = mkScram (drop 3 (Authentication message))
           (last_nonce (clientNonce a)
              (Split (drop 3 (Authentication message)) comma))
           (serverNonce a) (serverSignature a).
Proof.
  unfold readClientAuthenticationMessage.
  destruct (Z.eqb_spec (ProtocolVersion message) 0) as [-> | Hv]; cbn [negb].
  2: { split; [done | by intros [? _]]. }
  destruct (String.eqb_spec (AuthenticationMethod message) "SCRAM-SHA-256")
    as [-> | Hm]; cbn [negb].
  2: { split; [done | by intros (_ & ? & _)]. }
  unfold TrimPrefix.
  destruct (HasPrefix (Authentication message) "n,,") eqn:Hp; cbn [negb].
  2: { split; [done | by intros (_ & _ & ? & _)]. }
  cbn [authMessage]. rewrite clientFirstAttrs_None. cbn.
  split; [intros [? ->]; by split_and! | by intros (_ & _ & _ & ? & ->)].
Qed.

(** X13: the client-first messages that are accepted.  The protocol
    version is 0, the method is SCRAM-SHA-256, the authentication string
    begins with ["n,,"], and each of the comma-separated attributes
    after it is [n=admin] or begins with [r=].  The authentication
    message is then the string after ["n,,"], and the client nonce the
    value of the last [r=] attribute (the nonce the authenticator had
    when there is none).  The string ["n,,"] alone, which has one empty
    attribute, is rejected. *)
Theorem X13_client_first_acceptance a message a' :
  (readClientAuthenticationMessage a message = (a', None) ↔
   ProtocolVersion message = 0
   ∧ AuthenticationMethod message = "SCRAM-SHA-256"
   ∧ HasPrefix (Authentication message) "n,," = true
   ∧ Forall (λ attr, attr = "n=admin" ∨ HasPrefix attr "r=" = true)
       (Split (drop 3 (Authentication message)) comma)
   ∧ a' = mkScram (drop 3 (Authentication message))
            (last_nonce (clientNonce a)
               (Split (drop 3 (Authentication message)) comma))
            (serverNonce a) (serverSignature a))
  ∧ readClientAuthenticationMessage a
      (mkClientMessage 0 "n,," "SCRAM-SHA-256")
    = (mkScram "" (clientNonce a) (serverNonce a) (serverSignature a),
       Some (ErrAttribute "")).
Proof.
  split; [apply readClientAuthenticationMessage_None | reflexivity].
Qed.

End ClientFirstLoop.

Section Handshake.
Import go_strings server.

#[local] Arguments String.append !_ _ / : simpl nomatch.

Variable hmac_sha256 : string → string → string.
Variable sha256_Sum256 : string → string.
Variable base64_EncodeToString : string → string.
Variable base64_DecodeString : string → option string.
Variable storedPasswordHash : string.
Hypothesis decode_stored_hash :
  base64_DecodeString adminPasswordHash = Some storedPasswordHash.
Hypothesis hmac_sha256_length :
  ∀ key data, String.length (hmac_sha256 key data) = 32%nat.

Abbreviation readProof :=
  (readClientAuthenticationProof hmac_sha256 sha256_Sum256
     base64_EncodeToString base64_DecodeString).
Abbreviation Expected :=
  (ExpectedProof hmac_sha256 sha256_Sum256 base64_EncodeToString
     storedPasswordHash).
Abbreviation handshake :=
  (DoHandshake hmac_sha256 sha256_Sum256 base64_EncodeToString
     base64_DecodeString).

Lemma writeServerAuthenticationMessage_eq a serverNonceBuf :
  writeServerAuthenticationMessage base64_EncodeToString a serverNonceBuf =
  let nonce := clientNonce a +:+ base64_EncodeToString serverNonceBuf in
  (mkScram (authMessage a +:+ "," +:+ serverFirst nonce) (clientNonce a)
     nonce (serverSignature a),
   mkServerMessage true (serverFirst nonce)).
Proof.
  unfold writeServerAuthenticationMessage, serverFirst. cbn zeta.
  set (nonce := clientNonce a +:+ base64_EncodeToString serverNonceBuf).
  assert (H : Join [ "r=" +:+ nonce; "s=" +:+ adminPasswordSalt;
                     "i=" +:+ pretty passwordIterations ] ","
              = "r=" +:+ nonce +:+ ",s=" +:+ adminPasswordSalt +:+ ",i=4096").
  { cbn [Join]. rewrite app_assoc. reflexivity. }
  cbn [server_Authentication]. by rewrite H.
Qed.

(** The client-final phase panics exactly when [",p="] is missing. *)
Lemma readProof_Panics a message p :
  readProof a message = Panics p ↔
  Index (Authentication message) ",p=" = -1
  ∧ p = slice_bounds_out_of_range (-1).
Proof.
  destruct (Index_from_bounds 0 (Authentication message) ",p=")
    as [Hidx | Hidx]; fold (Index (Authentication message) ",p=") in Hidx.
  - rewrite (readProof_not_found hmac_sha256 sha256_Sum256
               base64_EncodeToString base64_DecodeString storedPasswordHash
               decode_stored_hash a message Hidx).
    split; [by intros [= <-] | by intros [_ ->]].
  - rewrite (readProof_found hmac_sha256 sha256_Sum256 base64_EncodeToString
               base64_DecodeString storedPasswordHash decode_stored_hash
               hmac_sha256_length a message Hidx).
    cbn zeta. split; [| intros [? _]; lia].
    destruct (negb _); [done |].
    destruct (clientFinalAttrs _ _ _ _ _) as [[vn vp] [err |]]; [done |].
    by destruct (negb _).
Qed.

Lemma readProof_None a message a3 :
  readProof a message = Returns (a3, None) →
  let bare :=
    take (Z.to_nat (Index (Authentication message) ",p="))
      (Authentication message) in
  a3 = mkScram (authMessage a +:+ "," +:+ bare) (clientNonce a)
         (serverNonce a)
         (base64_EncodeToString
            (hmac_sha256 (hmac_sha256 storedPasswordHash "Server Key")
               (authMessage a +:+ "," +:+ bare))).
Proof.
  destruct (Index_from_bounds 0 (Authentication message) ",p=")
    as [Hidx | Hidx]; fold (Index (Authentication message) ",p=") in Hidx.
  - by rewrite (readProof_not_found hmac_sha256 sha256_Sum256
                  base64_EncodeToString base64_DecodeString
                  storedPasswordHash decode_stored_hash a message Hidx).
  - rewrite (readProof_found hmac_sha256 sha256_Sum256 base64_EncodeToString
               base64_DecodeString storedPasswordHash decode_stored_hash
               hmac_sha256_length a message Hidx).
    cbn zeta. destruct (negb _); [done |].
    destruct (clientFinalAttrs _ _ _ _ _) as [[vn vp] [err |]]; [done |].
    destruct (negb _); [done |]. by intros [= <-].
Qed.

(** The runs of [DoHandshake], phase by phase. *)
Lemma handshake_eq version clientFirst serverNonceBuf clientFinal :
  handshake version clientFirst serverNonceBuf clientFinal =
  if negb (version =? VersionDummy_V1_0)
  then Returns ([], Some (ErrVersion version))
  else
    let r1 := readClientAuthenticationMessage newAuthenticator clientFirst in
    match r1.2 with
    | Some err =>
        Returns
          ([VersionPayload writeVersionMessage],
           Some (ErrPhase "unable to read client authentication message"
                   err))
    | None =>
        let w :=
          writeServerAuthenticationMessage base64_EncodeToString r1.1
            serverNonceBuf in
        match readProof w.1 clientFinal with
        | Panics p => Panics p
        | Returns (_, Some err) =>
            Returns
              ([VersionPayload writeVersionMessage; AuthPayload w.2],
               Some (ErrPhase "unable to read client authentication proof"
                       err))
        | Returns (a3, None) =>
            Returns
              ([VersionPayload writeVersionMessage; AuthPayload w.2;
                AuthPayload (mkServerMessage true ("v=" +:+ serverSignature a3))],
               None)
        end
    end.
Proof.
  unfold DoHandshake. destruct (negb _); [done |].
  destruct (readClientAuthenticationMessage _ _) as [a1 [err |]]; [done |].
  cbn [fst snd].
  destruct (writeServerAuthenticationMessage _ _ _) as [a2 msg]. cbn [fst snd].
  destruct (readProof a2 clientFinal) as [[a3 [err |]] | p]; done.
Qed.

(** X14: what a successful handshake writes.  With [bare] the
    client-first authentication string after ["n,,"], the nonce of the
    server is the last [r=] value of [bare] followed by the base64 of the
    18 random bytes; the server-first message is
    [r=<nonce>,s=<salt>,i=4096]; and the signature the server sends last
    is the base64 of the HMAC, under the key HMAC(stored hash,
    "Server Key"), of the three parts joined by commas: [bare], the
    server-first string, and the client-final string before [",p="]. *)
Theorem X14_successful_handshake_output
    version clientFirst serverNonceBuf clientFinal written :
  handshake version clientFirst serverNonceBuf clientFinal
  = Returns (written, None) →
  let bare := drop 3 (Authentication clientFirst) in
  let nonce :=
    last_nonce "" (Split bare comma)
    +:+ base64_EncodeToString serverNonceBuf in
  let final := Authentication clientFinal in
  let signed :=
    bare +:+ "," +:+ serverFirst nonce +:+ ","
    +:+ take (Z.to_nat (Index final ",p=")) final in
  written
  = [ VersionPayload (mkVersionMessage true 0 0 "ReboltDB 0.1.0");
      AuthPayload (mkServerMessage true (serverFirst nonce));
      AuthPayload
        (mkServerMessage true
           ("v=" +:+ base64_EncodeToString
                       (hmac_sha256
                          (hmac_sha256 storedPasswordHash "Server Key")
                          signed))) ].
Proof.
  rewrite handshake_eq. destruct (negb _); [done |]. cbn zeta.
  destruct (readClientAuthenticationMessage _ _) as [a1 [err |]] eqn:H1;
    [done |].
  apply readClientAuthenticationMessage_None in H1 as (_ & _ & _ & _ & ->).
  cbn [fst snd]. rewrite writeServerAuthenticationMessage_eq. cbn [fst snd].
  cbn [clientNonce authMessage serverSignature].
  destruct (readProof _ clientFinal) as [[a3 [err |]] | p] eqn:H3;
    try done.
  apply readProof_None in H3 as ->.
  intros [= <-]. cbn [serverSignature authMessage].
  by rewrite !app_assoc.
Qed.




End Handshake.

(* --------------------------------------------------------------------- *)
(** ** Frames and the dispatch of queries *)
(* --------------------------------------------------------------------- *)

Section Frames.
Import go_strings main.

#[local] Arguments String.append !_ _ / : simpl nomatch.

Lemma length_PutLittleEndian n z : String.length (PutLittleEndian n z) = n.
Proof. revert z. induction n as [| n IH]; intros z; cbn; [done | by f_equal]. Qed.

Lemma LittleEndian_PutLittleEndian n z :
  0 ≤ z < 256 ^ Z.of_nat n → LittleEndian (PutLittleEndian n z) = z.
Proof.
  revert z. induction n as [| n IH]; intros z Hz.
  - cbn in *. lia.
  - cbn [PutLittleEndian LittleEndian].
    rewrite Ascii.N_ascii_embedding.
    2: { pose proof (Z.mod_pos_bound z 256 ltac:(lia)).
         change 256%N with (Z.to_N 256). apply Z2N.inj_lt; lia. }
    rewrite Z2N.id by (apply Z.mod_pos_bound; lia).
    rewrite IH.
    + pose proof (Z.div_mod z 256 ltac:(lia)). lia.
    + rewrite Nat2Z.inj_succ, Z.pow_succ_r in Hz by lia.
      split; [apply Z.div_pos; lia |].
      apply Z.div_lt_upper_bound; lia.
Qed.

Lemma LittleEndian_bounds buf :
  0 ≤ LittleEndian buf < 256 ^ Z.of_nat (String.length buf).
Proof.
  induction buf as [| c buf IH]; [cbn; lia |].
  cbn [LittleEndian String.length].
  rewrite Nat2Z.inj_succ, Z.pow_succ_r by lia.
  pose proof (Ascii.N_ascii_bounded c) as Hc.
  assert (0 ≤ Z.of_N (Ascii.N_of_ascii c) < 256) by lia. lia.
Qed.

Lemma take_drop_app (x y : string) :
  take (String.length x) (x +:+ y) = x
  ∧ drop (String.length x) (x +:+ y) = y.
Proof. split; [apply take_app | apply drop_app]. Qed.

Lemma ReadFull_app n (x y : string) :
  String.length x = n → ReadFull n (x +:+ y) = Some (x, y).
Proof.
  intros <-. unfold ReadFull. rewrite length_app.
  destruct (Nat.leb_spec (String.length x)
              (String.length x + String.length y)); [| lia].
  by rewrite take_app, drop_app.
Qed.

Lemma ReadFull_short n (input : string) :
  (String.length input < n)%nat → ReadFull n input = None.
Proof.
  intros Hlt. unfold ReadFull.
  by destruct (Nat.leb_spec n (String.length input)); [lia |].
Qed.

Variable range :
  gmap string (result query.error query.Term) →
  list (string * result query.error query.Term).
Variable json_Parse : string → result string json.Value.

Abbreviation handle := (handleQueries range json_Parse).

(** X18: input that ends inside a frame.  With fewer than 8 bytes the
    token cannot be read; with the 8 bytes of a token and fewer than 4
    more, the size cannot be read; with a token, a size and fewer bytes
    than the size announces, the query cannot be read.  Each time
    [handleQueries] returns the error of the read that failed, without
    parsing or running anything, and the set of tokens is as before. *)
Theorem X18_truncated_frame (cache : gset Z) :
  (∀ input, (String.length input < 8)%nat →
     handle (mkQueryServer cache input)
     = (mkQueryServer cache "", Some ErrReadToken))
  ∧ (∀ token input, (String.length input < 4)%nat →
       handle (mkQueryServer cache (PutLittleEndian 8 token +:+ input))
       = (mkQueryServer cache "", Some ErrReadSize))
  ∧ (∀ token size input,
       0 ≤ size < 2 ^ 32 → len input < size →
       handle
         (mkQueryServer cache
            (PutLittleEndian 8 token +:+ PutLittleEndian 4 size +:+ input))
       = (mkQueryServer cache "", Some ErrReadQuery)).
Proof.
  split_and!.
  - intros input Hlen. unfold handleQueries. cbn [reader queryCache].
    by rewrite ReadFull_short.
  - intros token input Hlen. unfold handleQueries. cbn [reader queryCache].
    rewrite ReadFull_app by apply length_PutLittleEndian.
    by rewrite ReadFull_short.
  - intros token size input Hsize Hlen. unfold handleQueries.
    cbn [reader queryCache].
    rewrite ReadFull_app by apply length_PutLittleEndian.
    rewrite ReadFull_app by apply length_PutLittleEndian.
    rewrite (LittleEndian_PutLittleEndian 4 size) by (cbn; lia).
    rewrite ReadFull_short; [done |]. unfold len in Hlen. lia.
Qed.

(** X19: the frame of a query is the token in 8 bytes, the lowest
    first, the size of the body in 4 bytes, the lowest first, and the
    body.  On such a frame followed by more input, [handleQueries]
    parses the body and runs the query under the token; it consumes the
    frame and nothing after it, and leaves the set of tokens as it is.
    An error of the parser or of the query is returned in its
    context. *)
Theorem X19_frame_decoding (cache : gset Z) token body rest :
  0 ≤ token < 2 ^ 64 → len body < 2 ^ 32 →
  handle (mkQueryServer cache (frame token body +:+ rest))
  = (mkQueryServer cache rest,
     match json_Parse body with
     | Err err => Some (ErrParse err)
     | Ok queryVal =>
         match (runQuery range (mkQueryServer cache rest) token queryVal).2
         with
         | Some err => Some (ErrHandle err)
         | None => None
         end
     end).
Proof.
  intros Htoken Hbody. unfold handleQueries, frame. cbn [reader queryCache].
  rewrite !app_assoc.
  rewrite ReadFull_app by apply length_PutLittleEndian.
  rewrite ReadFull_app by apply length_PutLittleEndian.
  rewrite (LittleEndian_PutLittleEndian 8 token) by (cbn; lia).
  rewrite (LittleEndian_PutLittleEndian 4 (len body))
    by (unfold len in *; cbn; lia).
  unfold len. rewrite Nat2Z.id, ReadFull_app by done.
  destruct (json_Parse body) as [queryVal | err]; [| done].
  pose proof (runQuery_queryCache range (mkQueryServer cache rest) token
                queryVal) as Hqs.
  destruct (runQuery range _ token queryVal) as [qs [err |]];
    cbn in Hqs; by subst.
Qed.

End Frames.

Section Dispatch.
Import main.

Variable range :
  gmap string (result query.error query.Term) →
  list (string * result query.error query.Term).

(** X20: the queries [runQuery] accepts are the arrays of exactly three
    elements [[n, term, optargs]] in which [n] is a number whose
    conversion to the 32-bit query type is START, [optargs] is an
    object, the token is not in the set of tokens, and [term]
    translates.  The content of [optargs] plays no part in the
    result. *)
Theorem X20_runQuery_acceptance qs token :
  (∀ queryVal,
     runQuery range qs token queryVal = (qs, None) ↔
     ∃ n value globalOptArgs,
       queryVal = json.Array [json.Number n; value;
                              json.Object globalOptArgs]
       ∧ queryType_of n = ql2.Query_START
       ∧ (token ∉ queryCache qs)
       ∧ ∃ t, query.MakeTermTree range value = Ok t)
  ∧ (∀ n value globalOptArgs globalOptArgs',
       runQuery range qs token
         (json.Array [n; value; json.Object globalOptArgs])
       = runQuery range qs token
           (json.Array [n; value; json.Object globalOptArgs'])).
Proof.
  split.
  2: { intros n value o o'. unfold runQuery, startQuery.
       destruct n; reflexivity. }
  intros queryVal. split.
  - unfold runQuery.
    destruct queryVal as [| | | | queryArray |]; try done.
    destruct queryArray as [| e0 [| e1 [| e2 [| e3 tl]]]]; try done;
      destruct e0 as [| | n | | |]; try done; cbn [json.IsNumber negb].
    + repeat case_match. all: try done.
    + repeat case_match. all: try done.
    + destruct e2 as [| | | | | o]; try done.
      change (ql2.int32_of_int64 (json.AsInt64 (json.Number n)))
        with (queryType_of n).
      destruct (Z.eqb_spec (queryType_of n) ql2.Query_START) as [Hst | Hst].
      2: { repeat case_match. all: try done. }
      unfold startQuery. case_bool_decide as Hdup; [done |].
      destruct (query.MakeTermTree range e1) as [t | err] eqn:Hmk;
        [| done].
      intros _. exists n, e1, o. split_and!; try done. by exists t.
  - intros (n & value & o & -> & Hst & Hdup & t & Hmk).
    unfold runQuery. cbn [json.IsNumber negb].
    change (ql2.int32_of_int64 (json.AsInt64 (json.Number n)))
      with (queryType_of n).
    rewrite Hst. cbn [Z.eqb]. unfold startQuery.
    rewrite bool_decide_eq_false_2 by done. by rewrite Hmk.
Qed.

(** X21: how [runQuery] rejects.  A value that is not an array, an
    array of no or more than three elements, and an array whose element
    0 is not a number are rejected as such.  A third element that is
    not an object is rejected before the query type is looked at,
    whatever the type.  A START query of one or two elements is
    rejected for its number of elements.  The types CONTINUE, STOP,
    NOREPLY_WAIT and SERVER_INFO are rejected as not implemented, and
    every other type but START as unrecognized.  The server is left as
    it was in every case. *)
Theorem X21_runQuery_rejections qs token :
  (∀ queryVal, json.IsArray queryVal = false →
     runQuery range qs token queryVal
     = (qs, Some (ErrQueryNotArray (json.ValueType_of queryVal))))
  ∧ (∀ queryArray,
       length queryArray = 0%nat ∨ (3 < length queryArray)%nat →
       runQuery range qs token (json.Array queryArray)
       = (qs, Some (ErrQueryElements (length queryArray))))
  ∧ (∀ queryArray0 rest,
       (length rest ≤ 2)%nat → json.IsNumber queryArray0 = false →
       runQuery range qs token (json.Array (queryArray0 :: rest))
       = (qs, Some (ErrQueryTypeNotNumber
                      (json.ValueType_of queryArray0))))
  ∧ (∀ n queryArray1 queryArray2,
       json.IsObject queryArray2 = false →
       runQuery range qs token
         (json.Array [json.Number n; queryArray1; queryArray2])
       = (qs, Some (ErrGlobalOptArgs (json.ValueType_of queryArray2))))
  ∧ (∀ n rest,
       queryType_of n = ql2.Query_START → (length rest ≤ 1)%nat →
       runQuery range qs token (json.Array (json.Number n :: rest))
       = (qs, Some (ErrStartElements (S (length rest)))))
  ∧ (∀ n rest,
       (length rest ≤ 2)%nat →
       (∀ queryArray2, rest !! 1%nat = Some queryArray2 →
          json.IsObject queryArray2 = true) →
       queryType_of n ≠ ql2.Query_START →
       runQuery range qs token (json.Array (json.Number n :: rest))
       = (qs,
          Some (if bool_decide
                     (queryType_of n
                      ∈ [ql2.Query_CONTINUE; ql2.Query_STOP;
                         ql2.Query_NOREPLY_WAIT; ql2.Query_SERVER_INFO])
                then ErrNotImplemented (queryType_of n)
                else ErrUnrecognized (queryType_of n))))
  ∧ (∀ queryVal, (runQuery range qs token queryVal).1 = qs).
Proof.
  split_and!.
  - by intros [].
  - intros [| e0 [| e1 [| e2 [| e3 tl]]]] [Hl | Hl]; cbn in Hl; try lia;
      reflexivity.
  - intros e0 [| e1 [| e2 [| e3 tl]]] Hl He0; cbn in Hl; try lia;
      by destruct e0.
  - intros n e1 e2 He2. by destruct e2.
  - intros n [| e1 [| e2 tl]] Hst Hl; cbn in Hl; try lia;
      unfold runQuery; cbn [json.IsNumber negb];
      change (ql2.int32_of_int64 (json.AsInt64 (json.Number n)))
        with (queryType_of n); by rewrite Hst.
  - intros n rest Hl Hobj Hst.
    assert (Hopt : ∀ e1 e2 tl, rest = e1 :: e2 :: tl →
              ∃ o, e2 = json.Object o).
    { intros e1 e2 tl ->. specialize (Hobj e2 eq_refl).
      destruct e2; try done. by eexists. }
    unfold runQuery. cbn [json.IsNumber negb].
    change (ql2.int32_of_int64 (json.AsInt64 (json.Number n)))
      with (queryType_of n).
    assert (Hty :
      (queryType_of n =? ql2.Query_CONTINUE)
      || (queryType_of n =? ql2.Query_STOP)
      || (queryType_of n =? ql2.Query_NOREPLY_WAIT)
      || (queryType_of n =? ql2.Query_SERVER_INFO)
      = bool_decide
          (queryType_of n
           ∈ [ql2.Query_CONTINUE; ql2.Query_STOP;
              ql2.Query_NOREPLY_WAIT; ql2.Query_SERVER_INFO])).
    { apply eq_true_iff_eq. rewrite bool_decide_eq_true, !orb_true_iff,
        !Z.eqb_eq, !elem_of_cons, elem_of_nil. tauto. }
    destruct (Z.eqb_spec (queryType_of n) ql2.Query_START) as [? | _];
      [done |].
    destruct rest as [| e1 [| e2 [| e3 tl]]]; cbn in Hl; try lia.
    + rewrite Hty. by case_bool_decide.
    + rewrite Hty. by case_bool_decide.
    + destruct (Hopt e1 e2 [] eq_refl) as [o ->].
      rewrite Hty. by case_bool_decide.
  - intros queryVal. apply runQuery_queryCache.
Qed.

End Dispatch.

(* --------------------------------------------------------------------- *)
(** ** The further properties on concrete inputs *)
(* --------------------------------------------------------------------- *)

Section FurtherInstances.
Import query.

Lemma range_reversed_Permutation m : range_reversed m ≡ₚ map_to_list m.
Proof. unfold range_reversed. by rewrite reverse_Permutation. Qed.

Lemma range_printed_Permutation m : range_printed m ≡ₚ map_to_list m.
Proof. reflexivity. Qed.

(** X5 on the term array of the table-lookup scenario. *)
Lemma X5_accepted_values_have_term_shape_witness :
  ((∃ t, MakeTermTree range_listed table_lookup = Ok t)
   ↔ term_shape table_lookup)
  ∧ ((∃ e, MakeTermTree range_listed table_lookup = Err e)
     ↔ ¬ term_shape table_lookup).
Proof.
  exact (X5_accepted_values_have_term_shape range_listed
           range_listed_Permutation table_lookup).
Defined.

(** X6 for the listing of the map library and its reverse. *)
Lemma X6_result_independent_of_map_order_witness :
  (∀ value t,
     MakeTermTree range_listed value = Ok t
     ↔ MakeTermTree range_reversed value = Ok t)
  ∧ (∀ value,
       (∃ e, MakeTermTree range_listed value = Err e)
       ↔ (∃ e, MakeTermTree range_reversed value = Err e))
  ∧ MakeTermTree range_listed two_failures
    = Err (ErrObj "a" (ErrEntries 0))
  ∧ MakeTermTree range_reversed two_failures
    = Err (ErrObj "b" (ErrTermType json.VT_Boolean)).
Proof.
  exact (X6_result_independent_of_map_order range_listed range_reversed
           range_listed_Permutation range_reversed_Permutation).
Defined.

(** X7 on [[14, ["db"]]]: one argument, the DATUM of the string. *)
Lemma X7_term_array_result_witness :
  MakeTermTree range_listed
    (json.Array [json.number_of_Z 14; json.Array [json.String "db"]])
  = Ok {| Type_ := 14; Args := Some [datumTerm (json.String "db")];
          OptArgs := None; Datum := None |}.
Proof.
  apply (X7_term_array_result range_listed range_listed_Permutation
           (S754_finite false 14 0) [json.String "db"] ∅).
  exists [datumTerm (json.String "db")].
  split; [by repeat constructor | reflexivity].
Defined.

(** X8 on the numbers 4294967311 = 2^32 + 15, which gives the operator
    15, and 999, which the protocol does not define. *)
Lemma X8_operator_codes_are_not_validated_witness :
  MakeTermTree range_listed (json.Array [json.number_of_Z 4294967311])
  = Ok {| Type_ := 15; Args := None; OptArgs := None; Datum := None |}
  ∧ MakeTermTree range_listed (json.Array [json.number_of_Z 999])
    = Ok {| Type_ := 999; Args := None; OptArgs := None; Datum := None |}
  ∧ ql2.Term_TermType_name !! 999 = None.
Proof.
  destruct (X8_operator_codes_are_not_validated range_listed
              range_listed_Permutation) as (_ & Hwrap & Hcode & _).
  split; [exact (Hwrap 4294967311 ltac:(lia)) |].
  split; [exact (Hcode 999 ltac:(lia)) | reflexivity].
Defined.

(** X10 on [[1]], a term array coded DATUM: [returnType] panics. *)
Lemma X10_result_type_of_translation_witness :
  ∃ termArray0,
    [json.number_of_Z 1] !! 0%nat = Some termArray0
    ∧ returnType
        {| Type_ := 1; Args := None; OptArgs := None; Datum := None |}
      = if termType_of termArray0 =? ql2.Term_DATUM
        then Panics nil_dereference
        else Returns (default 0 (returnTypeMap !! termType_of termArray0)).
Proof.
  exact (X10_result_type_of_translation range_listed
           range_listed_Permutation (json.Array [json.number_of_Z 1])
           {| Type_ := 1; Args := None; OptArgs := None; Datum := None |}
           eq_refl).
Defined.

(** X11 with the listing of the map library as iteration order. *)
Lemma X11_String_panics_only_on_missing_datum_witness :
  (∃ s, String_ range_printed Quote_plain fmt_v_plain
          (datumTerm (json.String "users")) = Returns s)
  ∧ String_ range_printed Quote_plain fmt_v_plain
      {| Type_ := 1; Args := None; OptArgs := None; Datum := None |}
    = Panics nil_dereference.
Proof.
  destruct (X11_String_panics_only_on_missing_datum range_printed
              range_printed_Permutation Quote_plain fmt_v_plain
              range_listed range_listed_Permutation)
    as (_ & _ & Hplain & Hcoded).
  split.
  - apply (Hplain (json.String "users")); [constructor | reflexivity].
  - exact (Hcoded [] _ eq_refl).
Defined.

End FurtherInstances.

Section FurtherScramInstances.
Import go_strings server.

(** X14 on the happy handshake of the scenarios. *)
Lemma X14_successful_handshake_output_witness :
  let bare := drop 3 (Authentication scenario.clientFirst) in
  let nonce :=
    last_nonce "" (Split bare comma)
    +:+ crypto.base64_EncodeToString scenario.serverNonceBuf in
  let final :=
    Authentication
      (clientFinal "c=biws," (serverNonce scenario.afterServerFirst)
         scenario.clientProof) in
  let signed :=
    bare +:+ "," +:+ serverFirst nonce +:+ ","
    +:+ take (Z.to_nat (Index final ",p=")) final in
  [ VersionPayload (mkVersionMessage true 0 0 "ReboltDB 0.1.0");
    AuthPayload
      (mkServerMessage true
         ("r=rOprNGfwEbeRWgbNEkqO" +:+ "MDEyMzQ1Njc4OWFiY2RlZmdo"
          +:+ ",s=6VRzcOVKuS8WWbOKM5Vurw==,i=4096"));
    AuthPayload
      (mkServerMessage true
         "v=c5pinXhsNcUmSqUQcyOO/VeIfQHksbnpOfg9oQxB77I=") ]
  = [ VersionPayload (mkVersionMessage true 0 0 "ReboltDB 0.1.0");
      AuthPayload (mkServerMessage true (serverFirst nonce));
      AuthPayload
        (mkServerMessage true
           ("v=" +:+ crypto.base64_EncodeToString
                       (crypto.hmac_sha256
                          (crypto.hmac_sha256 scenario.storedPasswordHash
                             "Server Key")
                          signed))) ].
Proof.
  exact (X14_successful_handshake_output crypto.hmac_sha256
           crypto.sha256_Sum256 crypto.base64_EncodeToString
           crypto.base64_DecodeString scenario.storedPasswordHash
           decode_stored_hash_scenario hmac_sha256_length
           VersionDummy_V1_0 scenario.clientFirst scenario.serverNonceBuf
           (clientFinal "c=biws," (serverNonce scenario.afterServerFirst)
              scenario.clientProof)
           _ scenario_happy_handshake).
Defined.



End FurtherScramInstances.

Section FurtherFrameInstances.
Import main.

(** X19 on the frame of the query [[1,1,{}]] with token 42, followed by
    a second frame. *)
Lemma X19_frame_decoding_witness :
  handleQueries query.range_listed Parse_start_datum
    (mkQueryServer ∅ (frame 42 start_frame_body +:+ start_frame))
  = (mkQueryServer ∅ start_frame, None).
Proof.
  rewrite (X19_frame_decoding query.range_listed Parse_start_datum ∅ 42
             start_frame_body start_frame);
    [reflexivity | lia | by vm_compute].
Defined.

End FurtherFrameInstances.

Section FurtherScenarios.
Import query.

(** The text [String] prints for the term of the table-lookup
    scenario: the two arguments of TABLE each on a line of its own,
    the single argument of DB on the line of DB. *)
Example scenario_table_lookup_printed :
  String_ range_printed Quote_plain fmt_v_plain
    {| Type_ := ql2.Term_TABLE;
       Args := Some [ {| Type_ := ql2.Term_DB;
                         Args := Some [datumTerm (json.String "db")];
                         OptArgs := None; Datum := None |};
                      datumTerm (json.String "users") ];
       OptArgs := None; Datum := None |}
  = Returns
      ("(TABLE [" +:+ newline +:+ "  (DB [" +:+ Quote_plain "db" +:+ "])"
       +:+ newline +:+ "  " +:+ Quote_plain "users" +:+ newline +:+ "])").
Proof. by vm_compute. Qed.

End FurtherScenarios.
